(** * FloWaveNet building blocks ([modules.py]): a shallow embedding

    The module defines four classes on top of TensorFlow:
    [Conv] (padded, dilated 1-D convolution), [ZeroConv1d] (zero-initialised
    1x1 convolution with a learned exponential scale), [ResBlock] (gated
    residual block with local conditioning) and [WaveNet] (the stack).

    Tensors are rank-3 arrays indexed (batch, time, channel).  A tensor is
    modelled by its static shape together with its index function; shape
    errors raised by the framework are modelled by [None] in the [option]
    monad.  Scalars are kept abstract behind the [Scalar] class, so every
    structural result holds for any interpretation of the arithmetic. *)

From Stdlib Require Import ZArith List Bool Lia Arith PeanoNat.
From Stdlib Require Import Reals Lra.
From Stdlib Require Import QArith.
From Stdlib Require String.
Import ListNotations.

Close Scope Q_scope.

Set Default Proof Using "Type".

(** ** Scalars *)

(** The element type of tensors with the operations [modules.py] applies to
    it.  [fhalf] and [fthree] are the literals [0.5] and [3] of the source. *)
Class Scalar : Type := {
  F : Type;
  fzero : F;
  fone : F;
  fhalf : F;
  fthree : F;
  fadd : F -> F -> F;
  fmul : F -> F -> F;
  fexp : F -> F;
  ftanh : F -> F;
  fsigmoid : F -> F;
  frelu : F -> F;
  fsqrt : F -> F
}.

(** The reference interpretation: real arithmetic. *)
#[export] Instance RScalar : Scalar := {|
  F := R;
  fzero := 0%R;
  fone := 1%R;
  fhalf := (1 / 2)%R;
  fthree := 3%R;
  fadd := Rplus;
  fmul := Rmult;
  fexp := exp;
  ftanh := tanh;
  fsigmoid := fun x => (1 / (1 + exp (- x)))%R;
  frelu := fun x => Rmax 0 x;
  fsqrt := sqrt
|}.













(** ** What the sources leave open *)

(** Two things [modules.py] uses are fixed outside of it: whether the
    constructor of [Conv1D] accepts a kernel size and a dilation (the class
    is not among the sources), and the draw of initial weights made by
    [tf.initializers.he_uniform()]. *)
Class Framework {S : Scalar} : Type := {
  layer_accepts : Z -> Z -> bool;
  he_uniform : nat -> nat -> nat -> F
}.

(** ** The error monad *)

Definition bind {A B : Type} (m : option A) (k : A -> option B) : option B :=
  match m with
  | Some a => k a
  | None => None
  end.

Notation "x <- m ;; k" := (bind m (fun x => k))
  (at level 61, m at next level, right associativity).
Notation "' p <- m ;; k" := (bind m (fun p => k))
  (at level 61, p pattern, m at next level, right associativity).

(** ** Python integers and object identity *)

(** CPython keeps one preallocated object for every integer in [-5, 256];
    any other integer value lives in an object of its own.  The test
    [x is not 0] compares object identity with the preallocated zero. *)
Inductive PyInt : Type :=
  | SmallInt (v : Z)
  | BigInt (v : Z).

Definition py_value (p : PyInt) : Z :=
  match p with
  | SmallInt v => v
  | BigInt v => v
  end.

Definition is_small_int (v : Z) : bool := ((-5 <=? v) && (v <=? 256))%Z.

(** The object holding the result [v] of an integer operation. *)
Definition py_int (v : Z) : PyInt :=
  if is_small_int v then SmallInt v else BigInt v.

(** [p is not 0]. *)
Definition py_is_not_zero (p : PyInt) : bool :=
  match p with
  | SmallInt v => negb (v =? 0)%Z
  | BigInt _ => true
  end.

(** [range(n)] for a Python integer [n]. *)
Definition py_range (n : Z) : list Z :=
  map Z.of_nat (seq 0 (Z.to_nat n)).

(** The stop index of the slice [[:stop]] on an axis of length [len]. *)
Definition py_slice_stop (stop : Z) (len : nat) : nat :=
  Z.to_nat (if (stop <? 0)%Z
            then Z.max 0 (Z.of_nat len + stop)
            else Z.min stop (Z.of_nat len)).

Section Modules.

Context {S : Scalar} {Fw : Framework}.

(** ** Tensors *)

Record Tensor3D : Type := mkTensor {
  batch : nat;
  time : nat;
  chan : nat;
  val : nat -> nat -> nat -> F
}.

Definition shape (x : Tensor3D) : nat * nat * nat := (batch x, time x, chan x).

(** A tensor from nested lists (batch of sequences of channel vectors). *)
Definition of_lists (l : list (list (list F))) : Tensor3D :=
  {| batch := length l;
     time := length (hd [] l);
     chan := length (hd [] (hd [] l));
     val := fun b t c => nth c (nth t (nth b l []) []) fzero |}.

(** Elementwise application of a function: [tf.tanh], [tf.sigmoid],
    [tf.nn.relu], [tf.exp], multiplication by a Python scalar. *)
Definition tmap (f : F -> F) (x : Tensor3D) : Tensor3D :=
  {| batch := batch x; time := time x; chan := chan x;
     val := fun b t c => f (val x b t c) |}.

(** Broadcasting of one dimension: equal sizes, or one of them is 1. *)
Definition bdim (m n : nat) : option nat :=
  if m =? n then Some m
  else if m =? 1 then Some n
  else if n =? 1 then Some m
  else None.

Definition bidx (m i : nat) : nat := if m =? 1 then 0 else i.

(** The binary operators [+] and [*] on tensors, with broadcasting. *)
Definition tbinop (f : F -> F -> F) (x y : Tensor3D) : option Tensor3D :=
  b <- bdim (batch x) (batch y) ;;
  t <- bdim (time x) (time y) ;;
  c <- bdim (chan x) (chan y) ;;
  Some {| batch := b; time := t; chan := c;
          val := fun i j k =>
            f (val x (bidx (batch x) i) (bidx (time x) j) (bidx (chan x) k))
              (val y (bidx (batch y) i) (bidx (time y) j) (bidx (chan y) k)) |}.

Definition tadd : Tensor3D -> Tensor3D -> option Tensor3D := tbinop fadd.
Definition tmul : Tensor3D -> Tensor3D -> option Tensor3D := tbinop fmul.

(** [tf.pad(tensor, ((0, 0), (p, p), (0, 0)))]: zero padding of the time
    axis on both sides; a negative amount is rejected. *)
Definition tf_pad_time (p : Z) (x : Tensor3D) : option Tensor3D :=
  if (p <? 0)%Z then None
  else
    let n := Z.to_nat p in
    Some {| batch := batch x; time := n + time x + n; chan := chan x;
            val := fun b t c =>
              if (t <? n) || (n + time x <=? t) then fzero
              else val x b (t - n) c |}.

(** [out[:, :stop]]: the slice of the time axis. *)
Definition slice_time_to (stop : Z) (x : Tensor3D) : Tensor3D :=
  {| batch := batch x; time := py_slice_stop stop (time x); chan := chan x;
     val := val x |}.

(** ** The convolution layer [Conv1D] *)

(** Left-to-right sum of [f 0 .. f (n-1)]. *)
Definition sum_upto (n : nat) (f : nat -> F) : F :=
  fold_left (fun acc i => fadd acc (f i)) (seq 0 n) fzero.

(** Modelled from the spec: the layer class [Conv1D] of module
    [convolutional], which is not among the sources.  The layer owns a
    weight tensor indexed (tap, input channel, output channel) and a bias
    vector; it applies a dilated convolution with 'valid' semantics along
    the time axis, then adds the bias.  [input_channels] is the input
    width the layer has been built for; it is [None] as long as the layer
    has not been applied, and the layer then takes the width of its input.
    A built layer rejects an input of another width.  A layer whose kernel
    size or dilation is not positive cannot be applied, and an input
    shorter than the dilated kernel, which leaves no output position, is
    rejected. *)
Record Conv1D : Type := mkConv1D {
  filters : nat;
  kernel_size : Z;
  dilation_rate : Z;
  input_channels : option nat;
  kernel : nat -> nat -> nat -> F;
  bias : nat -> F
}.

Definition accepts_width (l : Conv1D) (w : nat) : bool :=
  match input_channels l with
  | Some n => w =? n
  | None => true
  end.

(** Time steps covered by the dilated kernel beyond the first tap. *)
Definition conv_span (l : Conv1D) : nat :=
  Z.to_nat (dilation_rate l * (kernel_size l - 1)).

Definition conv_at (l : Conv1D) (x : Tensor3D) (b t co : nat) : F :=
  fadd (sum_upto (Z.to_nat (kernel_size l)) (fun k =>
          sum_upto (chan x) (fun ci =>
            fmul (val x b (t + k * Z.to_nat (dilation_rate l)) ci)
                 (kernel l k ci co))))
       (bias l co).

Definition Conv1D_call (l : Conv1D) (x : Tensor3D) : option Tensor3D :=
  if ((kernel_size l <? 1) || (dilation_rate l <? 1))%Z then None
  else if negb (accepts_width l (chan x)) then None
  else if time x <=? conv_span l then None
  else Some {| batch := batch x; time := time x - conv_span l;
               chan := filters l; val := conv_at l x |}.

(** Calling a layer on an argument that may be Python's [None]. *)
Definition Conv1D_call_opt (l : Conv1D) (c : option Tensor3D) : option Tensor3D :=
  x <- c ;; Conv1D_call l x.

(** [tf.initializers.zeros()]. *)
Definition zeros3 : nat -> nat -> nat -> F := fun _ _ _ => fzero.
Definition zeros1 : nat -> F := fun _ => fzero.

(** The constructor is given the number of filters, the kernel size, the
    dilation and the two initializers, and no input width: the layer it
    returns is not built. *)
Definition Conv1D_init (filters : nat) (kernel_size dilation_rate : Z)
    (kernel_initializer : nat -> nat -> nat -> F)
    (bias_initializer : nat -> F) : option Conv1D :=
  if layer_accepts kernel_size dilation_rate
  then Some {| filters := filters; kernel_size := kernel_size;
               dilation_rate := dilation_rate;
               input_channels := None;
               kernel := kernel_initializer; bias := bias_initializer |}
  else None.

(** ** class [Conv] *)

Record Conv : Type := mkConv {
  Conv_causal : bool;
  Conv_padding : PyInt;
  Conv_conv : Conv1D
}.

(** [Conv.__init__].  The argument [in_channels] is not used: the layer
    is created from [out_channels], [kernel_size] and [dilation] alone.
    [//] is Python's floor division. *)
Definition Conv_init (in_channels out_channels : nat) (kernel_size dilation : Z)
    (causal : bool) : option Conv :=
  let padding :=
    if causal then py_int (dilation * (kernel_size - 1))
    else py_int (dilation * (kernel_size - 1) / 2) in
  conv <- Conv1D_init out_channels kernel_size dilation he_uniform zeros1 ;;
  Some {| Conv_causal := causal; Conv_padding := padding; Conv_conv := conv |}.

(** [Conv.forward]: pad, convolve, and drop [out[:, :-padding]] when the
    layer is causal and [self._padding is not 0]. *)
Definition Conv_forward (cv : Conv) (tensor : Tensor3D) : option Tensor3D :=
  let p := py_value (Conv_padding cv) in
  padded_tensor <- tf_pad_time p tensor ;;
  out <- Conv1D_call (Conv_conv cv) padded_tensor ;;
  if Conv_causal cv && py_is_not_zero (Conv_padding cv)
  then Some (slice_time_to (- p) out)
  else Some out.

(** ** class [ZeroConv1d] *)

Record ZeroConv1d : Type := mkZeroConv1d {
  Zero_conv : Conv1D;
  Zero_scale : Tensor3D
}.

(** [ZeroConv1d.__init__]; the argument [in_channel] is not used. *)
Definition ZeroConv1d_init (in_channel out_channel : nat) : option ZeroConv1d :=
  conv <- Conv1D_init out_channel 1 1 zeros3 zeros1 ;;
  Some {| Zero_conv := conv;
          Zero_scale := {| batch := 1; time := 1; chan := out_channel;
                           val := zeros3 |} |}.

Definition ZeroConv1d_forward (z : ZeroConv1d) (x : Tensor3D) : option Tensor3D :=
  out <- Conv1D_call (Zero_conv z) x ;;
  tmul out (tmap fexp (tmap (fun s => fmul s fthree) (Zero_scale z))).

(** ** class [ResBlock] *)

(** The attributes [_skip_conv], [_filter_conv_c] and [_gate_conv_c] exist
    only when the constructor took the corresponding branch. *)
Record ResBlock : Type := mkResBlock {
  RB_causal : bool;
  RB_local_conditioning : bool;
  RB_cin_channels : option nat;
  RB_skip : bool;
  RB_filter_conv : Conv;
  RB_gate_conv : Conv;
  RB_res_conv : Conv1D;
  RB_skip_conv : option Conv1D;
  RB_filter_conv_c : option Conv1D;
  RB_gate_conv_c : option Conv1D
}.

Definition is_not_None {A : Type} (o : option A) : bool :=
  match o with
  | Some _ => true
  | None => false
  end.

(** [ResBlock.__init__]; [cin_channels] is stored and given to no layer. *)
Definition ResBlock_init (in_channels out_channels : nat)
    (skip_channels : option nat) (kernel_size dilation : Z)
    (cin_channels : option nat) (local_conditioning causal : bool)
    : option ResBlock :=
  let skip := is_not_None skip_channels in
  filter_conv <- Conv_init in_channels out_channels kernel_size dilation causal ;;
  gate_conv <- Conv_init in_channels out_channels kernel_size dilation causal ;;
  res_conv <- Conv1D_init out_channels 1 1 he_uniform zeros1 ;;
  skip_conv <- match skip_channels with
               | Some sc =>
                   l <- Conv1D_init sc 1 1 he_uniform zeros1 ;; Some (Some l)
               | None => Some None
               end ;;
  filter_conv_c <- (if local_conditioning
                    then l <- Conv1D_init out_channels 1 1
                                he_uniform zeros1 ;; Some (Some l)
                    else Some None) ;;
  gate_conv_c <- (if local_conditioning
                  then l <- Conv1D_init out_channels 1 1
                              he_uniform zeros1 ;; Some (Some l)
                  else Some None) ;;
  Some {| RB_causal := causal;
          RB_local_conditioning := local_conditioning;
          RB_cin_channels := cin_channels;
          RB_skip := skip;
          RB_filter_conv := filter_conv;
          RB_gate_conv := gate_conv;
          RB_res_conv := res_conv;
          RB_skip_conv := skip_conv;
          RB_filter_conv_c := filter_conv_c;
          RB_gate_conv_c := gate_conv_c |}.

(** Calling an attribute that may not have been set. *)
Definition call_attr (a : option Conv1D) (c : option Tensor3D) : option Tensor3D :=
  l <- a ;; Conv1D_call_opt l c.

(** [h_filter] and [h_gate] after the optional conditioning terms. *)
Definition ResBlock_condition (rb : ResBlock) (h_filter h_gate : Tensor3D)
    (c : option Tensor3D) : option (Tensor3D * Tensor3D) :=
  if RB_local_conditioning rb
  then
    fc <- call_attr (RB_filter_conv_c rb) c ;;
    h_filter' <- tadd h_filter fc ;;
    gc <- call_attr (RB_gate_conv_c rb) c ;;
    h_gate' <- tadd h_gate gc ;;
    Some (h_filter', h_gate')
  else Some (h_filter, h_gate).

(** The value [out] of [ResBlock.forward]: the gated activation. *)
Definition ResBlock_activated (rb : ResBlock) (tensor : Tensor3D)
    (c : option Tensor3D) : option Tensor3D :=
  h_filter <- Conv_forward (RB_filter_conv rb) tensor ;;
  h_gate <- Conv_forward (RB_gate_conv rb) tensor ;;
  '(h_filter, h_gate) <- ResBlock_condition rb h_filter h_gate c ;;
  tmul (tmap ftanh h_filter) (tmap fsigmoid h_gate).

(** The skip output: a tensor, or Python's [None]. *)
Definition ResBlock_skip_of (rb : ResBlock) (out : Tensor3D)
    : option (option Tensor3D) :=
  if RB_skip rb
  then l <- RB_skip_conv rb ;; s <- Conv1D_call l out ;; Some (Some s)
  else Some None.

Definition ResBlock_forward (rb : ResBlock) (tensor : Tensor3D)
    (c : option Tensor3D) : option (Tensor3D * option Tensor3D) :=
  out <- ResBlock_activated rb tensor c ;;
  res <- Conv1D_call (RB_res_conv rb) out ;;
  skip <- ResBlock_skip_of rb out ;;
  sum <- tadd tensor res ;;
  Some (tmap (fun v => fmul v (fsqrt fhalf)) sum, skip).

(** ** class [WaveNet] *)

Record WaveNet : Type := mkWaveNet {
  WN_skip : bool;
  WN_front_conv : Conv;
  WN_res_blocks : list ResBlock;
  WN_final_conv : Conv;
  WN_final_zero_conv : ZeroConv1d
}.

(** A [for] loop over a list whose body may raise. *)
Fixpoint for_each {A St : Type} (body : St -> A -> option St) (l : list A)
    (s : St) : option St :=
  match l with
  | [] => Some s
  | a :: l' => s' <- body s a ;; for_each body l' s'
  end.

(** The two nested loops of [WaveNet.__init__] appending to [_res_blocks]. *)
Definition build_res_blocks (num_blocks num_layers : Z)
    (residual_channels gate_channels : nat) (skip_channels : option nat)
    (kernel_size : Z) (cin_channels : option nat) (causal : bool)
    : option (list ResBlock) :=
  for_each (fun res_blocks (b : Z) =>
      for_each (fun res_blocks (n : Z) =>
          rb <- ResBlock_init residual_channels gate_channels skip_channels
                  kernel_size (kernel_size ^ n) cin_channels true causal ;;
          Some (res_blocks ++ [rb]))
        (py_range num_layers) res_blocks)
    (py_range num_blocks) [].

Definition WaveNet_init (in_channels out_channels : nat)
    (num_blocks num_layers : Z) (residual_channels gate_channels : nat)
    (skip_channels : option nat) (kernel_size : Z)
    (cin_channels : option nat) (causal : bool) : option WaveNet :=
  let skip := is_not_None skip_channels in
  front_conv <- Conv_init in_channels residual_channels 3 1 causal ;;
  res_blocks <- build_res_blocks num_blocks num_layers residual_channels
                  gate_channels skip_channels kernel_size cin_channels causal ;;
  let last_channels :=
    match skip_channels with
    | Some sc => sc
    | None => residual_channels
    end in
  final_conv <- Conv_init last_channels last_channels 1 1 causal ;;
  final_zero_conv <- ZeroConv1d_init last_channels out_channels ;;
  Some {| WN_skip := skip;
          WN_front_conv := front_conv;
          WN_res_blocks := res_blocks;
          WN_final_conv := final_conv;
          WN_final_zero_conv := final_zero_conv |}.

(** [tf.add_n]: the sum of a non-empty list of tensors of one shape. *)
Definition same_shape (x y : Tensor3D) : bool :=
  (batch x =? batch y) && (time x =? time y) && (chan x =? chan y).

Definition tsum (x y : Tensor3D) : Tensor3D :=
  {| batch := batch x; time := time x; chan := chan x;
     val := fun b t c => fadd (val x b t c) (val y b t c) |}.

Fixpoint add_n_from (acc : Tensor3D) (l : list (option Tensor3D))
    : option Tensor3D :=
  match l with
  | [] => Some acc
  | None :: _ => None
  | Some x :: l' =>
      if same_shape acc x then add_n_from (tsum acc x) l' else None
  end.

Definition tf_add_n (l : list (option Tensor3D)) : option Tensor3D :=
  match l with
  | Some x :: l' => add_n_from x l'
  | _ => None
  end.

(** One iteration of the loop over [_res_blocks]; the state is the pair
    of the running stream [h] and the list [skip]. *)
Definition WaveNet_step (use_skip : bool) (c : option Tensor3D)
    (st : Tensor3D * list (option Tensor3D)) (f : ResBlock)
    : option (Tensor3D * list (option Tensor3D)) :=
  let '(h, skip) := st in
  if use_skip
  then '(h', s) <- ResBlock_forward f h c ;; Some (h', skip ++ [s])
  else '(h', _) <- ResBlock_forward f h c ;; Some (h', skip).

Definition WaveNet_blocks (net : WaveNet) (h : Tensor3D) (c : option Tensor3D)
    : option (Tensor3D * list (option Tensor3D)) :=
  for_each (WaveNet_step (WN_skip net) c) (WN_res_blocks net) (h, []).

(** The output projection shared by both branches. *)
Definition WaveNet_head (net : WaveNet) (out : Tensor3D) : option Tensor3D :=
  let out := tmap frelu out in
  out <- Conv_forward (WN_final_conv net) out ;;
  let out := tmap frelu out in
  ZeroConv1d_forward (WN_final_zero_conv net) out.

Definition WaveNet_forward (net : WaveNet) (x : Tensor3D) (c : option Tensor3D)
    : option Tensor3D :=
  h <- Conv_forward (WN_front_conv net) x ;;
  let h := tmap frelu h in
  '(h, skip) <- WaveNet_blocks net h c ;;
  if WN_skip net
  then out <- tf_add_n skip ;; WaveNet_head net out
  else WaveNet_head net h.

(** ** Class invariants *)

(** The amount of padding fixed by [Conv.__init__] from the configuration
    of the underlying layer. *)
Definition Conv_padding_amount (cv : Conv) : Z :=
  let m := (dilation_rate (Conv_conv cv) * (kernel_size (Conv_conv cv) - 1))%Z in
  if Conv_causal cv then m else (m / 2)%Z.

(** The invariant established by [Conv.__init__]; training changes the
    values of the weights only. *)
Definition Conv_wf (cv : Conv) : Prop :=
  Conv_padding cv = py_int (Conv_padding_amount cv).

(** The result of [forward] as the claims describe it: pad, convolve,
    and drop the last [P] steps exactly when the layer is causal and [P]
    is numerically nonzero. *)
Definition Conv_forward_spec (cv : Conv) (tensor : Tensor3D) : option Tensor3D :=
  let P := Conv_padding_amount cv in
  padded <- tf_pad_time P tensor ;;
  out <- Conv1D_call (Conv_conv cv) padded ;;
  Some (if Conv_causal cv && negb (P =? 0)%Z
        then slice_time_to (- P) out else out).

(** The invariant established by [ResBlock.__init__]: the two dilated
    convolutions share the block's causality, every other layer is 1x1,
    and the optional attributes are present as the flags say. *)
Definition is_1x1 (l : Conv1D) : Prop :=
  kernel_size l = 1%Z /\ dilation_rate l = 1%Z.

Definition opt_1x1 (a : option Conv1D) : Prop :=
  match a with
  | Some l => is_1x1 l
  | None => True
  end.

Record ResBlock_wf (rb : ResBlock) : Prop := {
  wf_filter : Conv_wf (RB_filter_conv rb);
  wf_gate : Conv_wf (RB_gate_conv rb);
  wf_filter_causal : Conv_causal (RB_filter_conv rb) = RB_causal rb;
  wf_gate_causal : Conv_causal (RB_gate_conv rb) = RB_causal rb;
  wf_res : is_1x1 (RB_res_conv rb);
  wf_skip_conv : opt_1x1 (RB_skip_conv rb);
  wf_filter_c : opt_1x1 (RB_filter_conv_c rb);
  wf_gate_c : opt_1x1 (RB_gate_conv_c rb);
  wf_skip_flag : RB_skip rb = is_not_None (RB_skip_conv rb);
  wf_cond_filter : RB_local_conditioning rb = is_not_None (RB_filter_conv_c rb);
  wf_cond_gate : RB_local_conditioning rb = is_not_None (RB_gate_conv_c rb)
}.

(** The invariant established by [WaveNet.__init__] for a given value of
    its argument [causal]. *)
Record WaveNet_wf (causal : bool) (net : WaveNet) : Prop := {
  wf_front : Conv_wf (WN_front_conv net);
  wf_front_causal : Conv_causal (WN_front_conv net) = causal;
  wf_blocks : Forall (fun rb => ResBlock_wf rb /\ RB_causal rb = causal)
                (WN_res_blocks net);
  wf_final : Conv_wf (WN_final_conv net);
  wf_final_causal : Conv_causal (WN_final_conv net) = causal;
  wf_final_1x1 : is_1x1 (Conv_conv (WN_final_conv net));
  wf_zero_1x1 : is_1x1 (Zero_conv (WN_final_zero_conv net))
}.

(** The configuration of a block as its layers record it. *)
Definition ResBlock_dilation (rb : ResBlock) : Z :=
  dilation_rate (Conv_conv (RB_filter_conv rb)).

Definition ResBlock_kernel_size (rb : ResBlock) : Z :=
  kernel_size (Conv_conv (RB_filter_conv rb)).

Definition ResBlock_out_channels (rb : ResBlock) : nat :=
  filters (RB_res_conv rb).

Definition ResBlock_skip_channels (rb : ResBlock) : option nat :=
  option_map filters (RB_skip_conv rb).

(** The entry of [x] that an expression broadcasting [x] reads at the
    position (i, j, k). *)
Definition bcast (x : Tensor3D) (i j k : nat) : F :=
  val x (bidx (batch x) i) (bidx (time x) j) (bidx (chan x) k).

(** A 1x1 convolution, entry by entry: at each batch and time index, the
    sum over the input channels of the products with the weights of the
    only tap, then the bias.  (The sum over the taps, which has this one
    term, starts from 0.) *)
Definition pointwise_at (l : Conv1D) (x : Tensor3D) (b t co : nat) : F :=
  fadd (fadd fzero
          (sum_upto (chan x) (fun ci =>
             fmul (val x b t ci) (kernel l 0 ci co))))
       (bias l co).

Definition pointwise_conv (l : Conv1D) (x : Tensor3D) : Tensor3D :=
  {| batch := batch x; time := time x; chan := filters l;
     val := pointwise_at l x |}.

(** The gated activation as the specification words it, entry by entry:
    [tanh(filter + filter_cond) * sigmoid(gate + gate_cond)], where
    [filter] and [gate] are the outputs of the two dilated convolutions of
    the stream and the conditioning terms, present exactly when
    conditioning is enabled, are 1x1 convolutions of [c]. *)
Definition gated_activation_spec (rb : ResBlock) (filter gate : Tensor3D)
    (c : option Tensor3D) : option (nat -> nat -> nat -> F) :=
  if RB_local_conditioning rb
  then
    lf <- RB_filter_conv_c rb ;;
    lg <- RB_gate_conv_c rb ;;
    cx <- c ;;
    Some (fun i j k =>
      fmul (ftanh (fadd (bcast filter i j k)
                        (bcast (pointwise_conv lf cx) i j k)))
           (fsigmoid (fadd (bcast gate i j k)
                           (bcast (pointwise_conv lg cx) i j k))))
  else
    Some (fun i j k =>
      fmul (ftanh (bcast filter i j k)) (fsigmoid (bcast gate i j k))).

(** The residual combination as the specification words it, entry by
    entry: [(s + res_conv(activated)) * sqrt(0.5)] with the 1x1 residual
    projection. *)
Definition residual_spec (rb : ResBlock) (s activated : Tensor3D)
    : nat -> nat -> nat -> F :=
  fun i j k =>
    fmul (fadd (bcast s i j k)
               (bcast (pointwise_conv (RB_res_conv rb) activated) i j k))
         (fsqrt fhalf).

(** The facts about zero that make a zero-initialised layer a zero map on
    the scalars that are [finite]: the product with 0 is 0 for these, and
    need not be for others (in floating point, [inf * 0] is NaN). *)
Record ZeroLaws (finite : F -> Prop) : Prop := {
  mul_zero_r : forall x, finite x -> fmul x fzero = fzero;
  add_zero_zero : fadd fzero fzero = fzero;
  zero_mul_three : fmul fzero fthree = fzero;
  exp_zero : fexp fzero = fone;
  zero_mul_one : fmul fzero fone = fzero
}.

(** A [Conv] whose padding restores the time-length of its input. *)
Definition Conv_keeps_time (cv : Conv) : Prop :=
  Conv_causal cv = true \/
  Z.even (dilation_rate (Conv_conv cv) * (kernel_size (Conv_conv cv) - 1)) = true.

(** The conditioning tensor, where the block uses one, has the batch size
    and the time-length of the stream. *)
Definition conditioning_aligned (rb : ResBlock) (s : Tensor3D)
    (c : option Tensor3D) : Prop :=
  RB_local_conditioning rb = true ->
  exists x, c = Some x /\ batch x = batch s /\ time x = time s.

(** ** Agreement of two tensors up to a time index *)

(** [x1] and [x2] have one shape and the same entries at all time indices
    [<= t]. *)
Definition agree_upto (t : nat) (x1 x2 : Tensor3D) : Prop :=
  batch x1 = batch x2 /\ time x1 = time x2 /\ chan x1 = chan x2 /\
  forall b t' c, b < batch x1 -> t' <= t -> t' < time x1 -> c < chan x1 ->
    val x1 b t' c = val x2 b t' c.

(** The same for an argument that may be [None]. *)
Definition agree_opt (t : nat) (c1 c2 : option Tensor3D) : Prop :=
  match c1, c2 with
  | Some x1, Some x2 => agree_upto t x1 x2
  | None, None => True
  | _, _ => False
  end.

(** The two tensors are equal: one shape, the same entries. *)
Definition tensor_eq (x1 x2 : Tensor3D) : Prop :=
  batch x1 = batch x2 /\ time x1 = time x2 /\ chan x1 = chan x2 /\
  forall b t c, b < batch x1 -> t < time x1 -> c < chan x1 ->
    val x1 b t c = val x2 b t c.

(** ** Further notions used by the additional properties *)

(** The centred dilated convolution: tap [k] reads the input
    [k * dilation - span / 2] steps away from [t], before or after it, and
    reads 0 outside the sequence. *)
Definition centered_conv_at (l : Conv1D) (x : Tensor3D) (b t co : nat) : F :=
  fadd (sum_upto (Z.to_nat (kernel_size l)) (fun k =>
          sum_upto (chan x) (fun ci =>
            let pos := t + k * Z.to_nat (dilation_rate l) in
            let half := conv_span l / 2 in
            fmul (if (pos <? half) || (half + time x <=? pos) then fzero
                  else val x b (pos - half) ci)
                 (kernel l k ci co))))
       (bias l co).

(** The textbook causal dilated convolution: tap [k] of a kernel with [K]
    taps reads the input [lag = (K - 1 - k) * dilation] steps in the past,
    and reads 0 before the start of the sequence. *)
Definition causal_conv_at (l : Conv1D) (x : Tensor3D) (b t co : nat) : F :=
  fadd (sum_upto (Z.to_nat (kernel_size l)) (fun k =>
          sum_upto (chan x) (fun ci =>
            let lag := (Z.to_nat (kernel_size l) - 1 - k)
                       * Z.to_nat (dilation_rate l) in
            fmul (if t <? lag then fzero else val x b (t - lag) ci)
                 (kernel l k ci co))))
       (bias l co).

(** The invariant established by [ZeroConv1d.__init__]: a 1x1 layer and a
    scale variable of shape [[1, 1, out_channel]]. *)
Definition ZeroConv1d_wf (z : ZeroConv1d) : Prop :=
  is_1x1 (Zero_conv z) /\
  shape (Zero_scale z) = (1, 1, filters (Zero_conv z)).

(** The conditioning tensor is present and has the batch size and the
    time-length of [x]. *)
Definition aligned_with (x : Tensor3D) (c : option Tensor3D) : Prop :=
  exists cx, c = Some cx /\ batch cx = batch x /\ time cx = time x.

(** [x1] and [x2] have one shape and the same entries at all time indices
    from [lo] to [hi]. *)
Definition agree_window (lo hi : nat) (x1 x2 : Tensor3D) : Prop :=
  batch x1 = batch x2 /\ time x1 = time x2 /\ chan x1 = chan x2 /\
  forall b t c, b < batch x1 -> lo <= t -> t <= hi -> t < time x1 ->
    c < chan x1 -> val x1 b t c = val x2 b t c.

(** The same for a value that may be [None]. *)
Definition agree_window_opt (lo hi : nat) (c1 c2 : option Tensor3D) : Prop :=
  match c1, c2 with
  | Some x1, Some x2 => agree_window lo hi x1 x2
  | None, None => True
  | _, _ => False
  end.

(** How far back in time a block and a stack look: the paddings of the
    dilated convolutions add up. *)
Definition ResBlock_reach (rb : ResBlock) : nat :=
  Nat.max (conv_span (Conv_conv (RB_filter_conv rb)))
          (conv_span (Conv_conv (RB_gate_conv rb))).

Definition WaveNet_reach (net : WaveNet) : nat :=
  conv_span (Conv_conv (WN_front_conv net))
  + list_sum (map ResBlock_reach (WN_res_blocks net))
  + conv_span (Conv_conv (WN_final_conv net)).

End Modules.

(** * Concrete inputs over the real numbers *)

(** A layer constructor that checks its arguments: the strictest choice for
    the parameter [layer_accepts]. *)
Definition strict_layers (kernel_size dilation_rate : Z) : bool :=
  ((1 <=? kernel_size) && (1 <=? dilation_rate))%Z.

(** Initial weights all equal to 1. *)
Definition ones : nat -> nat -> nat -> R := fun _ _ _ => 1%R.

(** Two sequences of length 3 with one channel that differ at the last
    time index only, and a conditioning tensor for them. *)
Definition demo_x : Tensor3D := of_lists [[[1%R]; [2%R]; [3%R]]].
Definition demo_x' : Tensor3D := of_lists [[[1%R]; [2%R]; [7%R]]].
Definition demo_c : option Tensor3D := Some (of_lists [[[1%R]; [1%R]; [1%R]]]).

(** A sequence of length 3 with two channels. *)
Definition demo_x2 : Tensor3D :=
  of_lists [[[1%R; 2%R]; [3%R; 4%R]; [5%R; 6%R]]].

(** The two instances of [Framework] used in the runs: a layer constructor
    that checks its arguments, and one that accepts everything. *)
#[export] Instance strict_framework : @Framework RScalar :=
  {| layer_accepts := strict_layers; he_uniform := ones |}.

Definition permissive_framework : @Framework RScalar :=
  {| layer_accepts := fun _ _ => true; he_uniform := ones |}.





(** * The training schedule ([train.py]) *)

(** The learning rate built by [get_optimizer], as a function of the value
    of [global_step]: three [tf.cond] in a row, each keeping the rate chosen
    so far below its threshold.  The literals are taken as exact rationals. *)
Definition get_optimizer_learning_rate (global_step : Z) : Q :=
  let learning_rate := (1 # 1000)%Q in
  let learning_rate :=
    if (global_step <? 200000)%Z then learning_rate
    else ((1 # 1000) / 2)%Q in
  let learning_rate :=
    if (global_step <? 400000)%Z then learning_rate
    else ((1 # 1000) / 4)%Q in
  let learning_rate :=
    if (global_step <? 600000)%Z then learning_rate
    else ((1 # 1000) / 6)%Q in
  learning_rate.

(** * Preprocessing ([preprocessing.py]) *)

(** Python's [a // b] on integers: floor division, an error for [b = 0]. *)
Definition py_floordiv (a b : Z) : option Z :=
  if (b =? 0)%Z then None else Some (a / b)%Z.

(** The amount [pad] computed by [_process_utterance] for a waveform of
    [n] samples, and its two halves [pad_l] and [pad_r]. *)
Definition utterance_pad (n hop_size : Z) : option Z :=
  q <- py_floordiv n hop_size ;;
  Some ((q + 1) * hop_size - n)%Z.

Definition utterance_pad_l (pad : Z) : Z := (pad / 2)%Z.

Definition utterance_pad_r (pad : Z) : Z := (pad / 2 + pad mod 2)%Z.

(** [np.pad(out, (pad_l, pad_r), mode="constant", constant_values=v)] on a
    one-dimensional array; a negative width is rejected. *)
Definition np_pad_constant {A : Type} (out : list A) (pad_l pad_r : Z) (v : A)
    : option (list A) :=
  if ((pad_l <? 0) || (pad_r <? 0))%Z then None
  else Some (repeat v (Z.to_nat pad_l) ++ out ++ repeat v (Z.to_nat pad_r)).

(** The zero padding step of [_process_utterance] (the lines from
    [pad = ...] to [out = np.pad(...)]). *)
Definition pad_utterance {A : Type} (zero : A) (out : list A) (hop_size : Z)
    : option (list A) :=
  pad <- utterance_pad (Z.of_nat (length out)) hop_size ;;
  np_pad_constant out (utterance_pad_l pad) (utterance_pad_r pad) zero.

(** The loops of [build_from_path] that turn the lines of the metadata
    files into the calls of [_process_utterance] it submits.  What the
    file system and the string library provide is a parameter: the books
    with the lines of their metadata file, the result [fields] of
    [line.strip().split('|')], and the path [wav_path] built from a book and
    the first field. *)
Section BuildFromPath.

Variables Book Line Path : Type.
Variable fields : Line -> list String.string.
Variable wav_path : Book -> String.string -> Path.

(** The arguments of one submitted call (without [out_dir]). *)
Record Utterance : Type := mkUtterance {
  utt_index : Z;
  utt_wav_path : Path;
  utt_text : String.string
}.

(** The local variables of the function: [index], [text] (unbound until
    its first assignment) and [futures]. *)
Record BuildState : Type := mkBuildState {
  bs_index : Z;
  bs_text : option String.string;
  bs_futures : list Utterance
}.

(** The body of the inner loop.  The bare [except] swallows the failure of
    [parts[2]] and leaves [text] as it was; reading an unbound [text]
    raises.  [str.split] with a separator returns at least one field, so
    [parts[0]] is always there in the code; [fields] being any function
    here, a line without fields is an error. *)
Definition build_line (book : Book) (st : BuildState) (line : Line)
    : option BuildState :=
  let parts := fields line in
  p0 <- nth_error parts 0 ;;
  let path := wav_path book p0 in
  let text := match nth_error parts 2 with
              | Some t => Some t
              | None => bs_text st
              end in
  t <- text ;;
  Some {| bs_index := bs_index st + 1;
          bs_text := text;
          bs_futures := bs_futures st
                        ++ [{| utt_index := bs_index st; utt_wav_path := path;
                               utt_text := t |}] |}.

Definition build_book (st : BuildState) (b : Book * list Line)
    : option BuildState :=
  for_each (build_line (fst b)) (snd b) st.

Definition build_from_path_calls (books : list (Book * list Line))
    : option (list Utterance) :=
  st <- for_each build_book books
          {| bs_index := 1; bs_text := None; bs_futures := [] |} ;;
  Some (bs_futures st).

(** All lines of all books, in the order the loops visit them. *)
Definition all_lines (books : list (Book * list Line)) : list (Book * Line) :=
  flat_map (fun b => map (fun l => (fst b, l)) (snd b)) books.

(** One iteration on a line of [all_lines]. *)
Definition build_step (st : BuildState) (bl : Book * Line) : option BuildState :=
  build_line (fst bl) st (snd bl).

End BuildFromPath.

Arguments mkUtterance {Path}.
Arguments utt_index {Path}.
Arguments utt_wav_path {Path}.
Arguments utt_text {Path}.
Arguments mkBuildState {Path}.
Arguments bs_index {Path}.
Arguments bs_text {Path}.
Arguments bs_futures {Path}.
Arguments build_line {Book Line Path}.
Arguments build_step {Book Line Path}.
Arguments build_book {Book Line Path}.
Arguments build_from_path_calls {Book Line Path}.
Arguments all_lines {Book Line}.

(** * Properties *)

(** ** The error monad *)

Lemma bind_Some {A B : Type} (m : option A) (k : A -> option B) (b : B) :
  bind m k = Some b -> exists a, m = Some a /\ k a = Some b.
Proof. destruct m as [a|]; simpl; [eauto | discriminate]. Qed.

(** Inversion of a successful [bind] in a hypothesis. *)
Ltac inv_bind H :=
  let a := fresh "a" in
  let Ha := fresh "Ha" in
  apply bind_Some in H; destruct H as (a & Ha & H); cbv beta in H.

Section Properties.

Context {S : Scalar} {Fw : Framework}.

(** ** Python integers *)

Lemma py_value_int (v : Z) : py_value (py_int v) = v.
Proof. unfold py_int. destruct (is_small_int v); reflexivity. Qed.

Lemma py_is_not_zero_int (v : Z) :
  py_is_not_zero (py_int v) = negb (v =? 0)%Z.
Proof.
  unfold py_int. destruct (is_small_int v) eqn:Hs; simpl; [reflexivity|].
  destruct (Z.eqb_spec v 0) as [->|_]; [discriminate Hs | reflexivity].
Qed.

Lemma py_slice_stop_neg (p : Z) (len : nat) :
  (0 < p)%Z -> py_slice_stop (- p) len = len - Z.to_nat p.
Proof.
  intros Hp. unfold py_slice_stop.
  destruct (Z.ltb_spec (- p) 0); lia.
Qed.

Lemma py_slice_stop_zero (len : nat) : py_slice_stop (- 0) len = 0.
Proof. unfold py_slice_stop. simpl. lia. Qed.

(** ** [Conv] *)

Lemma Conv1D_init_Some (f : nat) (k d : Z)
    (ki : nat -> nat -> nat -> F) (bi : nat -> F) (l : Conv1D) :
  Conv1D_init f k d ki bi = Some l ->
  layer_accepts k d = true /\
  l = {| filters := f; kernel_size := k; dilation_rate := d;
         input_channels := None; kernel := ki; bias := bi |}.
Proof.
  unfold Conv1D_init. destruct (layer_accepts k d); [|discriminate].
  intros [= <-]. split; reflexivity.
Qed.

Lemma Conv_init_Some (i o : nat) (k d : Z) (causal : bool) (cv : Conv) :
  Conv_init i o k d causal = Some cv ->
  layer_accepts k d = true /\
  Conv_wf cv /\ Conv_causal cv = causal /\
  kernel_size (Conv_conv cv) = k /\ dilation_rate (Conv_conv cv) = d /\
  filters (Conv_conv cv) = o /\ input_channels (Conv_conv cv) = None.
Proof.
  unfold Conv_init. intros H. inv_bind H.
  apply Conv1D_init_Some in Ha. destruct Ha as [Hacc ->].
  injection H as <-. unfold Conv_wf, Conv_padding_amount. simpl.
  destruct causal; auto 10.
Qed.

Lemma Conv_forward_is_spec (cv : Conv) (x : Tensor3D) :
  Conv_wf cv -> Conv_forward cv x = Conv_forward_spec cv x.
Proof.
  intros Hwf. unfold Conv_forward, Conv_forward_spec.
  unfold Conv_wf in Hwf. rewrite Hwf, py_value_int, py_is_not_zero_int.
  destruct (tf_pad_time (Conv_padding_amount cv) x) as [p|]; simpl; [|reflexivity].
  destruct (Conv1D_call (Conv_conv cv) p) as [out|]; simpl; [|reflexivity].
  destruct (Conv_causal cv && negb (Conv_padding_amount cv =? 0)%Z); reflexivity.
Qed.

Lemma tf_pad_time_Some (p : Z) (x y : Tensor3D) :
  tf_pad_time p x = Some y ->
  (0 <= p)%Z /\ batch y = batch x /\ chan y = chan x /\
  time y = Z.to_nat p + time x + Z.to_nat p /\
  forall b t c, val y b t c =
    if (t <? Z.to_nat p) || (Z.to_nat p + time x <=? t) then fzero
    else val x b (t - Z.to_nat p) c.
Proof.
  unfold tf_pad_time. destruct (Z.ltb_spec p 0); [discriminate|].
  intros [= <-]. simpl. auto.
Qed.

Lemma Conv1D_call_Some (l : Conv1D) (x y : Tensor3D) :
  Conv1D_call l x = Some y ->
  (1 <= kernel_size l)%Z /\ (1 <= dilation_rate l)%Z /\
  accepts_width l (chan x) = true /\ conv_span l < time x /\
  y = {| batch := batch x; time := time x - conv_span l;
         chan := filters l; val := conv_at l x |}.
Proof.
  unfold Conv1D_call.
  destruct (Z.ltb_spec (kernel_size l) 1); simpl; [discriminate|].
  destruct (Z.ltb_spec (dilation_rate l) 1); simpl; [discriminate|].
  destruct (accepts_width l (chan x)); simpl; [|discriminate].
  destruct (Nat.leb_spec (time x) (conv_span l)); [discriminate|].
  intros [= <-]. auto.
Qed.

Lemma Conv1D_call_ok (l : Conv1D) (x : Tensor3D) :
  (1 <= kernel_size l)%Z -> (1 <= dilation_rate l)%Z ->
  accepts_width l (chan x) = true -> conv_span l < time x ->
  Conv1D_call l x =
    Some {| batch := batch x; time := time x - conv_span l;
            chan := filters l; val := conv_at l x |}.
Proof.
  intros Hk Hd Hw Ht. unfold Conv1D_call.
  destruct (Z.ltb_spec (kernel_size l) 1); [lia|].
  destruct (Z.ltb_spec (dilation_rate l) 1); [lia|]. simpl.
  rewrite Hw. simpl.
  destruct (Nat.leb_spec (time x) (conv_span l)); [lia|]. reflexivity.
Qed.

(** What a successful [forward] of a causal [Conv] went through. *)
Lemma Conv_forward_causal_inv (cv : Conv) (x y : Tensor3D) :
  Conv_wf cv -> Conv_causal cv = true -> Conv_forward cv x = Some y ->
  let P := (dilation_rate (Conv_conv cv) * (kernel_size (Conv_conv cv) - 1))%Z in
  exists padded out,
    tf_pad_time P x = Some padded /\
    Conv1D_call (Conv_conv cv) padded = Some out /\
    (0 <= P)%Z /\ conv_span (Conv_conv cv) = Z.to_nat P /\
    time padded = Z.to_nat P + time x + Z.to_nat P /\
    time out = time x + Z.to_nat P /\
    y = (if (P =? 0)%Z then out else slice_time_to (- P) out) /\
    time y = time x /\ batch y = batch x /\
    chan y = filters (Conv_conv cv).
Proof.
  intros Hwf Hc H P. rewrite (Conv_forward_is_spec cv x Hwf) in H.
  unfold Conv_forward_spec, Conv_padding_amount in H. rewrite Hc in H.
  fold P in H. simpl in H.
  inv_bind H. rename a into padded. inv_bind H. rename a into out.
  injection H as <-.
  exists padded, out.
  destruct (tf_pad_time_Some _ _ _ Ha) as (HP & Hb & Hch & Ht & _).
  destruct (Conv1D_call_Some _ _ _ Ha0) as (Hk & Hd & _ & Hsp & ->).
  assert (Hspan : conv_span (Conv_conv cv) = Z.to_nat P) by reflexivity.
  simpl. repeat split; auto; try lia.
  - destruct (Z.eqb_spec P 0); reflexivity.
  - destruct (Z.eqb_spec P 0) as [E|E]; simpl.
    + rewrite E in *. simpl in *. lia.
    + rewrite py_slice_stop_neg by lia. lia.
  - destruct (Z.eqb_spec P 0); simpl; auto.
  - destruct (Z.eqb_spec P 0); reflexivity.
Qed.

Lemma Conv_forward_total (cv : Conv) (x : Tensor3D) :
  Conv_wf cv ->
  (1 <= kernel_size (Conv_conv cv))%Z -> (1 <= dilation_rate (Conv_conv cv))%Z ->
  accepts_width (Conv_conv cv) (chan x) = true ->
  1 <= time x ->
  (Conv_causal cv = true \/
   Z.even (dilation_rate (Conv_conv cv) * (kernel_size (Conv_conv cv) - 1)) = true \/
   2 <= time x) ->
  exists y, Conv_forward cv x = Some y.
Proof.
  intros Hwf Hk Hd Hw Hne Hc. rewrite (Conv_forward_is_spec cv x Hwf).
  unfold Conv_forward_spec.
  set (m := (dilation_rate (Conv_conv cv) * (kernel_size (Conv_conv cv) - 1))%Z) in *.
  assert (Hm : (0 <= m)%Z) by (unfold m; nia).
  assert (HP : (0 <= Conv_padding_amount cv)%Z).
  { unfold Conv_padding_amount. fold m.
    destruct (Conv_causal cv); [lia | apply Z.div_pos; lia]. }
  unfold tf_pad_time. destruct (Z.ltb_spec (Conv_padding_amount cv) 0); [lia|].
  simpl. rewrite Conv1D_call_ok; simpl; eauto.
  unfold conv_span. fold m.
  unfold Conv_padding_amount. fold m.
  destruct (Conv_causal cv) eqn:E; [lia|].
  destruct Hc as [Hc|[Hc|Hc]]; [discriminate| |].
  - rewrite Z.even_spec in Hc. destruct Hc as [q ->].
    rewrite (Z.mul_comm 2 q), Z.div_mul by lia. lia.
  - pose proof (Z.div_mod m 2 ltac:(lia)).
    pose proof (Z.mod_pos_bound m 2 ltac:(lia)).
    assert (0 <= m / 2)%Z by (apply Z.div_pos; lia). lia.
Qed.


Lemma Conv_forward_noncausal_inv (cv : Conv) (x y : Tensor3D) :
  Conv_wf cv -> Conv_causal cv = false -> Conv_forward cv x = Some y ->
  let m := (dilation_rate (Conv_conv cv) * (kernel_size (Conv_conv cv) - 1))%Z in
  batch y = batch x /\ chan y = filters (Conv_conv cv) /\
  (Z.even m = true -> time y = time x) /\
  (Z.odd m = true -> time y + 1 = time x).
Proof.
  intros Hwf Hc Hy m. rewrite (Conv_forward_is_spec cv x Hwf) in Hy.
  unfold Conv_forward_spec, Conv_padding_amount in Hy. rewrite Hc in Hy.
  fold m in Hy. simpl in Hy.
  inv_bind Hy. rename a into padded. inv_bind Hy. rename a into out.
  injection Hy as <-.
  destruct (tf_pad_time_Some _ _ _ Ha) as (HP & Hb & _ & Ht & _).
  destruct (Conv1D_call_Some _ _ _ Ha0) as (Hk & Hd & _ & Hsp & ->).
  simpl. unfold conv_span in *. fold m in Hsp |- *.
  assert (Hm : (0 <= m)%Z) by (unfold m; nia).
  pose proof (Z.div_mod m 2 ltac:(lia)) as Hdm.
  split; [exact Hb|]. split; [reflexivity|].
  split; intros Hpar.
  + rewrite Zdiv.Zeven_mod in Hpar. apply Z.eqb_eq in Hpar. lia.
  + rewrite Zdiv.Zodd_mod in Hpar. apply Z.eqb_eq in Hpar. lia.
Qed.

Lemma Conv_forward_shape (cv : Conv) (x y : Tensor3D) :
  Conv_wf cv -> Conv_keeps_time cv -> Conv_forward cv x = Some y ->
  batch y = batch x /\ time y = time x /\ chan y = filters (Conv_conv cv).
Proof.
  intros Hwf Hk Hy. destruct (Conv_causal cv) eqn:Hc.
  - destruct (Conv_forward_causal_inv _ _ _ Hwf Hc Hy)
      as (_ & _ & _ & _ & _ & _ & _ & _ & _ & Ht & Hb & Hch). auto.
  - destruct Hk as [Hk|Hk]; [congruence|].
    destruct (Conv_forward_noncausal_inv _ _ _ Hwf Hc Hy) as (Hb & Hch & He & _).
    auto.
Qed.

(** C4 (amended).  A non-causal [Conv] pads by
    [dilation * (kernel_size - 1) // 2]: its output has the time-length of
    the input when [dilation * (kernel_size - 1)] is even and is one step
    shorter when it is odd. *)
Theorem Conv_noncausal_forward_length (cv : Conv) (x : Tensor3D) :
  Conv_wf cv -> Conv_causal cv = false ->
  let m := (dilation_rate (Conv_conv cv) * (kernel_size (Conv_conv cv) - 1))%Z in
  (forall y, Conv_forward cv x = Some y ->
     (Z.even m = true -> time y = time x) /\
     (Z.odd m = true -> time y + 1 = time x)) /\
  ((1 <= kernel_size (Conv_conv cv))%Z -> (1 <= dilation_rate (Conv_conv cv))%Z ->
   accepts_width (Conv_conv cv) (chan x) = true -> 1 <= time x ->
   Z.even m = true \/ 2 <= time x ->
   exists y, Conv_forward cv x = Some y).
Proof.
  intros Hwf Hc m. split.
  - intros y Hy.
    destruct (Conv_forward_noncausal_inv _ _ _ Hwf Hc Hy) as (_ & _ & He & Ho).
    split; assumption.
  - intros Hk Hd Hw Hne Hpar.
    apply Conv_forward_total; auto; destruct Hpar; auto.
Qed.

(** C9.  In a causal [Conv] the test [self._padding is not 0] holds exactly
    when the padding amount is numerically nonzero, so the truncation is
    executed if and only if [P <> 0]; with [kernel_size = 1] the output of
    the convolution is returned as it is, with the time-length of the
    input, although the slice [out[:, :-0]] would have been empty. *)
Theorem Conv_truncation_iff_nonzero (cv : Conv) (x : Tensor3D) :
  Conv_wf cv -> Conv_causal cv = true ->
  let P := (dilation_rate (Conv_conv cv) * (kernel_size (Conv_conv cv) - 1))%Z in
  py_value (Conv_padding cv) = P /\
  (py_is_not_zero (Conv_padding cv) = true <-> P <> 0%Z) /\
  Conv_forward cv x =
    (padded <- tf_pad_time P x ;;
     out <- Conv1D_call (Conv_conv cv) padded ;;
     Some (if (P =? 0)%Z then out else slice_time_to (- P) out)) /\
  (kernel_size (Conv_conv cv) = 1%Z ->
   forall y, Conv_forward cv x = Some y ->
     (exists padded, tf_pad_time 0 x = Some padded /\
                     Conv1D_call (Conv_conv cv) padded = Some y) /\
     time y = time x /\
     time (slice_time_to (- 0) y) = 0).
Proof.
  intros Hwf Hc P.
  assert (HP : Conv_padding_amount cv = P).
  { unfold Conv_padding_amount. rewrite Hc. reflexivity. }
  split; [| split; [| split]].
  - rewrite Hwf, py_value_int. exact HP.
  - rewrite Hwf, py_is_not_zero_int, HP.
    destruct (Z.eqb_spec P 0); simpl; split; congruence.
  - rewrite (Conv_forward_is_spec cv x Hwf). unfold Conv_forward_spec.
    rewrite HP, Hc. simpl.
    destruct (tf_pad_time P x) as [p|]; simpl; [|reflexivity].
    destruct (Conv1D_call (Conv_conv cv) p); simpl; [|reflexivity].
    destruct (P =? 0)%Z; reflexivity.
  - intros HK y Hy.
    destruct (Conv_forward_causal_inv _ _ _ Hwf Hc Hy)
      as (padded & out & Hp & Hcall & _ & _ & _ & _ & Hout & Ht & _).
    assert (E : P = 0%Z) by (unfold P; rewrite HK; lia).
    fold P in Hp, Hout. rewrite E in Hp, Hout. simpl in Hout. subst out.
    split; [eauto | split; [exact Ht | apply py_slice_stop_zero]].
Qed.

(** ** Causality *)

Lemma agree_upto_refl (t : nat) (x : Tensor3D) : agree_upto t x x.
Proof. unfold agree_upto. auto. Qed.

Lemma agree_opt_refl (t : nat) (c : option Tensor3D) : agree_opt t c c.
Proof. destruct c; simpl; [apply agree_upto_refl | exact I]. Qed.

Lemma agree_tmap (f : F -> F) (t : nat) (x1 x2 : Tensor3D) :
  agree_upto t x1 x2 -> agree_upto t (tmap f x1) (tmap f x2).
Proof.
  intros (Hb & Ht & Hc & Hv). unfold agree_upto. simpl.
  repeat split; auto. intros. f_equal. auto.
Qed.

Lemma bdim_Some (m n r : nat) :
  bdim m n = Some r ->
  (m = n /\ r = m) \/ (m = 1 /\ r = n) \/ (n = 1 /\ r = m).
Proof.
  unfold bdim.
  destruct (Nat.eqb_spec m n); [intros [= <-]; auto|].
  destruct (Nat.eqb_spec m 1); [intros [= <-]; auto|].
  destruct (Nat.eqb_spec n 1); [intros [= <-]; auto | discriminate].
Qed.

Lemma bidx_l (m n r i : nat) :
  bdim m n = Some r -> i < r -> bidx m i < m /\ bidx m i <= i.
Proof.
  intros H Hi. apply bdim_Some in H. unfold bidx.
  destruct (Nat.eqb_spec m 1); lia.
Qed.

Lemma bidx_r (m n r i : nat) :
  bdim m n = Some r -> i < r -> bidx n i < n /\ bidx n i <= i.
Proof.
  intros H Hi. apply bdim_Some in H. unfold bidx.
  destruct (Nat.eqb_spec n 1); lia.
Qed.

Lemma tbinop_Some (f : F -> F -> F) (x y z : Tensor3D) :
  tbinop f x y = Some z ->
  bdim (batch x) (batch y) = Some (batch z) /\
  bdim (time x) (time y) = Some (time z) /\
  bdim (chan x) (chan y) = Some (chan z) /\
  forall i j k, val z i j k =
    f (val x (bidx (batch x) i) (bidx (time x) j) (bidx (chan x) k))
      (val y (bidx (batch y) i) (bidx (time y) j) (bidx (chan y) k)).
Proof.
  unfold tbinop. intros H.
  inv_bind H. inv_bind H. inv_bind H. injection H as <-. simpl. auto.
Qed.

Lemma agree_tbinop (f : F -> F -> F) (t : nat) (x1 x2 y1 y2 z1 : Tensor3D) :
  agree_upto t x1 x2 -> agree_upto t y1 y2 ->
  tbinop f x1 y1 = Some z1 ->
  exists z2, tbinop f x2 y2 = Some z2 /\ agree_upto t z1 z2.
Proof.
  intros (Hxb & Hxt & Hxc & Hxv) (Hyb & Hyt & Hyc & Hyv) H.
  destruct (tbinop_Some _ _ _ _ H) as (Eb & Et & Ec & Ev).
  unfold tbinop. rewrite <- Hxb, <- Hyb, <- Hxt, <- Hyt, <- Hxc, <- Hyc.
  rewrite Eb, Et, Ec. simpl. eexists. split; [reflexivity|].
  unfold agree_upto. simpl. repeat split; auto.
  intros b t' c Hb Ht' Ht'' Hc. rewrite Ev.
  destruct (bidx_l _ _ _ _ Eb Hb), (bidx_r _ _ _ _ Eb Hb).
  destruct (bidx_l _ _ _ _ Et Ht''), (bidx_r _ _ _ _ Et Ht'').
  destruct (bidx_l _ _ _ _ Ec Hc), (bidx_r _ _ _ _ Ec Hc).
  f_equal; [apply Hxv | apply Hyv]; lia.
Qed.

Lemma agree_pad (p : Z) (t : nat) (x1 x2 y1 : Tensor3D) :
  agree_upto t x1 x2 -> tf_pad_time p x1 = Some y1 ->
  exists y2, tf_pad_time p x2 = Some y2 /\ agree_upto (t + Z.to_nat p) y1 y2.
Proof.
  intros (Hb & Ht & Hc & Hv) H.
  unfold tf_pad_time in *. destruct (p <? 0)%Z; [discriminate|].
  injection H as <-. eexists. split; [reflexivity|].
  unfold agree_upto. simpl. rewrite <- Ht. repeat split; auto.
  intros b t' c Hb' Ht1 Ht2 Hc'.
  destruct (Nat.ltb_spec t' (Z.to_nat p)); simpl; [reflexivity|].
  destruct (Nat.leb_spec (Z.to_nat p + time x1) t'); [reflexivity|].
  apply Hv; lia.
Qed.

Lemma agree_slice (s : Z) (t : nat) (x1 x2 : Tensor3D) :
  agree_upto t x1 x2 -> agree_upto t (slice_time_to s x1) (slice_time_to s x2).
Proof.
  intros (Hb & Ht & Hc & Hv). unfold agree_upto. simpl. rewrite <- Ht.
  repeat split; auto. intros b t' c Hb' Ht1 Ht2 Hc'. apply Hv; auto.
  unfold py_slice_stop in Ht2. destruct (Z.ltb_spec s 0); lia.
Qed.

Lemma fold_left_fadd_ext (f g : nat -> F) (l : list nat) (a : F) :
  (forall i, In i l -> f i = g i) ->
  fold_left (fun acc i => fadd acc (f i)) l a =
  fold_left (fun acc i => fadd acc (g i)) l a.
Proof.
  revert a. induction l as [|i l IH]; intros a H; simpl; [reflexivity|].
  rewrite (H i) by (left; reflexivity). apply IH.
  intros j Hj. apply H. right. exact Hj.
Qed.

Lemma sum_upto_ext (n : nat) (f g : nat -> F) :
  (forall i, i < n -> f i = g i) -> sum_upto n f = sum_upto n g.
Proof.
  intros H. unfold sum_upto. apply fold_left_fadd_ext.
  intros i Hi. apply in_seq in Hi. apply H. lia.
Qed.

(** The entry of a convolution at time [t'] reads the input at times
    [t' .. t' + span] only. *)
Lemma agree_Conv1D (l : Conv1D) (t : nat) (x1 x2 y1 : Tensor3D) :
  agree_upto (t + conv_span l) x1 x2 -> Conv1D_call l x1 = Some y1 ->
  exists y2, Conv1D_call l x2 = Some y2 /\ agree_upto t y1 y2.
Proof.
  intros (Hb & Ht & Hc & Hv) H.
  destruct (Conv1D_call_Some _ _ _ H) as (Hk & Hd & Hw & Hsp & ->).
  rewrite Conv1D_call_ok by (try rewrite <- Hc; try rewrite <- Ht; auto).
  eexists. split; [reflexivity|].
  unfold agree_upto. simpl. rewrite <- Hb, <- Ht. repeat split; auto.
  intros b t' co Hb' Ht1 Ht2 Hco. unfold conv_at. rewrite <- Hc. f_equal.
  apply sum_upto_ext. intros k Hkk. apply sum_upto_ext. intros ci Hci.
  f_equal.
  assert (k * Z.to_nat (dilation_rate l) <= conv_span l).
  { unfold conv_span. rewrite Z2Nat.inj_mul, Z2Nat.inj_sub by lia.
    rewrite Nat.mul_comm. apply Nat.mul_le_mono_l.
    change (Z.to_nat 1) with 1. lia. }
  apply Hv; lia.
Qed.

Lemma conv_span_1x1 (l : Conv1D) : is_1x1 l -> conv_span l = 0.
Proof. intros [Hk Hd]. unfold conv_span. rewrite Hk, Hd. reflexivity. Qed.

Lemma agree_Conv1D_1x1 (l : Conv1D) (t : nat) (x1 x2 y1 : Tensor3D) :
  is_1x1 l -> agree_upto t x1 x2 -> Conv1D_call l x1 = Some y1 ->
  exists y2, Conv1D_call l x2 = Some y2 /\ agree_upto t y1 y2.
Proof.
  intros H1 Ha. apply agree_Conv1D. rewrite (conv_span_1x1 l H1), Nat.add_0_r.
  exact Ha.
Qed.

Lemma agree_Conv_causal (cv : Conv) (t : nat) (x1 x2 y1 : Tensor3D) :
  Conv_wf cv -> Conv_causal cv = true ->
  agree_upto t x1 x2 -> Conv_forward cv x1 = Some y1 ->
  exists y2, Conv_forward cv x2 = Some y2 /\ agree_upto t y1 y2.
Proof.
  intros Hwf Hc Ha H.
  rewrite (Conv_forward_is_spec cv x1 Hwf) in H.
  rewrite (Conv_forward_is_spec cv x2 Hwf).
  unfold Conv_forward_spec in *.
  assert (HP : Conv_padding_amount cv =
               (dilation_rate (Conv_conv cv) * (kernel_size (Conv_conv cv) - 1))%Z).
  { unfold Conv_padding_amount. rewrite Hc. reflexivity. }
  inv_bind H. rename a into p1. inv_bind H. rename a into o1.
  injection H as <-.
  destruct (agree_pad _ _ _ _ _ Ha Ha0) as (p2 & -> & Hp). simpl.
  assert (Hsp : Z.to_nat (Conv_padding_amount cv) = conv_span (Conv_conv cv)).
  { rewrite HP. reflexivity. }
  rewrite Hsp in Hp.
  destruct (agree_Conv1D (Conv_conv cv) t _ _ _ Hp Ha1) as (o2 & -> & Ho). simpl.
  eexists. split; [reflexivity|].
  destruct (Conv_causal cv && negb (Conv_padding_amount cv =? 0)%Z); auto.
  apply agree_slice. exact Ho.
Qed.

Lemma agree_call_attr (a : option Conv1D) (t : nat) (c1 c2 : option Tensor3D)
    (y1 : Tensor3D) :
  opt_1x1 a -> agree_opt t c1 c2 -> call_attr a c1 = Some y1 ->
  exists y2, call_attr a c2 = Some y2 /\ agree_upto t y1 y2.
Proof.
  intros H1 Hc H. unfold call_attr, Conv1D_call_opt in *.
  destruct a as [l|]; simpl in *; [|discriminate].
  destruct c1 as [x1|]; simpl in *; [|discriminate].
  destruct c2 as [x2|]; simpl in *; [|contradiction].
  eapply agree_Conv1D_1x1; eauto.
Qed.

Lemma agree_condition (rb : ResBlock) (t : nat) (f1 f2 g1 g2 : Tensor3D)
    (c1 c2 : option Tensor3D) (f1' g1' : Tensor3D) :
  ResBlock_wf rb ->
  agree_upto t f1 f2 -> agree_upto t g1 g2 -> agree_opt t c1 c2 ->
  ResBlock_condition rb f1 g1 c1 = Some (f1', g1') ->
  exists f2' g2', ResBlock_condition rb f2 g2 c2 = Some (f2', g2') /\
                  agree_upto t f1' f2' /\ agree_upto t g1' g2'.
Proof.
  intros Hwf Hf Hg Hc H. unfold ResBlock_condition in *.
  destruct (RB_local_conditioning rb).
  - inv_bind H. rename a into fc1. inv_bind H. rename a into hf1.
    inv_bind H. rename a into gc1. inv_bind H. rename a into hg1.
    injection H as <- <-.
    destruct (agree_call_attr _ _ _ _ _ (wf_filter_c _ Hwf) Hc Ha) as (fc2 & -> & Hfc).
    simpl.
    destruct (agree_tbinop _ _ _ _ _ _ _ Hf Hfc Ha0) as (hf2 & E & Hhf).
    unfold tadd. rewrite E. simpl.
    destruct (agree_call_attr _ _ _ _ _ (wf_gate_c _ Hwf) Hc Ha1) as (gc2 & -> & Hgc).
    simpl.
    destruct (agree_tbinop _ _ _ _ _ _ _ Hg Hgc Ha2) as (hg2 & E' & Hhg).
    rewrite E'. simpl. eauto.
  - injection H as <- <-. eauto.
Qed.

Lemma agree_activated (rb : ResBlock) (t : nat) (x1 x2 : Tensor3D)
    (c1 c2 : option Tensor3D) (o1 : Tensor3D) :
  ResBlock_wf rb -> RB_causal rb = true ->
  agree_upto t x1 x2 -> agree_opt t c1 c2 ->
  ResBlock_activated rb x1 c1 = Some o1 ->
  exists o2, ResBlock_activated rb x2 c2 = Some o2 /\ agree_upto t o1 o2.
Proof.
  intros Hwf Hcs Hx Hc H. unfold ResBlock_activated in *.
  inv_bind H. rename a into f1. inv_bind H. rename a into g1.
  inv_bind H. destruct a as [f1' g1'].
  assert (Hfc : Conv_causal (RB_filter_conv rb) = true)
    by (rewrite (wf_filter_causal _ Hwf); exact Hcs).
  assert (Hgc : Conv_causal (RB_gate_conv rb) = true)
    by (rewrite (wf_gate_causal _ Hwf); exact Hcs).
  destruct (agree_Conv_causal _ _ _ _ _ (wf_filter _ Hwf) Hfc Hx Ha) as (f2 & -> & Hf).
  destruct (agree_Conv_causal _ _ _ _ _ (wf_gate _ Hwf) Hgc Hx Ha0) as (g2 & -> & Hg).
  simpl.
  destruct (agree_condition _ _ _ _ _ _ _ _ _ _ Hwf Hf Hg Hc Ha1) as (f2' & g2' & -> & Hf' & Hg').
  simpl. eapply agree_tbinop; [| |exact H]; apply agree_tmap; assumption.
Qed.

Lemma agree_skip_of (rb : ResBlock) (t : nat) (o1 o2 : Tensor3D)
    (s1 : option Tensor3D) :
  ResBlock_wf rb -> agree_upto t o1 o2 ->
  ResBlock_skip_of rb o1 = Some s1 ->
  exists s2, ResBlock_skip_of rb o2 = Some s2 /\ agree_opt t s1 s2.
Proof.
  intros Hwf Ho H. unfold ResBlock_skip_of in *.
  destruct (RB_skip rb).
  - pose proof (wf_skip_conv _ Hwf) as H1.
    destruct (RB_skip_conv rb) as [l|]; simpl in *; [|discriminate].
    inv_bind H. injection H as <-.
    destruct (agree_Conv1D_1x1 _ _ _ _ _ H1 Ho Ha) as (s2 & -> & Hs). simpl.
    eexists. split; [reflexivity | exact Hs].
  - injection H as <-. exists None. split; [reflexivity | exact I].
Qed.

Lemma agree_ResBlock (rb : ResBlock) (t : nat) (x1 x2 : Tensor3D)
    (c1 c2 : option Tensor3D) (h1 : Tensor3D) (s1 : option Tensor3D) :
  ResBlock_wf rb -> RB_causal rb = true ->
  agree_upto t x1 x2 -> agree_opt t c1 c2 ->
  ResBlock_forward rb x1 c1 = Some (h1, s1) ->
  exists h2 s2, ResBlock_forward rb x2 c2 = Some (h2, s2) /\
                agree_upto t h1 h2 /\ agree_opt t s1 s2.
Proof.
  intros Hwf Hcs Hx Hc H. unfold ResBlock_forward in *.
  inv_bind H. rename a into o1. inv_bind H. rename a into r1.
  inv_bind H. rename a into sk1. inv_bind H. rename a into sum1.
  injection H as <- <-.
  destruct (agree_activated _ _ _ _ _ _ _ Hwf Hcs Hx Hc Ha) as (o2 & -> & Ho). simpl.
  destruct (agree_Conv1D_1x1 _ _ _ _ _ (wf_res _ Hwf) Ho Ha0) as (r2 & -> & Hr). simpl.
  destruct (agree_skip_of _ _ _ _ _ Hwf Ho Ha1) as (s2 & -> & Hs). simpl.
  destruct (agree_tbinop _ _ _ _ _ _ _ Hx Hr Ha2) as (sum2 & E & Hsum).
  unfold tadd. rewrite E. simpl.
  eexists _, _. split; [reflexivity|]. split; [|exact Hs].
  apply agree_tmap. exact Hsum.
Qed.

(** The loop over the blocks. *)
Lemma agree_blocks (use_skip : bool) (t : nat) (c1 c2 : option Tensor3D)
    (blocks : list ResBlock) :
  Forall (fun rb => ResBlock_wf rb /\ RB_causal rb = true) blocks ->
  agree_opt t c1 c2 ->
  forall h1 h2 sk1 sk2 h1' sk1',
    agree_upto t h1 h2 -> Forall2 (agree_opt t) sk1 sk2 ->
    for_each (WaveNet_step use_skip c1) blocks (h1, sk1) = Some (h1', sk1') ->
    exists h2' sk2',
      for_each (WaveNet_step use_skip c2) blocks (h2, sk2) = Some (h2', sk2') /\
      agree_upto t h1' h2' /\ Forall2 (agree_opt t) sk1' sk2'.
Proof.
  intros Hall Hc. induction Hall as [|rb blocks [Hwf Hcs] _ IH];
    intros h1 h2 sk1 sk2 h1' sk1' Hh Hsk H; simpl in *.
  - injection H as <- <-. eauto.
  - inv_bind H. destruct a as [h1m sk1m].
    destruct use_skip.
    + inv_bind Ha. destruct a as [hm s1]. injection Ha as <- <-.
      destruct (agree_ResBlock _ _ _ _ _ _ _ _ Hwf Hcs Hh Hc Ha0) as (h2m & s2 & -> & Hm & Hs).
      simpl. eapply IH; [exact Hm | | exact H].
      apply Forall2_app; auto.
    + inv_bind Ha. destruct a as [hm s1]. injection Ha as <- <-.
      destruct (agree_ResBlock _ _ _ _ _ _ _ _ Hwf Hcs Hh Hc Ha0) as (h2m & s2 & -> & Hm & Hs).
      simpl. eapply IH; [exact Hm | exact Hsk | exact H].
Qed.

Lemma agree_tsum (t : nat) (a1 a2 x1 x2 : Tensor3D) :
  agree_upto t a1 a2 -> agree_upto t x1 x2 -> same_shape a1 x1 = true ->
  same_shape a2 x2 = true /\ agree_upto t (tsum a1 x1) (tsum a2 x2).
Proof.
  intros (Hb & Ht & Hc & Hv) (Hb' & Ht' & Hc' & Hv') Hs.
  unfold same_shape in *. rewrite <- Hb, <- Ht, <- Hc, <- Hb', <- Ht', <- Hc'.
  split; [exact Hs|].
  apply andb_prop in Hs. destruct Hs as [Hs Hs3].
  apply andb_prop in Hs. destruct Hs as [Hs1 Hs2].
  apply Nat.eqb_eq in Hs1, Hs2, Hs3.
  unfold agree_upto. simpl. repeat split; auto.
  intros. f_equal; [apply Hv | apply Hv']; lia.
Qed.

Lemma agree_add_n_from (t : nat) (l1 l2 : list (option Tensor3D)) :
  Forall2 (agree_opt t) l1 l2 ->
  forall a1 a2 y1, agree_upto t a1 a2 -> add_n_from a1 l1 = Some y1 ->
    exists y2, add_n_from a2 l2 = Some y2 /\ agree_upto t y1 y2.
Proof.
  induction 1 as [|s1 s2 l1 l2 Hs _ IH]; intros a1 a2 y1 Ha H; simpl in *.
  - injection H as <-. eauto.
  - destruct s1 as [x1|]; [|discriminate].
    destruct s2 as [x2|]; [|contradiction]. simpl in Hs.
    destruct (same_shape a1 x1) eqn:E; [|discriminate].
    destruct (agree_tsum _ _ _ _ _ Ha Hs E) as [-> Hsum]. eauto.
Qed.

Lemma agree_add_n (t : nat) (l1 l2 : list (option Tensor3D)) (y1 : Tensor3D) :
  Forall2 (agree_opt t) l1 l2 -> tf_add_n l1 = Some y1 ->
  exists y2, tf_add_n l2 = Some y2 /\ agree_upto t y1 y2.
Proof.
  intros Hl H. unfold tf_add_n in *.
  destruct Hl as [|s1 s2 l1 l2 Hs Hl]; [discriminate|].
  destruct s1 as [x1|]; [|discriminate].
  destruct s2 as [x2|]; [|contradiction].
  eapply agree_add_n_from; eauto.
Qed.

Lemma agree_ZeroConv1d (z : ZeroConv1d) (t : nat) (x1 x2 y1 : Tensor3D) :
  is_1x1 (Zero_conv z) -> agree_upto t x1 x2 ->
  ZeroConv1d_forward z x1 = Some y1 ->
  exists y2, ZeroConv1d_forward z x2 = Some y2 /\ agree_upto t y1 y2.
Proof.
  intros H1 Hx H. unfold ZeroConv1d_forward in *. inv_bind H.
  destruct (agree_Conv1D_1x1 _ _ _ _ _ H1 Hx Ha) as (o2 & -> & Ho). simpl.
  eapply agree_tbinop; [exact Ho | apply agree_upto_refl | exact H].
Qed.

Lemma agree_head (net : WaveNet) (t : nat) (x1 x2 y1 : Tensor3D) :
  WaveNet_wf true net -> agree_upto t x1 x2 ->
  WaveNet_head net x1 = Some y1 ->
  exists y2, WaveNet_head net x2 = Some y2 /\ agree_upto t y1 y2.
Proof.
  intros Hwf Hx H. unfold WaveNet_head in *. inv_bind H.
  destruct (agree_Conv_causal _ _ _ _ _ (wf_final _ _ Hwf) (wf_final_causal _ _ Hwf)
              (agree_tmap frelu _ _ _ Hx) Ha) as (o2 & -> & Ho). simpl.
  eapply agree_ZeroConv1d; [exact (wf_zero_1x1 _ _ Hwf) | | exact H].
  apply agree_tmap. exact Ho.
Qed.

Lemma agree_WaveNet (net : WaveNet) (t : nat) (x1 x2 : Tensor3D)
    (c1 c2 : option Tensor3D) (y1 : Tensor3D) :
  WaveNet_wf true net -> agree_upto t x1 x2 -> agree_opt t c1 c2 ->
  WaveNet_forward net x1 c1 = Some y1 ->
  exists y2, WaveNet_forward net x2 c2 = Some y2 /\ agree_upto t y1 y2.
Proof.
  intros Hwf Hx Hc H. unfold WaveNet_forward, WaveNet_blocks in *.
  inv_bind H. rename a into h1. inv_bind H. destruct a as [h1' sk1].
  destruct (agree_Conv_causal _ _ _ _ _ (wf_front _ _ Hwf) (wf_front_causal _ _ Hwf) Hx Ha)
    as (h2 & -> & Hh). simpl.
  destruct (agree_blocks (WN_skip net) t c1 c2 _ (wf_blocks _ _ Hwf) Hc
              _ _ [] [] _ _ (agree_tmap frelu _ _ _ Hh) (Forall2_nil _) Ha0)
    as (h2' & sk2 & -> & Hh' & Hsk). simpl.
  destruct (WN_skip net).
  - inv_bind H. destruct (agree_add_n _ _ _ _ Hsk Ha1) as (o2 & -> & Ho). simpl.
    eapply agree_head; eauto.
  - eapply agree_head; eauto.
Qed.

(** ** Construction *)

Lemma Conv1D_init_1x1 (f : nat)
    (ki : nat -> nat -> nat -> F) (bi : nat -> F) (l : Conv1D) :
  Conv1D_init f 1 1 ki bi = Some l ->
  is_1x1 l /\ filters l = f /\ input_channels l = None /\
  kernel l = ki /\ bias l = bi.
Proof.
  intros H. apply Conv1D_init_Some in H. destruct H as [_ ->].
  unfold is_1x1. simpl. auto 10.
Qed.

Lemma ResBlock_init_Some (i o : nat) (sk : option nat) (k d : Z)
    (cin : option nat) (lc causal : bool) (rb : ResBlock) :
  ResBlock_init i o sk k d cin lc causal = Some rb ->
  ResBlock_wf rb /\ RB_causal rb = causal /\
  RB_local_conditioning rb = lc /\ RB_skip rb = is_not_None sk /\
  ResBlock_kernel_size rb = k /\ ResBlock_dilation rb = d /\
  input_channels (Conv_conv (RB_filter_conv rb)) = None /\
  ResBlock_out_channels rb = o /\
  ResBlock_skip_channels rb = sk /\
  filters (Conv_conv (RB_filter_conv rb)) = o /\
  filters (Conv_conv (RB_gate_conv rb)) = o.
Proof.
  unfold ResBlock_init. intros H.
  inv_bind H. rename a into fc. inv_bind H. rename a into gc.
  inv_bind H. rename a into rc. inv_bind H. rename a into sc.
  inv_bind H. rename a into fcc. inv_bind H. rename a into gcc.
  injection H as <-.
  apply Conv_init_Some in Ha, Ha0.
  destruct Ha as (_ & Hf1 & Hf2 & Hf3 & Hf4 & Hf5 & Hf6).
  destruct Ha0 as (_ & Hg1 & Hg2 & Hg3 & Hg4 & Hg5 & Hg6).
  apply Conv1D_init_1x1 in Ha1. destruct Ha1 as (Hr1 & Hr2 & _).
  assert (Hsc : opt_1x1 sc /\ option_map filters sc = sk).
  { destruct sk as [n|].
    - inv_bind Ha2. injection Ha2 as <-.
      apply Conv1D_init_1x1 in Ha. destruct Ha as (? & ? & _).
      simpl. split; [assumption | congruence].
    - injection Ha2 as <-. simpl. auto. }
  assert (Hfcc : opt_1x1 fcc /\ is_not_None fcc = lc).
  { destruct lc.
    - inv_bind Ha3. injection Ha3 as <-.
      apply Conv1D_init_1x1 in Ha. destruct Ha as (? & _). simpl. auto.
    - injection Ha3 as <-. simpl. auto. }
  assert (Hgcc : opt_1x1 gcc /\ is_not_None gcc = lc).
  { destruct lc.
    - inv_bind Ha4. injection Ha4 as <-.
      apply Conv1D_init_1x1 in Ha. destruct Ha as (? & _). simpl. auto.
    - injection Ha4 as <-. simpl. auto. }
  destruct Hsc as [Hsc1 Hsc2], Hfcc as [Hfc1 Hfc2], Hgcc as [Hgc1 Hgc2].
  unfold ResBlock_kernel_size, ResBlock_dilation,
    ResBlock_out_channels, ResBlock_skip_channels. simpl.
  repeat split; simpl; auto; try apply Hr1.
  rewrite <- Hsc2. destruct sc; reflexivity.
Qed.

Lemma ResBlock_init_ok (i o : nat) (sk : option nat) (k d : Z)
    (cin : option nat) (lc causal : bool) :
  layer_accepts k d = true -> layer_accepts 1 1 = true ->
  exists rb, ResBlock_init i o sk k d cin lc causal = Some rb.
Proof.
  intros Hkd H11. unfold ResBlock_init, Conv_init, Conv1D_init.
  rewrite Hkd, H11. simpl. destruct sk, lc; simpl; eauto.
Qed.

(** An appending loop collects one result per element, in order. *)
Lemma for_each_append {A B : Type} (g : A -> option B) (l : list A) :
  forall acc r,
    for_each (fun acc a => b <- g a ;; Some (acc ++ [b])) l acc = Some r ->
    exists bs, r = acc ++ bs /\ Forall2 (fun a b => g a = Some b) l bs.
Proof.
  induction l as [|a l IH]; intros acc r H; simpl in H.
  - injection H as <-. exists []. rewrite app_nil_r. auto.
  - inv_bind H. inv_bind Ha. injection Ha as <-.
    destruct (IH _ _ H) as (bs & -> & Hbs).
    exists (a1 :: bs). rewrite <- app_assoc. simpl. auto.
Qed.

Lemma for_each_append_ok {A B : Type} (g : A -> option B) (l : list A) :
  (forall a, In a l -> exists b, g a = Some b) ->
  forall acc, exists r,
    for_each (fun acc a => b <- g a ;; Some (acc ++ [b])) l acc = Some r.
Proof.
  induction l as [|a l IH]; intros Hg acc; simpl.
  - eauto.
  - destruct (Hg a (or_introl eq_refl)) as [b ->]. simpl.
    apply IH. intros a' Ha'. apply Hg. right. exact Ha'.
Qed.

(** Two nested appending loops collect one row per outer iteration. *)
Lemma for_each_rows {A B C : Type} (g : B -> option C) (l1 : list A)
    (l2 : list B) :
  forall acc r,
    for_each (fun acc (_ : A) =>
        for_each (fun acc b => c <- g b ;; Some (acc ++ [c])) l2 acc) l1 acc
      = Some r ->
    exists rows, r = acc ++ concat rows /\ length rows = length l1 /\
      Forall (fun row => Forall2 (fun b c => g b = Some c) l2 row) rows.
Proof.
  induction l1 as [|a l1 IH]; intros acc r H; simpl in H.
  - injection H as <-. exists []. simpl. rewrite app_nil_r. auto.
  - inv_bind H. destruct (for_each_append g l2 _ _ Ha) as (row & -> & Hrow).
    destruct (IH _ _ H) as (rows & -> & Hlen & Hrows).
    exists (row :: rows). simpl. rewrite <- app_assoc. auto.
Qed.

Lemma Forall2_nth_error {A B : Type} (R : A -> B -> Prop) (l : list A)
    (l' : list B) :
  Forall2 R l l' ->
  forall n a, nth_error l n = Some a ->
    exists b, nth_error l' n = Some b /\ R a b.
Proof.
  induction 1 as [|x y l l' Hxy _ IH]; intros n a Hn.
  - destruct n; discriminate.
  - destruct n as [|n]; simpl in *.
    + injection Hn as <-. eauto.
    + eauto.
Qed.

Lemma Forall2_Forall_r {A B : Type} (R : A -> B -> Prop) (Q : B -> Prop)
    (l : list A) (l' : list B) :
  Forall2 R l l' -> (forall a b, R a b -> Q b) -> Forall Q l'.
Proof. induction 1; intros HQ; constructor; eauto. Qed.

Lemma nth_error_concat_rows {A : Type} (L : nat) (rows : list (list A)) :
  Forall (fun row => length row = L) rows ->
  forall b n, b < length rows -> n < L ->
    exists row, nth_error rows b = Some row /\
      nth_error (concat rows) (b * L + n) = nth_error row n.
Proof.
  induction 1 as [|row rows Hrow _ IH]; intros b n Hb Hn; simpl in *; [lia|].
  destruct b as [|b]; simpl.
  - exists row. split; [reflexivity|]. apply nth_error_app1. lia.
  - destruct (IH b n ltac:(lia) Hn) as (row' & E1 & E2).
    exists row'. split; [exact E1|].
    rewrite nth_error_app2 by lia.
    replace (L + b * L + n - length row) with (b * L + n) by lia. exact E2.
Qed.

Lemma length_concat_rows {A : Type} (L : nat) (rows : list (list A)) :
  Forall (fun row => length row = L) rows ->
  length (concat rows) = length rows * L.
Proof.
  induction 1 as [|row rows Hrow _ IH]; simpl; [reflexivity|].
  rewrite length_app, IH, Hrow. reflexivity.
Qed.

Lemma py_range_length (n : Z) : length (py_range n) = Z.to_nat n.
Proof. unfold py_range. rewrite length_map, length_seq. reflexivity. Qed.

Lemma py_range_nth (n : Z) (i : nat) :
  i < Z.to_nat n -> nth_error (py_range n) i = Some (Z.of_nat i).
Proof.
  intros Hi. unfold py_range. rewrite nth_error_map.
  rewrite nth_error_seq. destruct (Nat.ltb_spec i (Z.to_nat n)); [|lia].
  reflexivity.
Qed.

(** The list built by the loops of [WaveNet.__init__]: its length, and the
    block at position [n] of group [b]. *)
Lemma build_res_blocks_Some (nb nl : Z) (rc gc : nat) (sk : option nat)
    (k : Z) (cin : option nat) (causal : bool) (blocks : list ResBlock) :
  build_res_blocks nb nl rc gc sk k cin causal = Some blocks ->
  length blocks = Z.to_nat nb * Z.to_nat nl /\
  (forall b n, b < Z.to_nat nb -> n < Z.to_nat nl ->
     exists rb, nth_error blocks (b * Z.to_nat nl + n) = Some rb /\
       ResBlock_init rc gc sk k (k ^ Z.of_nat n) cin true causal = Some rb) /\
  Forall (fun rb => exists d,
            ResBlock_init rc gc sk k d cin true causal = Some rb) blocks.
Proof.
  unfold build_res_blocks. intros H.
  apply (for_each_rows
           (fun n => ResBlock_init rc gc sk k (k ^ n) cin true causal)) in H.
  destruct H as (rows & -> & Hlen & Hrows). simpl.
  rewrite py_range_length in Hlen.
  assert (HL : Forall (fun row : list ResBlock => length row = Z.to_nat nl) rows).
  { eapply Forall_impl; [|exact Hrows]. intros row Hrow. simpl in Hrow.
    apply Forall2_length in Hrow. rewrite py_range_length in Hrow. lia. }
  split; [|split].
  - rewrite (length_concat_rows _ _ HL). lia.
  - intros b n Hb Hn.
    destruct (nth_error_concat_rows _ _ HL b n ltac:(lia) Hn) as (row & E1 & E2).
    rewrite E2. apply nth_error_In in E1.
    rewrite Forall_forall in Hrows. specialize (Hrows _ E1). simpl in Hrows.
    destruct (Forall2_nth_error _ _ _ Hrows n _ (py_range_nth nl n Hn))
      as (rb & E3 & E4).
    exists rb. auto.
  - apply Forall_concat. eapply Forall_impl; [|exact Hrows].
    intros row Hrow. simpl in Hrow.
    eapply Forall2_Forall_r; [exact Hrow|]. intros n rb Hn.
    exists (k ^ n)%Z. exact Hn.
Qed.

Lemma build_res_blocks_ok (nb nl : Z) (rc gc : nat) (sk : option nat)
    (k : Z) (cin : option nat) (causal : bool) :
  (forall n, (0 <= n < nl)%Z -> layer_accepts k (k ^ n) = true) ->
  layer_accepts 1 1 = true ->
  exists blocks, build_res_blocks nb nl rc gc sk k cin causal = Some blocks.
Proof.
  intros Hacc H11. unfold build_res_blocks.
  set (outer := fun (res_blocks : list ResBlock) (_ : Z) => _).
  enough (Hgen : forall acc, exists blocks,
            for_each outer (py_range nb) acc = Some blocks) by apply Hgen.
  subst outer. induction (py_range nb) as [|b l IH]; intros acc.
  - simpl. eauto.
  - cbn [for_each].
    destruct (for_each_append_ok
                (fun n => ResBlock_init rc gc sk k (k ^ n) cin true causal)
                (py_range nl)) with (acc := acc) as [r Hr].
    + intros n Hn. apply ResBlock_init_ok; auto. apply Hacc.
      unfold py_range in Hn. apply in_map_iff in Hn.
      destruct Hn as (i & <- & Hi). apply in_seq in Hi. lia.
    + cbv beta in Hr. rewrite Hr. simpl. apply IH.
Qed.

Lemma build_res_blocks_empty (nb nl : Z) (rc gc : nat) (sk : option nat)
    (k : Z) (cin : option nat) (causal : bool) :
  (nb <= 0)%Z \/ (nl <= 0)%Z ->
  build_res_blocks nb nl rc gc sk k cin causal = Some [].
Proof.
  intros H. unfold build_res_blocks, py_range. destruct H as [H|H].
  - replace (Z.to_nat nb) with 0 by lia. reflexivity.
  - replace (Z.to_nat nl) with 0 by lia. simpl.
    induction (seq 0 (Z.to_nat nb)); simpl; auto.
Qed.

Lemma ZeroConv1d_init_Some (i o : nat) (z : ZeroConv1d) :
  ZeroConv1d_init i o = Some z ->
  z = {| Zero_conv := {| filters := o; kernel_size := 1; dilation_rate := 1;
                         input_channels := None; kernel := zeros3;
                         bias := zeros1 |};
         Zero_scale := {| batch := 1; time := 1; chan := o; val := zeros3 |} |}.
Proof.
  unfold ZeroConv1d_init. intros H. inv_bind H.
  apply Conv1D_init_Some in Ha. destruct Ha as [_ ->].
  injection H as <-. reflexivity.
Qed.

Lemma WaveNet_init_Some (i o : nat) (nb nl : Z) (rc gc : nat)
    (sk : option nat) (k : Z) (cin : option nat) (causal : bool)
    (net : WaveNet) :
  WaveNet_init i o nb nl rc gc sk k cin causal = Some net ->
  WaveNet_wf causal net /\ WN_skip net = is_not_None sk /\
  build_res_blocks nb nl rc gc sk k cin causal = Some (WN_res_blocks net).
Proof.
  unfold WaveNet_init. intros H.
  inv_bind H. rename a into fc. inv_bind H. rename a into blocks.
  inv_bind H. rename a into lc. inv_bind H. rename a into z.
  injection H as <-. simpl.
  apply Conv_init_Some in Ha, Ha1.
  destruct Ha as (_ & Hf1 & Hf2 & _).
  destruct Ha1 as (_ & Hl1 & Hl2 & Hl3 & Hl4 & _).
  apply ZeroConv1d_init_Some in Ha2. subst z.
  split; [|auto].
  constructor; simpl; auto; try (split; auto; fail); try (split; reflexivity).
  destruct (build_res_blocks_Some _ _ _ _ _ _ _ _ _ Ha0) as (_ & _ & Hall).
  eapply Forall_impl; [|exact Hall]. intros rb [d Hd]. simpl.
  apply ResBlock_init_Some in Hd. tauto.
Qed.

(** C1.  Causality.  Let two inputs (and their conditioning tensors) agree
    at all time indices [<= t].  For a causal [Conv], a causal [ResBlock]
    and a causal [WaveNet], if [forward] returns on the first input it
    returns on the second, and the two outputs (stream, skip) agree at all
    time indices [<= t], in particular at [t]: entries of the input at
    indices [> t] do not reach the output at [t]. *)
Theorem causal_forward_ignores_future (t : nat) (x1 x2 : Tensor3D)
    (c1 c2 : option Tensor3D) :
  agree_upto t x1 x2 -> agree_opt t c1 c2 ->
  (forall cv y1, Conv_wf cv -> Conv_causal cv = true ->
     Conv_forward cv x1 = Some y1 ->
     exists y2, Conv_forward cv x2 = Some y2 /\ agree_upto t y1 y2) /\
  (forall rb h1 s1, ResBlock_wf rb -> RB_causal rb = true ->
     ResBlock_forward rb x1 c1 = Some (h1, s1) ->
     exists h2 s2, ResBlock_forward rb x2 c2 = Some (h2, s2) /\
                   agree_upto t h1 h2 /\ agree_opt t s1 s2) /\
  (forall net y1, WaveNet_wf true net ->
     WaveNet_forward net x1 c1 = Some y1 ->
     exists y2, WaveNet_forward net x2 c2 = Some y2 /\ agree_upto t y1 y2).
Proof.
  intros Hx Hc. split; [|split].
  - intros cv y1 Hwf Hcs H. eapply agree_Conv_causal; eauto.
  - intros rb h1 s1 Hwf Hcs H. eapply agree_ResBlock; eauto.
  - intros net y1 Hwf H. eapply agree_WaveNet; eauto.
Qed.

(** ** [ZeroConv1d] *)




Lemma bdim_one_r (m : nat) : bdim m 1 = Some m.
Proof.
  unfold bdim. destruct (Nat.eqb_spec m 1); [congruence|reflexivity].
Qed.

Lemma bdim_same (m : nat) : bdim m m = Some m.
Proof. unfold bdim. rewrite Nat.eqb_refl. reflexivity. Qed.


(** ** [ResBlock] *)

Lemma Conv1D_call_shape (l : Conv1D) (x y : Tensor3D) :
  is_1x1 l -> Conv1D_call l x = Some y ->
  batch y = batch x /\ time y = time x /\ chan y = filters l.
Proof.
  intros H1 H. destruct (Conv1D_call_Some _ _ _ H) as (_ & _ & _ & _ & ->).
  simpl. rewrite (conv_span_1x1 l H1). repeat split. lia.
Qed.

Lemma bidx_bdim_l (m n r i : nat) :
  bdim m n = Some r -> bidx m (bidx r i) = bidx m i.
Proof.
  unfold bdim, bidx. intros H.
  destruct (Nat.eqb_spec m 1) as [->|Hm]; [reflexivity|].
  destruct (Nat.eqb_spec m n) as [<-|Hmn].
  - injection H as <-. destruct (Nat.eqb_spec m 1); [contradiction|reflexivity].
  - destruct (Nat.eqb_spec n 1) as [->|Hn]; [|discriminate].
    injection H as <-. destruct (Nat.eqb_spec m 1); [contradiction|reflexivity].
Qed.

Lemma bidx_bdim_r (m n r i : nat) :
  bdim m n = Some r -> bidx n (bidx r i) = bidx n i.
Proof.
  unfold bdim, bidx. intros H.
  destruct (Nat.eqb_spec n 1) as [->|Hn]; [reflexivity|].
  destruct (Nat.eqb_spec m n) as [->|Hmn].
  - injection H as <-. destruct (Nat.eqb_spec n 1); [contradiction|reflexivity].
  - destruct (Nat.eqb_spec m 1) as [->|Hm]; [|discriminate].
    injection H as <-. destruct (Nat.eqb_spec n 1); [contradiction|reflexivity].
Qed.

(** The sum of two tensors reads both through broadcasting. *)
Lemma tbinop_bcast (f : F -> F -> F) (x y z : Tensor3D) :
  tbinop f x y = Some z ->
  forall i j k, bcast z i j k = f (bcast x i j k) (bcast y i j k).
Proof.
  intros H i j k. destruct (tbinop_Some _ _ _ _ H) as (B & T & C & Hv).
  unfold bcast. rewrite Hv.
  rewrite (bidx_bdim_l _ _ _ _ B), (bidx_bdim_l _ _ _ _ T),
    (bidx_bdim_l _ _ _ _ C), (bidx_bdim_r _ _ _ _ B),
    (bidx_bdim_r _ _ _ _ T), (bidx_bdim_r _ _ _ _ C).
  reflexivity.
Qed.

(** Calling a 1x1 layer gives the 1x1 convolution. *)
Lemma conv_at_1x1 (l : Conv1D) (x : Tensor3D) (b t co : nat) :
  is_1x1 l -> conv_at l x b t co = pointwise_at l x b t co.
Proof.
  intros [Hk Hd]. unfold conv_at, pointwise_at. rewrite Hk, Hd.
  change (Z.to_nat 1) with 1. unfold sum_upto at 1. simpl.
  rewrite Nat.add_0_r. reflexivity.
Qed.

Lemma Conv1D_call_1x1_bcast (l : Conv1D) (x y : Tensor3D) :
  is_1x1 l -> Conv1D_call l x = Some y ->
  forall i j k, bcast y i j k = bcast (pointwise_conv l x) i j k.
Proof.
  intros H1 H i j k.
  destruct (Conv1D_call_Some _ _ _ H) as (_ & _ & _ & _ & ->).
  unfold bcast. simpl. rewrite (conv_span_1x1 l H1), Nat.sub_0_r.
  apply conv_at_1x1. exact H1.
Qed.

(** C5.  When [forward] of a block returns, the value [out] is, entry by
    entry, [tanh(filter_conv(s) + filter_cond_conv(c)) *
    sigmoid(gate_conv(s) + gate_cond_conv(c))], where the conditioning
    terms are there exactly when conditioning is enabled and are the 1x1
    convolutions of [c] by the two conditioning layers, and the stream
    returned is [(s + res_conv(out)) * sqrt(0.5)], where [res_conv] is the
    1x1 convolution by the residual layer. *)
Theorem ResBlock_forward_gated_residual (rb : ResBlock) (s : Tensor3D)
    (c : option Tensor3D) (ns : Tensor3D) (sk : option Tensor3D) :
  ResBlock_wf rb ->
  ResBlock_forward rb s c = Some (ns, sk) ->
  exists filter gate activated activated_val,
    Conv_forward (RB_filter_conv rb) s = Some filter /\
    Conv_forward (RB_gate_conv rb) s = Some gate /\
    ResBlock_activated rb s c = Some activated /\
    gated_activation_spec rb filter gate c = Some activated_val /\
    (forall i j k, val activated i j k = activated_val i j k) /\
    (forall i j k, val ns i j k = residual_spec rb s activated i j k).
Proof.
  intros Hwf H. unfold ResBlock_forward in H.
  inv_bind H. rename a into act. inv_bind H. rename a into res.
  inv_bind H. inv_bind H. rename a0 into sum. injection H as <- <-.
  pose proof Ha as Hact. unfold ResBlock_activated in Ha.
  inv_bind Ha. rename a0 into f. inv_bind Ha. rename a0 into g.
  inv_bind Ha. destruct a0 as [hf hg].
  assert (Hres : forall i j k,
            val (tmap (fun v => fmul v (fsqrt fhalf)) sum) i j k
            = residual_spec rb s act i j k).
  { intros i j k. simpl. unfold residual_spec.
    destruct (tbinop_Some _ _ _ _ Ha2) as (_ & _ & _ & Hv). rewrite Hv.
    fold (bcast s i j k). fold (bcast res i j k).
    rewrite (Conv1D_call_1x1_bcast _ _ _ (wf_res _ Hwf) Ha0). reflexivity. }
  destruct (tbinop_Some _ _ _ _ Ha) as (_ & _ & _ & Hva).
  unfold ResBlock_condition in Ha5. unfold gated_activation_spec.
  destruct (RB_local_conditioning rb).
  - inv_bind Ha5. rename a0 into fc. inv_bind Ha5. rename a0 into hf'.
    inv_bind Ha5. rename a0 into gc. inv_bind Ha5. rename a0 into hg'.
    injection Ha5 as <- <-.
    pose proof (wf_filter_c _ Hwf) as H1f. pose proof (wf_gate_c _ Hwf) as H1g.
    unfold call_attr, Conv1D_call_opt in Ha6, Ha8.
    destruct (RB_filter_conv_c rb) as [lf|]; [|discriminate].
    destruct (RB_gate_conv_c rb) as [lg|]; [|discriminate].
    destruct c as [cx|]; [|discriminate]. simpl in Ha6, Ha8, H1f, H1g.
    exists f, g, act. eexists.
    split; [assumption|]. split; [assumption|]. split; [exact Hact|].
    split; [reflexivity|]. split; [|exact Hres].
    intros i j k. rewrite Hva. simpl.
    fold (bcast hf' i j k). fold (bcast hg' i j k).
    rewrite (tbinop_bcast _ _ _ _ Ha7), (tbinop_bcast _ _ _ _ Ha9).
    rewrite (Conv1D_call_1x1_bcast _ _ _ H1f Ha6),
      (Conv1D_call_1x1_bcast _ _ _ H1g Ha8).
    reflexivity.
  - injection Ha5 as <- <-.
    exists f, g, act. eexists.
    split; [assumption|]. split; [assumption|]. split; [exact Hact|].
    split; [reflexivity|]. split; [|exact Hres].
    intros i j k. rewrite Hva. reflexivity.
Qed.

Lemma ResBlock_forward_inv (rb : ResBlock) (s : Tensor3D)
    (c : option Tensor3D) (ns : Tensor3D) (sk : option Tensor3D) :
  ResBlock_forward rb s c = Some (ns, sk) ->
  exists a res sum,
    ResBlock_activated rb s c = Some a /\
    Conv1D_call (RB_res_conv rb) a = Some res /\
    ResBlock_skip_of rb a = Some sk /\
    tadd s res = Some sum /\
    ns = tmap (fun v => fmul v (fsqrt fhalf)) sum.
Proof.
  unfold ResBlock_forward. intros H.
  inv_bind H. rename a into a0. inv_bind H. rename a into res.
  inv_bind H. inv_bind H. injection H as <- <-.
  exists a0, res, a1. auto.
Qed.

(** The shape of the activated value of a block whose convolutions keep
    the time-length and whose conditioning tensor is aligned. *)
Lemma ResBlock_activated_shape (rb : ResBlock) (s : Tensor3D)
    (c : option Tensor3D) (a : Tensor3D) :
  ResBlock_wf rb ->
  Conv_keeps_time (RB_filter_conv rb) -> Conv_keeps_time (RB_gate_conv rb) ->
  conditioning_aligned rb s c ->
  ResBlock_activated rb s c = Some a ->
  batch a = batch s /\ time a = time s.
Proof.
  intros Hwf Hkf Hkg Hal H. unfold ResBlock_activated in H.
  inv_bind H. rename a0 into f. inv_bind H. rename a0 into g.
  inv_bind H. destruct a0 as [f' g'].
  destruct (Conv_forward_shape _ _ _ (wf_filter _ Hwf) Hkf Ha) as (Hfb & Hft & _).
  destruct (Conv_forward_shape _ _ _ (wf_gate _ Hwf) Hkg Ha0) as (Hgb & Hgt & _).
  assert (Hsh : batch f' = batch s /\ time f' = time s /\
                batch g' = batch s /\ time g' = time s).
  { unfold ResBlock_condition in Ha1. unfold conditioning_aligned in Hal.
    destruct (RB_local_conditioning rb).
    - destruct (Hal eq_refl) as (x & -> & Hxb & Hxt).
      pose proof (wf_filter_c _ Hwf) as H1. pose proof (wf_gate_c _ Hwf) as H2.
      inv_bind Ha1. rename a0 into fc. inv_bind Ha1. rename a0 into hf.
      inv_bind Ha1. rename a0 into gc. inv_bind Ha1. rename a0 into hg.
      injection Ha1 as <- <-.
      unfold call_attr, Conv1D_call_opt in *.
      destruct (RB_filter_conv_c rb) as [lf|]; simpl in *; [|discriminate].
      destruct (RB_gate_conv_c rb) as [lg|]; simpl in *; [|discriminate].
      destruct (Conv1D_call_shape _ _ _ H1 Ha2) as (Eb & Et & _).
      destruct (Conv1D_call_shape _ _ _ H2 Ha4) as (Eb' & Et' & _).
      destruct (tbinop_Some _ _ _ _ Ha3) as (B1 & T1 & _).
      destruct (tbinop_Some _ _ _ _ Ha5) as (B2 & T2 & _).
      rewrite Hfb, Eb, Hxb, bdim_same in B1.
      rewrite Hft, Et, Hxt, bdim_same in T1.
      rewrite Hgb, Eb', Hxb, bdim_same in B2.
      rewrite Hgt, Et', Hxt, bdim_same in T2.
      injection B1 as B1. injection T1 as T1.
      injection B2 as B2. injection T2 as T2. auto.
    - injection Ha1 as <- <-. auto. }
  destruct Hsh as (E1 & E2 & E3 & E4).
  destruct (tbinop_Some _ _ _ _ H) as (B & T & _). simpl in B, T.
  rewrite E1, E3, bdim_same in B. rewrite E2, E4, bdim_same in T.
  injection B as B. injection T as T. auto.
Qed.

Lemma blocks_without_skip (c : option Tensor3D) (blocks : list ResBlock) :
  forall acc h h' skips,
    for_each (WaveNet_step false c) blocks (h, acc) = Some (h', skips) ->
    skips = acc.
Proof.
  induction blocks as [|f fs IH]; intros acc h h' skips H; simpl in H.
  - injection H as _ <-. reflexivity.
  - inv_bind H. destruct a as [h1 acc1].
    inv_bind Ha. destruct a as [h2 s2]. injection Ha as <- <-.
    apply IH in H. exact H.
Qed.

(** C8 (amended).  A block without skip channels returns [None] as its
    skip output, and a stack without skip channels leaves its list [skip]
    empty.  A block with skip channels returns, whenever [forward] returns,
    the 1x1 convolution [_skip_conv] of the activated value: a tensor with
    [skip_channels] channels and the batch size and time-length of the
    activated value.  These are the batch size and time-length of the
    stream given to the call when the block's convolutions keep the
    time-length and the conditioning tensor has the stream's batch size
    and time-length, and need not be otherwise. *)
Theorem ResBlock_skip_toggle (rb : ResBlock) (s : Tensor3D)
    (c : option Tensor3D) :
  ResBlock_wf rb ->
  (ResBlock_skip_channels rb = None ->
     forall ns sk, ResBlock_forward rb s c = Some (ns, sk) -> sk = None) /\
  (forall net h h' skips, WN_skip net = false ->
     WaveNet_blocks net h c = Some (h', skips) -> skips = []) /\
  (forall n, ResBlock_skip_channels rb = Some n ->
     forall ns sk, ResBlock_forward rb s c = Some (ns, sk) ->
     exists l a t,
       RB_skip_conv rb = Some l /\ is_1x1 l /\
       ResBlock_activated rb s c = Some a /\
       Conv1D_call l a = Some t /\ sk = Some t /\
       shape t = (batch a, time a, n) /\
       (Conv_keeps_time (RB_filter_conv rb) ->
        Conv_keeps_time (RB_gate_conv rb) ->
        conditioning_aligned rb s c ->
        shape t = (batch s, time s, n))).
Proof.
  intros Hwf. split; [|split].
  - intros Hn ns sk H.
    destruct (ResBlock_forward_inv _ _ _ _ _ H) as (a & res & sum & _ & _ & Hs & _).
    unfold ResBlock_skip_of in Hs. rewrite (wf_skip_flag _ Hwf) in Hs.
    unfold ResBlock_skip_channels in Hn.
    destruct (RB_skip_conv rb); [discriminate|]. simpl in Hs. congruence.
  - intros net h h' skips Hsk H. unfold WaveNet_blocks in H. rewrite Hsk in H.
    apply blocks_without_skip in H. exact H.
  - intros n Hn ns sk H.
    destruct (ResBlock_forward_inv _ _ _ _ _ H) as (a & res & sum & Ha & _ & Hs & _).
    unfold ResBlock_skip_of in Hs. rewrite (wf_skip_flag _ Hwf) in Hs.
    unfold ResBlock_skip_channels in Hn.
    pose proof (wf_skip_conv _ Hwf) as H1.
    destruct (RB_skip_conv rb) as [l|]; [|discriminate].
    simpl in Hs, Hn, H1. injection Hn as Hn.
    inv_bind Hs. rename a0 into t. injection Hs as <-.
    destruct (Conv1D_call_shape _ _ _ H1 Ha0) as (Eb & Et & Ec).
    exists l, a, t. repeat split; auto; try apply H1.
    + unfold shape. congruence.
    + intros Hkf Hkg Hal.
      destruct (ResBlock_activated_shape _ _ _ _ Hwf Hkf Hkg Hal Ha) as [Eb' Et'].
      unfold shape. congruence.
Qed.

(** C10 (amended).  When [forward] of a block returns, the width of the
    stream it was given equals [out_channels] unless one of the two widths
    is 1, in which case the addition [tensor + res] broadcasts along the
    channel axis; with two different widths, neither of them 1, [forward]
    fails.  The argument [in_channels] of the constructor takes no part in
    this: the constructor builds the same block for every value of it, and
    it builds one whatever the two widths are. *)
Theorem ResBlock_residual_widths (rb : ResBlock) (s : Tensor3D)
    (c : option Tensor3D) :
  ResBlock_wf rb ->
  let o := ResBlock_out_channels rb in
  (forall ns sk, ResBlock_forward rb s c = Some (ns, sk) ->
     (chan s = o \/ chan s = 1 \/ o = 1) /\
     bdim (chan s) o = Some (chan ns)) /\
  (chan s <> o -> chan s <> 1 -> o <> 1 -> ResBlock_forward rb s c = None) /\
  (forall i i' o' sk k d cin lc causal,
     ResBlock_init i o' sk k d cin lc causal
     = ResBlock_init i' o' sk k d cin lc causal) /\
  (forall i o' sk k d cin lc causal,
     layer_accepts k d = true -> layer_accepts 1 1 = true ->
     exists rb', ResBlock_init i o' sk k d cin lc causal = Some rb' /\
       ResBlock_out_channels rb' = o').
Proof.
  intros Hwf o.
  assert (Hfw : forall ns sk, ResBlock_forward rb s c = Some (ns, sk) ->
     (chan s = o \/ chan s = 1 \/ o = 1) /\
     bdim (chan s) o = Some (chan ns)).
  { intros ns sk H.
    destruct (ResBlock_forward_inv _ _ _ _ _ H)
      as (a & res & sum & Ha & Hres & _ & Hsum & ->).
    destruct (Conv1D_call_shape _ _ _ (wf_res _ Hwf) Hres) as (_ & _ & Hc).
    destruct (tbinop_Some _ _ _ _ Hsum) as (_ & _ & Hb & _).
    rewrite Hc in Hb. fold (ResBlock_out_channels rb) in Hb. fold o in Hb.
    split; [|exact Hb].
    apply bdim_Some in Hb. lia. }
  split; [exact Hfw|]. split; [|split].
  - intros H1 H2 H3.
    destruct (ResBlock_forward rb s c) as [[ns sk]|] eqn:E; [|reflexivity].
    destruct (Hfw _ _ eq_refl) as (H & _). lia.
  - intros i i' o' sk k d cin lc causal. reflexivity.
  - intros i o' sk k d cin lc causal Hkd H11.
    destruct (ResBlock_init_ok i o' sk k d cin lc causal Hkd H11) as [rb' Hrb].
    exists rb'. split; [exact Hrb|].
    apply ResBlock_init_Some in Hrb. tauto.
Qed.

(** ** [WaveNet] *)

Lemma WaveNet_init_ok (i o : nat) (nb nl : Z) (rc gc : nat)
    (sk : option nat) (k : Z) (cin : option nat) (causal : bool)
    (blocks : list ResBlock) :
  layer_accepts 3 1 = true -> layer_accepts 1 1 = true ->
  build_res_blocks nb nl rc gc sk k cin causal = Some blocks ->
  exists net, WaveNet_init i o nb nl rc gc sk k cin causal = Some net /\
              WN_res_blocks net = blocks.
Proof.
  intros H31 H11 Hb. unfold WaveNet_init, Conv_init, ZeroConv1d_init, Conv1D_init.
  rewrite H31, H11, Hb. simpl. eauto.
Qed.

(** C6.  [WaveNet.__init__] builds [num_blocks * num_layers] blocks, and
    the block at position [n] of group [b] (index [b * num_layers + n] of
    the list) has dilation [kernel_size ** n]: the dilation starts again at
    1 in every group. *)
Theorem WaveNet_init_dilation_schedule (i o : nat) (nb nl : Z) (rc gc : nat)
    (sk : option nat) (k : Z) (cin : option nat) (causal : bool)
    (net : WaveNet) :
  WaveNet_init i o nb nl rc gc sk k cin causal = Some net ->
  (0 <= nb)%Z -> (0 <= nl)%Z ->
  Z.of_nat (length (WN_res_blocks net)) = (nb * nl)%Z /\
  forall b n, (0 <= b < nb)%Z -> (0 <= n < nl)%Z ->
    exists rb, nth_error (WN_res_blocks net) (Z.to_nat (b * nl + n)) = Some rb /\
      ResBlock_dilation rb = (k ^ n)%Z /\ ResBlock_kernel_size rb = k.
Proof.
  intros H Hnb Hnl. apply WaveNet_init_Some in H. destruct H as (_ & _ & H).
  apply build_res_blocks_Some in H. destruct H as (Hlen & Hnth & _). split.
  - rewrite Hlen. lia.
  - intros b n Hb Hn.
    destruct (Hnth (Z.to_nat b) (Z.to_nat n) ltac:(lia) ltac:(lia))
      as (rb & E & Hrb).
    exists rb. replace (Z.to_nat (b * nl + n))
      with (Z.to_nat b * Z.to_nat nl + Z.to_nat n) by nia.
    split; [exact E|]. apply ResBlock_init_Some in Hrb.
    rewrite Z2Nat.id in Hrb by lia. tauto.
Qed.

(** C7 (amended).  Neither constructor validates its arguments: [Conv] is
    constructed exactly when the underlying layer accepts the kernel size
    and the dilation, and a [WaveNet] with [num_blocks <= 0] or
    [num_layers <= 0] is constructed, with an empty list of blocks, as soon
    as its entry and output layers (kernel sizes 3 and 1) are. *)
Theorem construction_without_validation :
  (forall i o k d causal,
     Conv_init i o k d causal = None <-> layer_accepts k d = false) /\
  (forall i o nb nl rc gc sk k cin causal,
     (nb <= 0)%Z \/ (nl <= 0)%Z ->
     layer_accepts 3 1 = true -> layer_accepts 1 1 = true ->
     exists net, WaveNet_init i o nb nl rc gc sk k cin causal = Some net /\
                 WN_res_blocks net = []).
Proof.
  split.
  - intros i o k d causal. unfold Conv_init, Conv1D_init.
    destruct (layer_accepts k d); simpl; split; congruence.
  - intros i o nb nl rc gc sk k cin causal Hn H31 H11.
    apply WaveNet_init_ok; auto. apply build_res_blocks_empty. exact Hn.
Qed.

End Properties.

(** * Further properties of [modules.py] *)

Section Further.

Context {S : Scalar} {Fw : Framework}.

(** ** Shapes *)

Lemma bdim_eq (m n r : nat) : m = n -> bdim m n = Some r -> r = m.
Proof. intros ->. rewrite bdim_same. congruence. Qed.

Lemma tbinop_same_bt (f : F -> F -> F) (x y z : Tensor3D) :
  batch x = batch y -> time x = time y -> tbinop f x y = Some z ->
  batch z = batch x /\ time z = time x /\
  bdim (chan x) (chan y) = Some (chan z).
Proof.
  intros Hb Ht H. destruct (tbinop_Some _ _ _ _ H) as (B & T & C & _).
  apply (bdim_eq _ _ _ Hb) in B. apply (bdim_eq _ _ _ Ht) in T. auto.
Qed.

Lemma ZeroConv1d_init_wf (i o : nat) (z : ZeroConv1d) :
  ZeroConv1d_init i o = Some z -> ZeroConv1d_wf z /\ filters (Zero_conv z) = o.
Proof.
  intros H. apply ZeroConv1d_init_Some in H. subst z.
  unfold ZeroConv1d_wf, is_1x1. simpl. auto.
Qed.

Lemma ZeroConv1d_forward_shape (z : ZeroConv1d) (x y : Tensor3D) :
  ZeroConv1d_wf z -> ZeroConv1d_forward z x = Some y ->
  shape y = (batch x, time x, filters (Zero_conv z)).
Proof.
  intros [H1 Hs] H. unfold ZeroConv1d_forward in H. inv_bind H.
  destruct (Conv1D_call_shape _ _ _ H1 Ha) as (Eb & Et & Ec).
  destruct (tbinop_Some _ _ _ _ H) as (B & T & C & _). simpl in B, T, C.
  unfold shape in Hs. injection Hs as Sb St Sc.
  rewrite Sb, bdim_one_r in B. rewrite St, bdim_one_r in T.
  rewrite Sc, Ec, bdim_same in C.
  injection B as B. injection T as T. injection C as C.
  unfold shape. congruence.
Qed.

(** X1.  A causal [Conv] computes the textbook causal dilated convolution:
    its output has the shape (batch, time, out_channels) and, at every time
    index [t] of the input, tap [k] multiplies the input sample
    [(kernel_size - 1 - k) * dilation] steps before [t] (0 before the start
    of the sequence); the bias is added to the sum. *)
Theorem Conv_forward_is_causal_convolution (cv : Conv) (x y : Tensor3D) :
  Conv_wf cv -> Conv_causal cv = true -> Conv_forward cv x = Some y ->
  shape y = (batch x, time x, filters (Conv_conv cv)) /\
  forall b t co, t < time x ->
    val y b t co = causal_conv_at (Conv_conv cv) x b t co.
Proof.
  intros Hwf Hc Hy.
  destruct (Conv_forward_causal_inv _ _ _ Hwf Hc Hy)
    as (padded & out & Hp & Hcall & HP & Hspan & _ & _ & Hyo & Ht & Hb & Hch).
  split; [unfold shape; congruence|].
  intros b t co Hlt.
  assert (Hv : val y b t co = val out b t co).
  { rewrite Hyo. destruct (_ =? 0)%Z; reflexivity. }
  rewrite Hv. clear Hv.
  destruct (tf_pad_time_Some _ _ _ Hp) as (_ & _ & Hpc & _ & Hpv).
  destruct (Conv1D_call_Some _ _ _ Hcall) as (Hk & Hd & _ & _ & ->).
  simpl. unfold conv_at, causal_conv_at. rewrite Hpc. f_equal.
  apply sum_upto_ext. intros k Hkk. apply sum_upto_ext. intros ci _.
  cbv zeta. f_equal. rewrite Hpv. rewrite <- Hspan.
  set (K := Z.to_nat (kernel_size (Conv_conv cv))) in *.
  set (d := Z.to_nat (dilation_rate (Conv_conv cv))) in *.
  assert (Hsp : conv_span (Conv_conv cv) = (K - 1) * d).
  { unfold conv_span, K, d. rewrite Z2Nat.inj_mul, Z2Nat.inj_sub by lia.
    change (Z.to_nat 1) with 1. apply Nat.mul_comm. }
  rewrite Hsp.
  assert (Hsplit : (K - 1) * d = (K - 1 - k) * d + k * d).
  { rewrite <- Nat.mul_add_distr_r. f_equal. lia. }
  destruct (Nat.ltb_spec (t + k * d) ((K - 1) * d));
    destruct (Nat.ltb_spec t ((K - 1 - k) * d)); try lia; simpl.
  - reflexivity.
  - destruct (Nat.leb_spec ((K - 1) * d + time x) (t + k * d)); [lia|].
    f_equal. lia.
Qed.

(** ** What a block does to the shape of the stream *)

Lemma bdim_ge2 (m n r : nat) : 2 <= m -> bdim m n = Some r -> r = m.
Proof. intros Hm H. apply bdim_Some in H. lia. Qed.

Lemma ResBlock_condition_shape (rb : ResBlock) (s f g : Tensor3D)
    (c : option Tensor3D) (f' g' : Tensor3D) :
  ResBlock_wf rb -> conditioning_aligned rb s c ->
  batch f = batch s -> time f = time s ->
  batch g = batch s -> time g = time s ->
  ResBlock_condition rb f g c = Some (f', g') ->
  batch f' = batch s /\ time f' = time s /\
  batch g' = batch s /\ time g' = time s.
Proof.
  intros Hwf Hal Hfb Hft Hgb Hgt H. unfold ResBlock_condition in H.
  unfold conditioning_aligned in Hal.
  destruct (RB_local_conditioning rb).
  - destruct (Hal eq_refl) as (x & -> & Hxb & Hxt).
    pose proof (wf_filter_c _ Hwf) as H1. pose proof (wf_gate_c _ Hwf) as H2.
    inv_bind H. rename a into fc. inv_bind H. rename a into hf.
    inv_bind H. rename a into gc. inv_bind H. rename a into hg.
    injection H as <- <-.
    unfold call_attr, Conv1D_call_opt in *.
    destruct (RB_filter_conv_c rb) as [lf|]; simpl in *; [|discriminate].
    destruct (RB_gate_conv_c rb) as [lg|]; simpl in *; [|discriminate].
    destruct (Conv1D_call_shape _ _ _ H1 Ha) as (Eb & Et & _).
    destruct (Conv1D_call_shape _ _ _ H2 Ha1) as (Eb' & Et' & _).
    assert (B1 : batch f = batch fc) by congruence.
    assert (T1 : time f = time fc) by congruence.
    assert (B2 : batch g = batch gc) by congruence.
    assert (T2 : time g = time gc) by congruence.
    destruct (tbinop_same_bt _ _ _ _ B1 T1 Ha0) as (B1' & T1' & _).
    destruct (tbinop_same_bt _ _ _ _ B2 T2 Ha2) as (B2' & T2' & _).
    repeat split; congruence.
  - injection H as <- <-. auto.
Qed.

(** X2.  A block whose two dilated convolutions keep the time-length
    (causal, or an even [dilation * (kernel_size - 1)]), run with an aligned
    conditioning tensor, returns a stream with the batch size and the
    time-length of the stream it was given, and its width is the broadcast
    of the stream's width and [out_channels]; the skip output, when there is
    one, has the same batch size and time-length. *)
Theorem ResBlock_forward_keeps_stream_shape (rb : ResBlock) (s : Tensor3D)
    (c : option Tensor3D) (ns : Tensor3D) (sk : option Tensor3D) :
  ResBlock_wf rb ->
  Conv_keeps_time (RB_filter_conv rb) -> Conv_keeps_time (RB_gate_conv rb) ->
  conditioning_aligned rb s c ->
  ResBlock_forward rb s c = Some (ns, sk) ->
  batch ns = batch s /\ time ns = time s /\
  bdim (chan s) (ResBlock_out_channels rb) = Some (chan ns) /\
  (chan s = ResBlock_out_channels rb -> shape ns = shape s) /\
  (forall t, sk = Some t -> batch t = batch s /\ time t = time s).
Proof.
  intros Hwf Hkf Hkg Hal H.
  destruct (ResBlock_forward_inv _ _ _ _ _ H)
    as (a & res & sum & Ha & Hres & Hsk & Hsum & ->).
  destruct (ResBlock_activated_shape _ _ _ _ Hwf Hkf Hkg Hal Ha) as [Eb Et].
  destruct (Conv1D_call_shape _ _ _ (wf_res _ Hwf) Hres) as (Rb & Rt & Rc).
  assert (B0 : batch s = batch res) by congruence.
  assert (T0 : time s = time res) by congruence.
  destruct (tbinop_same_bt _ _ _ _ B0 T0 Hsum) as (B & T & C).
  rewrite Rc in C. simpl.
  split; [exact B|]. split; [exact T|]. split; [exact C|]. split.
  - intros E. unfold ResBlock_out_channels in E. rewrite <- E, bdim_same in C.
    injection C as C. unfold shape. simpl. congruence.
  - intros t ->. unfold ResBlock_skip_of in Hsk.
    pose proof (wf_skip_conv _ Hwf) as H1.
    destruct (RB_skip rb); [|discriminate].
    destruct (RB_skip_conv rb) as [l|]; simpl in *; [|discriminate].
    inv_bind Hsk. injection Hsk as <-.
    destruct (Conv1D_call_shape _ _ _ H1 Ha0) as (Sb & St & _).
    split; congruence.
Qed.

(** X3.  A non-causal block whose [dilation * (kernel_size - 1)] is odd
    cannot run on a stream of three or more time steps, whatever the
    conditioning: its filter convolution returns one step less than it
    received, and the sum [tensor + res] of two tensors of time-lengths
    [T] and [T - 1] is rejected. *)
Theorem ResBlock_noncausal_odd_fails (rb : ResBlock) (s : Tensor3D)
    (c : option Tensor3D) :
  ResBlock_wf rb -> RB_causal rb = false ->
  Z.odd (ResBlock_dilation rb * (ResBlock_kernel_size rb - 1)) = true ->
  3 <= time s ->
  ResBlock_forward rb s c = None.
Proof.
  intros Hwf Hnc Hodd HT.
  destruct (ResBlock_forward rb s c) as [[ns sk]|] eqn:E; [|reflexivity].
  exfalso.
  destruct (ResBlock_forward_inv _ _ _ _ _ E)
    as (a & res & sum & Ha & Hres & _ & Hsum & _).
  unfold ResBlock_activated in Ha.
  inv_bind Ha. rename a0 into f. inv_bind Ha. rename a0 into g.
  inv_bind Ha. destruct a0 as [f' g'].
  assert (Hfc : Conv_causal (RB_filter_conv rb) = false)
    by (rewrite (wf_filter_causal _ Hwf); exact Hnc).
  destruct (Conv_forward_noncausal_inv _ _ _ (wf_filter _ Hwf) Hfc Ha0)
    as (_ & _ & _ & Hft).
  specialize (Hft Hodd).
  assert (Hf' : time f' = time f).
  { unfold ResBlock_condition in Ha2. destruct (RB_local_conditioning rb).
    - inv_bind Ha2. inv_bind Ha2. inv_bind Ha2. inv_bind Ha2.
      injection Ha2 as <- _.
      destruct (tbinop_Some _ _ _ _ Ha4) as (_ & T & _).
      apply bdim_ge2 in T; [exact T | lia].
    - injection Ha2 as <- _. reflexivity. }
  destruct (tbinop_Some _ _ _ _ Ha) as (_ & Ta & _). simpl in Ta.
  apply bdim_ge2 in Ta; [|lia].
  destruct (Conv1D_call_shape _ _ _ (wf_res _ Hwf) Hres) as (_ & Rt & _).
  destruct (tbinop_Some _ _ _ _ Hsum) as (_ & Ts & _).
  apply bdim_Some in Ts. lia.
Qed.

(** ** The stack *)

Lemma causal_keeps_time (cv : Conv) :
  Conv_causal cv = true -> Conv_keeps_time cv.
Proof. intros H. left. exact H. Qed.

Lemma aligned_conditioning (rb : ResBlock) (x s : Tensor3D)
    (c : option Tensor3D) :
  aligned_with x c -> batch s = batch x -> time s = time x ->
  conditioning_aligned rb s c.
Proof.
  intros (cx & -> & Hb & Ht) Hsb Hst _. exists cx.
  split; [reflexivity|]. split; congruence.
Qed.

(** The loop over the blocks keeps the batch size and the time-length of
    the stream, and every skip tensor it collects has them too. *)
Lemma WaveNet_blocks_shape (use_skip : bool) (x : Tensor3D)
    (c : option Tensor3D) (blocks : list ResBlock) :
  Forall (fun rb => ResBlock_wf rb /\ RB_causal rb = true) blocks ->
  aligned_with x c ->
  forall h sk h' sk',
    batch h = batch x -> time h = time x ->
    Forall (fun s => forall t, s = Some t ->
                     batch t = batch x /\ time t = time x) sk ->
    for_each (WaveNet_step use_skip c) blocks (h, sk) = Some (h', sk') ->
    batch h' = batch x /\ time h' = time x /\
    Forall (fun s => forall t, s = Some t ->
                     batch t = batch x /\ time t = time x) sk'.
Proof.
  intros Hall Hal. induction Hall as [|rb blocks [Hwf Hcs] _ IH];
    intros h sk h' sk' Hb Ht Hsk H; simpl in H.
  - injection H as <- <-. auto.
  - inv_bind H. destruct a as [hm skm].
    assert (Hkf : Conv_keeps_time (RB_filter_conv rb))
      by (apply causal_keeps_time; rewrite (wf_filter_causal _ Hwf); exact Hcs).
    assert (Hkg : Conv_keeps_time (RB_gate_conv rb))
      by (apply causal_keeps_time; rewrite (wf_gate_causal _ Hwf); exact Hcs).
    pose proof (aligned_conditioning rb x h c Hal Hb Ht) as Hc.
    unfold WaveNet_step in Ha. destruct use_skip.
    + inv_bind Ha. destruct a as [h1 s1]. injection Ha as <- <-.
      destruct (ResBlock_forward_keeps_stream_shape _ _ _ _ _ Hwf Hkf Hkg Hc Ha0)
        as (B & T & _ & _ & Hs).
      assert (B' : batch h1 = batch x) by congruence.
      assert (T' : time h1 = time x) by congruence.
      apply (IH _ _ _ _ B' T') in H; auto.
      apply Forall_app. split; [exact Hsk|]. constructor; [|constructor].
      intros t Et. destruct (Hs t Et). split; congruence.
    + inv_bind Ha. destruct a as [h1 s1]. injection Ha as <- <-.
      destruct (ResBlock_forward_keeps_stream_shape _ _ _ _ _ Hwf Hkf Hkg Hc Ha0)
        as (B & T & _).
      assert (B' : batch h1 = batch x) by congruence.
      assert (T' : time h1 = time x) by congruence.
      apply (IH _ _ _ _ B' T') in H; auto.
Qed.

Lemma add_n_from_shape (l : list (option Tensor3D)) :
  forall acc y, add_n_from acc l = Some y ->
    batch y = batch acc /\ time y = time acc /\ chan y = chan acc.
Proof.
  induction l as [|[x|] l IH]; intros acc y H; simpl in H.
  - injection H as <-. auto.
  - destruct (same_shape acc x); [|discriminate].
    apply IH in H. exact H.
  - discriminate.
Qed.

Lemma WaveNet_head_shape (net : WaveNet) (x y : Tensor3D) :
  WaveNet_wf true net -> ZeroConv1d_wf (WN_final_zero_conv net) ->
  WaveNet_head net x = Some y ->
  shape y = (batch x, time x, filters (Zero_conv (WN_final_zero_conv net))).
Proof.
  intros Hwf Hz H. unfold WaveNet_head in H. inv_bind H.
  destruct (Conv_forward_shape _ _ _ (wf_final _ _ Hwf)
              (causal_keeps_time _ (wf_final_causal _ _ Hwf)) Ha)
    as (Eb & Et & _).
  apply (ZeroConv1d_forward_shape _ _ _ Hz) in H. simpl in *.
  rewrite H. congruence.
Qed.

(** X4.  A causal stack run with a conditioning tensor that has the batch
    size and the time-length of the input returns, whenever it returns, a
    tensor of shape (batch, time, out_channels): the time-length of the
    input goes through the entry convolution, every block, the sum of the
    skip tensors and the output projection unchanged. *)
Theorem WaveNet_forward_keeps_shape (net : WaveNet) (x : Tensor3D)
    (c : option Tensor3D) (y : Tensor3D) :
  WaveNet_wf true net -> ZeroConv1d_wf (WN_final_zero_conv net) ->
  aligned_with x c ->
  WaveNet_forward net x c = Some y ->
  shape y = (batch x, time x, filters (Zero_conv (WN_final_zero_conv net))).
Proof.
  intros Hwf Hz Hal H. unfold WaveNet_forward, WaveNet_blocks in H.
  inv_bind H. rename a into h. inv_bind H. destruct a as [h' sk].
  destruct (Conv_forward_shape _ _ _ (wf_front _ _ Hwf)
              (causal_keeps_time _ (wf_front_causal _ _ Hwf)) Ha)
    as (Eb & Et & _).
  destruct (WaveNet_blocks_shape (WN_skip net) x c _ (wf_blocks _ _ Hwf) Hal
              (tmap frelu h) [] h' sk Eb Et (Forall_nil _) Ha0)
    as (Bh & Th & Hsk).
  destruct (WN_skip net).
  - inv_bind H. rename a into out.
    unfold tf_add_n in Ha1. destruct sk as [|[t|] sk]; try discriminate.
    apply add_n_from_shape in Ha1. destruct Ha1 as (Ob & Ot & _).
    inversion Hsk as [|? ? Ht _]; subst. destruct (Ht t eq_refl) as [Tb Tt].
    rewrite (WaveNet_head_shape _ _ _ Hwf Hz H). congruence.
  - rewrite (WaveNet_head_shape _ _ _ Hwf Hz H). congruence.
Qed.

Lemma WaveNet_init_zero_wf (i o : nat) (nb nl : Z) (rc gc : nat)
    (sk : option nat) (k : Z) (cin : option nat) (causal : bool)
    (net : WaveNet) :
  WaveNet_init i o nb nl rc gc sk k cin causal = Some net ->
  ZeroConv1d_wf (WN_final_zero_conv net) /\
  filters (Zero_conv (WN_final_zero_conv net)) = o.
Proof.
  unfold WaveNet_init. intros H.
  inv_bind H. inv_bind H. inv_bind H. inv_bind H. injection H as <-. simpl.
  apply ZeroConv1d_init_wf in Ha2. exact Ha2.
Qed.

(** X5.  Every block of a stack is built with [local_conditioning=True]:
    a block with local conditioning fails when [c] is [None], and so does
    [WaveNet.forward] of any stack with at least one block, although
    [c=None] is the default of its signature. *)
Theorem WaveNet_forward_needs_conditioning (i o : nat) (nb nl : Z)
    (rc gc : nat) (sk : option nat) (k : Z) (cin : option nat)
    (causal : bool) (net : WaveNet) :
  WaveNet_init i o nb nl rc gc sk k cin causal = Some net ->
  (1 <= nb)%Z -> (1 <= nl)%Z ->
  (forall rb s, In rb (WN_res_blocks net) -> ResBlock_forward rb s None = None) /\
  (forall x, WaveNet_forward net x None = None).
Proof.
  intros H Hnb Hnl. apply WaveNet_init_Some in H. destruct H as (_ & _ & H).
  apply build_res_blocks_Some in H. destruct H as (Hlen & _ & Hall).
  assert (Hblock : forall rb s, In rb (WN_res_blocks net) ->
                     ResBlock_forward rb s None = None).
  { intros rb s Hin. rewrite Forall_forall in Hall.
    destruct (Hall rb Hin) as [d Hd]. apply ResBlock_init_Some in Hd.
    destruct Hd as (_ & _ & Hlc & _).
    unfold ResBlock_forward, ResBlock_activated, ResBlock_condition.
    rewrite Hlc.
    destruct (Conv_forward (RB_filter_conv rb) s); simpl; [|reflexivity].
    destruct (Conv_forward (RB_gate_conv rb) s); simpl; [|reflexivity].
    unfold call_attr, Conv1D_call_opt.
    destruct (RB_filter_conv_c rb); reflexivity. }
  split; [exact Hblock|].
  intros x. unfold WaveNet_forward, WaveNet_blocks.
  destruct (Conv_forward (WN_front_conv net) x) as [h|]; simpl; [|reflexivity].
  destruct (WN_res_blocks net) as [|rb blocks] eqn:E.
  - simpl in Hlen. lia.
  - simpl. unfold WaveNet_step at 1.
    rewrite (Hblock rb (tmap frelu h) (or_introl eq_refl)).
    destruct (WN_skip net); reflexivity.
Qed.

(** X6.  A stack with skip channels and no block ([num_blocks <= 0] or
    [num_layers <= 0]) is constructed, but its [forward] fails on every
    input: [tf.add_n] is applied to the empty list [skip]. *)
Theorem WaveNet_empty_stack_with_skip_fails (i o : nat) (nb nl : Z)
    (rc gc : nat) (sc : nat) (k : Z) (cin : option nat) (causal : bool)
    (net : WaveNet) :
  WaveNet_init i o nb nl rc gc (Some sc) k cin causal = Some net ->
  (nb <= 0)%Z \/ (nl <= 0)%Z ->
  forall x c, WaveNet_forward net x c = None.
Proof.
  intros H Hn x c. apply WaveNet_init_Some in H.
  destruct H as (_ & Hskip & H).
  rewrite (build_res_blocks_empty _ _ _ _ _ _ _ _ Hn) in H.
  injection H as H. unfold WaveNet_forward, WaveNet_blocks.
  rewrite <- H, Hskip. simpl.
  destruct (Conv_forward (WN_front_conv net) x); reflexivity.
Qed.

(** ** Receptive field *)

Lemma agree_window_refl (lo hi : nat) (x : Tensor3D) : agree_window lo hi x x.
Proof. unfold agree_window. auto. Qed.

Lemma agree_window_weaken (lo hi lo' hi' : nat) (x1 x2 : Tensor3D) :
  lo <= lo' -> hi' <= hi ->
  agree_window lo hi x1 x2 -> agree_window lo' hi' x1 x2.
Proof.
  intros Hlo Hhi (Hb & Ht & Hc & Hv). unfold agree_window.
  repeat split; auto. intros. apply Hv; lia.
Qed.

Lemma agree_window_tmap (f : F -> F) (lo hi : nat) (x1 x2 : Tensor3D) :
  agree_window lo hi x1 x2 -> agree_window lo hi (tmap f x1) (tmap f x2).
Proof.
  intros (Hb & Ht & Hc & Hv). unfold agree_window. simpl.
  repeat split; auto. intros. f_equal. auto.
Qed.

Lemma bidx_full (m r i : nat) : r = m -> i < r -> bidx m i = i.
Proof. intros -> Hi. unfold bidx. destruct (Nat.eqb_spec m 1); lia. Qed.

(** Two operands of one time-length: no broadcasting along the time axis. *)
Lemma agree_window_tbinop (f : F -> F -> F) (lo hi : nat)
    (x1 x2 y1 y2 z1 : Tensor3D) :
  agree_window lo hi x1 x2 -> agree_window lo hi y1 y2 ->
  time x1 = time y1 ->
  tbinop f x1 y1 = Some z1 ->
  exists z2, tbinop f x2 y2 = Some z2 /\ agree_window lo hi z1 z2.
Proof.
  intros (Hxb & Hxt & Hxc & Hxv) (Hyb & Hyt & Hyc & Hyv) Hsame H.
  destruct (tbinop_Some _ _ _ _ H) as (Eb & Et & Ec & Ev).
  unfold tbinop. rewrite <- Hxb, <- Hyb, <- Hxt, <- Hyt, <- Hxc, <- Hyc.
  rewrite Eb, Et, Ec. simpl. eexists. split; [reflexivity|].
  unfold agree_window. simpl. repeat split; auto.
  intros b t c Hb Hlo Hhi Ht Hc. rewrite Ev.
  destruct (bidx_l _ _ _ _ Eb Hb), (bidx_r _ _ _ _ Eb Hb).
  destruct (bidx_l _ _ _ _ Ec Hc), (bidx_r _ _ _ _ Ec Hc).
  pose proof (bdim_eq _ _ _ Hsame Et) as Etz.
  rewrite (bidx_full (time x1) (time z1) t Etz Ht).
  rewrite (bidx_full (time y1) (time z1) t ltac:(congruence) Ht).
  f_equal; [apply Hxv | apply Hyv]; lia.
Qed.

(** A second operand with a single time step, the same on both sides. *)
Lemma agree_window_tbinop_scale (f : F -> F -> F) (lo hi : nat)
    (x1 x2 y z1 : Tensor3D) :
  agree_window lo hi x1 x2 -> time y = 1 ->
  tbinop f x1 y = Some z1 ->
  exists z2, tbinop f x2 y = Some z2 /\ agree_window lo hi z1 z2.
Proof.
  intros (Hxb & Hxt & Hxc & Hxv) Hy H.
  destruct (tbinop_Some _ _ _ _ H) as (Eb & Et & Ec & Ev).
  unfold tbinop. rewrite <- Hxb, <- Hxt, <- Hxc.
  rewrite Eb, Et, Ec. simpl. eexists. split; [reflexivity|].
  unfold agree_window. simpl. repeat split; auto.
  intros b t c Hb Hlo Hhi Ht Hc. rewrite Ev.
  destruct (bidx_l _ _ _ _ Eb Hb).
  destruct (bidx_l _ _ _ _ Ec Hc).
  assert (Etz : time z1 = time x1).
  { rewrite Hy, bdim_one_r in Et. congruence. }
  rewrite (bidx_full (time x1) (time z1) t Etz Ht).
  f_equal. apply Hxv; lia.
Qed.

Lemma agree_window_pad (p : Z) (lo hi : nat) (x1 x2 y1 : Tensor3D) :
  agree_window lo hi x1 x2 -> tf_pad_time p x1 = Some y1 ->
  exists y2, tf_pad_time p x2 = Some y2 /\
    agree_window (lo + Z.to_nat p) (hi + Z.to_nat p) y1 y2.
Proof.
  intros (Hb & Ht & Hc & Hv) H.
  unfold tf_pad_time in *. destruct (p <? 0)%Z; [discriminate|].
  injection H as <-. eexists. split; [reflexivity|].
  unfold agree_window. simpl. rewrite <- Ht. repeat split; auto.
  intros b t c Hb' Hlo Hhi Ht' Hc'.
  destruct (Nat.ltb_spec t (Z.to_nat p)); simpl; [reflexivity|].
  destruct (Nat.leb_spec (Z.to_nat p + time x1) t); [reflexivity|].
  apply Hv; lia.
Qed.

Lemma agree_window_slice (s : Z) (lo hi : nat) (x1 x2 : Tensor3D) :
  agree_window lo hi x1 x2 ->
  agree_window lo hi (slice_time_to s x1) (slice_time_to s x2).
Proof.
  intros (Hb & Ht & Hc & Hv). unfold agree_window. simpl. rewrite <- Ht.
  repeat split; auto. intros b t c Hb' Hlo Hhi Ht' Hc'. apply Hv; auto.
  unfold py_slice_stop in Ht'. destruct (Z.ltb_spec s 0); lia.
Qed.

Lemma agree_window_Conv1D (l : Conv1D) (lo hi : nat) (x1 x2 y1 : Tensor3D) :
  agree_window lo (hi + conv_span l) x1 x2 -> Conv1D_call l x1 = Some y1 ->
  exists y2, Conv1D_call l x2 = Some y2 /\ agree_window lo hi y1 y2.
Proof.
  intros (Hb & Ht & Hc & Hv) H.
  destruct (Conv1D_call_Some _ _ _ H) as (Hk & Hd & Hw & Hsp & ->).
  rewrite Conv1D_call_ok by (try rewrite <- Hc; try rewrite <- Ht; auto).
  eexists. split; [reflexivity|].
  unfold agree_window. simpl. rewrite <- Hb, <- Ht. repeat split; auto.
  intros b t co Hb' Hlo Hhi Ht' Hco. unfold conv_at. rewrite <- Hc. f_equal.
  apply sum_upto_ext. intros k Hkk. apply sum_upto_ext. intros ci Hci.
  f_equal.
  assert (k * Z.to_nat (dilation_rate l) <= conv_span l).
  { unfold conv_span. rewrite Z2Nat.inj_mul, Z2Nat.inj_sub by lia.
    rewrite Nat.mul_comm. apply Nat.mul_le_mono_l.
    change (Z.to_nat 1) with 1. lia. }
  apply Hv; lia.
Qed.

Lemma agree_window_Conv1D_1x1 (l : Conv1D) (lo hi : nat)
    (x1 x2 y1 : Tensor3D) :
  is_1x1 l -> agree_window lo hi x1 x2 -> Conv1D_call l x1 = Some y1 ->
  exists y2, Conv1D_call l x2 = Some y2 /\ agree_window lo hi y1 y2.
Proof.
  intros H1 Ha. apply agree_window_Conv1D.
  rewrite (conv_span_1x1 l H1), Nat.add_0_r. exact Ha.
Qed.

(** A causal [Conv] with padding [P] looks [P] steps back. *)
Lemma agree_window_Conv_causal (cv : Conv) (lo hi : nat)
    (x1 x2 y1 : Tensor3D) :
  Conv_wf cv -> Conv_causal cv = true ->
  agree_window lo hi x1 x2 -> Conv_forward cv x1 = Some y1 ->
  exists y2, Conv_forward cv x2 = Some y2 /\
    agree_window (lo + conv_span (Conv_conv cv)) hi y1 y2.
Proof.
  intros Hwf Hc Ha H.
  rewrite (Conv_forward_is_spec cv x1 Hwf) in H.
  rewrite (Conv_forward_is_spec cv x2 Hwf).
  unfold Conv_forward_spec in *.
  assert (Hsp : Z.to_nat (Conv_padding_amount cv) = conv_span (Conv_conv cv)).
  { unfold Conv_padding_amount. rewrite Hc. reflexivity. }
  inv_bind H. rename a into p1. inv_bind H. rename a into o1.
  injection H as <-.
  destruct (agree_window_pad _ _ _ _ _ _ Ha Ha0) as (p2 & -> & Hp). simpl.
  rewrite Hsp in Hp.
  destruct (agree_window_Conv1D (Conv_conv cv) _ hi _ _ _ Hp Ha1)
    as (o2 & -> & Ho). simpl.
  eexists. split; [reflexivity|].
  destruct (Conv_causal cv && negb (Conv_padding_amount cv =? 0)%Z); auto.
  apply agree_window_slice. exact Ho.
Qed.

Lemma agree_window_condition (rb : ResBlock) (lo hi : nat)
    (s f1 f2 g1 g2 : Tensor3D) (c : option Tensor3D) (f1' g1' : Tensor3D) :
  ResBlock_wf rb -> conditioning_aligned rb s c ->
  time f1 = time s -> time g1 = time s ->
  agree_window lo hi f1 f2 -> agree_window lo hi g1 g2 ->
  ResBlock_condition rb f1 g1 c = Some (f1', g1') ->
  exists f2' g2', ResBlock_condition rb f2 g2 c = Some (f2', g2') /\
    agree_window lo hi f1' f2' /\ agree_window lo hi g1' g2'.
Proof.
  intros Hwf Hal Hft Hgt Hf Hg H. unfold ResBlock_condition in *.
  unfold conditioning_aligned in Hal.
  destruct (RB_local_conditioning rb).
  - destruct (Hal eq_refl) as (x & -> & Hxb & Hxt).
    pose proof (wf_filter_c _ Hwf) as H1. pose proof (wf_gate_c _ Hwf) as H2.
    inv_bind H. rename a into fc. inv_bind H. rename a into hf.
    inv_bind H. rename a into gc. inv_bind H. rename a into hg.
    injection H as <- <-. rewrite Ha, Ha1. simpl.
    unfold call_attr, Conv1D_call_opt in Ha, Ha1.
    destruct (RB_filter_conv_c rb) as [lf|]; simpl in *; [|discriminate].
    destruct (RB_gate_conv_c rb) as [lg|]; simpl in *; [|discriminate].
    destruct (Conv1D_call_shape _ _ _ H1 Ha) as (_ & Et & _).
    destruct (Conv1D_call_shape _ _ _ H2 Ha1) as (_ & Et' & _).
    assert (T1 : time f1 = time fc) by congruence.
    assert (T2 : time g1 = time gc) by congruence.
    destruct (agree_window_tbinop _ _ _ _ _ _ _ _ Hf
                (agree_window_refl lo hi fc) T1 Ha0) as (hf2 & E & Hhf).
    unfold tadd. rewrite E. simpl.
    destruct (agree_window_tbinop _ _ _ _ _ _ _ _ Hg
                (agree_window_refl lo hi gc) T2 Ha2) as (hg2 & E' & Hhg).
    rewrite E'. simpl. eauto.
  - injection H as <- <-. eauto.
Qed.

(** A causal block looks back as far as its dilated convolutions. *)
Lemma agree_window_ResBlock (rb : ResBlock) (lo hi : nat)
    (s1 s2 : Tensor3D) (c : option Tensor3D) (h1 : Tensor3D)
    (sk1 : option Tensor3D) :
  ResBlock_wf rb -> RB_causal rb = true -> conditioning_aligned rb s1 c ->
  agree_window lo hi s1 s2 ->
  ResBlock_forward rb s1 c = Some (h1, sk1) ->
  exists h2 sk2, ResBlock_forward rb s2 c = Some (h2, sk2) /\
    agree_window (lo + ResBlock_reach rb) hi h1 h2 /\
    agree_window_opt (lo + ResBlock_reach rb) hi sk1 sk2.
Proof.
  intros Hwf Hcs Hal Hs H.
  assert (Hfc : Conv_causal (RB_filter_conv rb) = true)
    by (rewrite (wf_filter_causal _ Hwf); exact Hcs).
  assert (Hgc : Conv_causal (RB_gate_conv rb) = true)
    by (rewrite (wf_gate_causal _ Hwf); exact Hcs).
  pose proof (causal_keeps_time _ Hfc) as Hkf.
  pose proof (causal_keeps_time _ Hgc) as Hkg.
  destruct (ResBlock_forward_inv _ _ _ _ _ H)
    as (o1 & r1 & sum1 & Ho1 & Hr1 & Hsk1 & Hsum1 & ->).
  destruct (ResBlock_activated_shape _ _ _ _ Hwf Hkf Hkg Hal Ho1) as [_ Eot].
  set (L := lo + ResBlock_reach rb).
  (* the activated value *)
  assert (Hact : exists o2, ResBlock_activated rb s2 c = Some o2 /\
                            agree_window L hi o1 o2).
  { unfold ResBlock_activated in Ho1 |- *.
    inv_bind Ho1. rename a into f1. inv_bind Ho1. rename a into g1.
    inv_bind Ho1. destruct a as [f1' g1'].
    destruct (agree_window_Conv_causal _ _ _ _ _ _ (wf_filter _ Hwf) Hfc Hs Ha)
      as (f2 & -> & Hf).
    destruct (agree_window_Conv_causal _ _ _ _ _ _ (wf_gate _ Hwf) Hgc Hs Ha0)
      as (g2 & -> & Hg).
    simpl.
    destruct (Conv_forward_shape _ _ _ (wf_filter _ Hwf) Hkf Ha) as (Fb & Ft & _).
    destruct (Conv_forward_shape _ _ _ (wf_gate _ Hwf) Hkg Ha0) as (Gb & Gt & _).
    assert (Hf' : agree_window L hi f1 f2).
    { eapply agree_window_weaken; [| |exact Hf]; unfold L, ResBlock_reach; lia. }
    assert (Hg' : agree_window L hi g1 g2).
    { eapply agree_window_weaken; [| |exact Hg]; unfold L, ResBlock_reach; lia. }
    destruct (agree_window_condition _ _ _ _ _ _ _ _ _ _ _ Hwf Hal Ft Gt Hf' Hg' Ha1)
      as (f2' & g2' & -> & Hf2 & Hg2).
    simpl.
    destruct (ResBlock_condition_shape _ _ _ _ _ _ _ Hwf Hal Fb Ft Gb Gt Ha1)
      as (_ & Tf & _ & Tg).
    eapply agree_window_tbinop; [| | |exact Ho1].
    - apply agree_window_tmap. exact Hf2.
    - apply agree_window_tmap. exact Hg2.
    - simpl. congruence. }
  destruct Hact as (o2 & Ho2 & Ho).
  unfold ResBlock_forward. rewrite Ho2. simpl.
  destruct (agree_window_Conv1D_1x1 _ _ _ _ _ _ (wf_res _ Hwf) Ho Hr1)
    as (r2 & -> & Hr). simpl.
  assert (Hskip : exists sk2, ResBlock_skip_of rb o2 = Some sk2 /\
                              agree_window_opt L hi sk1 sk2).
  { unfold ResBlock_skip_of in *. destruct (RB_skip rb).
    - pose proof (wf_skip_conv _ Hwf) as H1.
      destruct (RB_skip_conv rb) as [l|]; simpl in *; [|discriminate].
      inv_bind Hsk1. injection Hsk1 as <-.
      destruct (agree_window_Conv1D_1x1 _ _ _ _ _ _ H1 Ho Ha) as (t2 & -> & Ht).
      simpl. eexists. split; [reflexivity | exact Ht].
    - injection Hsk1 as <-. exists None. split; [reflexivity | exact I]. }
  destruct Hskip as (sk2 & -> & Hsk). simpl.
  destruct (Conv1D_call_shape _ _ _ (wf_res _ Hwf) Hr1) as (_ & Rt & _).
  assert (Tsr : time s1 = time r1) by congruence.
  assert (Hs' : agree_window L hi s1 s2).
  { eapply agree_window_weaken; [| |exact Hs]; unfold L; lia. }
  destruct (agree_window_tbinop _ _ _ _ _ _ _ _ Hs' Hr Tsr Hsum1)
    as (sum2 & E & Hsum).
  unfold tadd. rewrite E. simpl.
  eexists _, _. split; [reflexivity|]. split; [|exact Hsk].
  apply agree_window_tmap. exact Hsum.
Qed.

Lemma agree_window_opt_weaken (lo hi lo' : nat) (s1 s2 : option Tensor3D) :
  lo <= lo' -> agree_window_opt lo hi s1 s2 -> agree_window_opt lo' hi s1 s2.
Proof.
  intros Hlo H. destruct s1, s2; simpl in *; auto.
  eapply agree_window_weaken; [exact Hlo | apply Nat.le_refl | exact H].
Qed.

Lemma agree_window_blocks (use_skip : bool) (x : Tensor3D)
    (c : option Tensor3D) (hi L : nat) (blocks : list ResBlock) :
  Forall (fun rb => ResBlock_wf rb /\ RB_causal rb = true) blocks ->
  aligned_with x c ->
  forall lo h1 h2 sk1 sk2 h1' sk1',
    batch h1 = batch x -> time h1 = time x ->
    agree_window lo hi h1 h2 ->
    lo + list_sum (map ResBlock_reach blocks) <= L ->
    Forall2 (agree_window_opt L hi) sk1 sk2 ->
    for_each (WaveNet_step use_skip c) blocks (h1, sk1) = Some (h1', sk1') ->
    exists h2' sk2',
      for_each (WaveNet_step use_skip c) blocks (h2, sk2) = Some (h2', sk2') /\
      agree_window L hi h1' h2' /\ Forall2 (agree_window_opt L hi) sk1' sk2'.
Proof.
  intros Hall Hal. induction Hall as [|rb blocks [Hwf Hcs] _ IH];
    intros lo h1 h2 sk1 sk2 h1' sk1' Hb Ht Hh HL Hsk H; simpl in *.
  - injection H as <- <-. exists h2, sk2. split; [reflexivity|].
    split; [|exact Hsk].
    eapply agree_window_weaken; [| apply Nat.le_refl | exact Hh]. lia.
  - inv_bind H. destruct a as [h1m sk1m].
    assert (Hkf : Conv_keeps_time (RB_filter_conv rb))
      by (apply causal_keeps_time; rewrite (wf_filter_causal _ Hwf); exact Hcs).
    assert (Hkg : Conv_keeps_time (RB_gate_conv rb))
      by (apply causal_keeps_time; rewrite (wf_gate_causal _ Hwf); exact Hcs).
    pose proof (aligned_conditioning rb x h1 c Hal Hb Ht) as Hc.
    unfold WaveNet_step in Ha |- *. destruct use_skip.
    + inv_bind Ha. destruct a as [hm s1]. injection Ha as <- <-.
      destruct (ResBlock_forward_keeps_stream_shape _ _ _ _ _ Hwf Hkf Hkg Hc Ha0)
        as (B & T & _).
      destruct (agree_window_ResBlock _ _ _ _ _ _ _ _ Hwf Hcs Hc Hh Ha0)
        as (h2m & s2 & -> & Hm & Hs). simpl.
      assert (B' : batch hm = batch x) by congruence.
      assert (T' : time hm = time x) by congruence.
      eapply (IH _ _ _ _ _ _ _ B' T' Hm); [lia | | exact H].
      apply Forall2_app; [exact Hsk|]. constructor; [|constructor].
      eapply agree_window_opt_weaken; [|exact Hs]. lia.
    + inv_bind Ha. destruct a as [hm s1]. injection Ha as <- <-.
      destruct (ResBlock_forward_keeps_stream_shape _ _ _ _ _ Hwf Hkf Hkg Hc Ha0)
        as (B & T & _).
      destruct (agree_window_ResBlock _ _ _ _ _ _ _ _ Hwf Hcs Hc Hh Ha0)
        as (h2m & s2 & -> & Hm & Hs). simpl.
      assert (B' : batch hm = batch x) by congruence.
      assert (T' : time hm = time x) by congruence.
      eapply (IH _ _ _ _ _ _ _ B' T' Hm); [lia | exact Hsk | exact H].
Qed.

Lemma agree_window_tsum (lo hi : nat) (a1 a2 x1 x2 : Tensor3D) :
  agree_window lo hi a1 a2 -> agree_window lo hi x1 x2 ->
  same_shape a1 x1 = true ->
  same_shape a2 x2 = true /\ agree_window lo hi (tsum a1 x1) (tsum a2 x2).
Proof.
  intros (Hb & Ht & Hc & Hv) (Hb' & Ht' & Hc' & Hv') Hs.
  unfold same_shape in *. rewrite <- Hb, <- Ht, <- Hc, <- Hb', <- Ht', <- Hc'.
  split; [exact Hs|].
  apply andb_prop in Hs. destruct Hs as [Hs Hs3].
  apply andb_prop in Hs. destruct Hs as [Hs1 Hs2].
  apply Nat.eqb_eq in Hs1, Hs2, Hs3.
  unfold agree_window. simpl. repeat split; auto.
  intros. f_equal; [apply Hv | apply Hv']; lia.
Qed.

Lemma agree_window_add_n_from (lo hi : nat) (l1 l2 : list (option Tensor3D)) :
  Forall2 (agree_window_opt lo hi) l1 l2 ->
  forall a1 a2 y1, agree_window lo hi a1 a2 -> add_n_from a1 l1 = Some y1 ->
    exists y2, add_n_from a2 l2 = Some y2 /\ agree_window lo hi y1 y2.
Proof.
  induction 1 as [|s1 s2 l1 l2 Hs _ IH]; intros a1 a2 y1 Ha H; simpl in *.
  - injection H as <-. eauto.
  - destruct s1 as [x1|]; [|discriminate].
    destruct s2 as [x2|]; [|contradiction]. simpl in Hs.
    destruct (same_shape a1 x1) eqn:E; [|discriminate].
    destruct (agree_window_tsum _ _ _ _ _ _ Ha Hs E) as [-> Hsum]. eauto.
Qed.

Lemma agree_window_add_n (lo hi : nat) (l1 l2 : list (option Tensor3D))
    (y1 : Tensor3D) :
  Forall2 (agree_window_opt lo hi) l1 l2 -> tf_add_n l1 = Some y1 ->
  exists y2, tf_add_n l2 = Some y2 /\ agree_window lo hi y1 y2.
Proof.
  intros Hl H. unfold tf_add_n in *.
  destruct Hl as [|s1 s2 l1 l2 Hs Hl]; [discriminate|].
  destruct s1 as [x1|]; [|discriminate].
  destruct s2 as [x2|]; [|contradiction].
  eapply agree_window_add_n_from; eauto.
Qed.

Lemma agree_window_head (net : WaveNet) (lo hi : nat) (x1 x2 y1 : Tensor3D) :
  WaveNet_wf true net -> ZeroConv1d_wf (WN_final_zero_conv net) ->
  agree_window lo hi x1 x2 -> WaveNet_head net x1 = Some y1 ->
  exists y2, WaveNet_head net x2 = Some y2 /\
    agree_window (lo + conv_span (Conv_conv (WN_final_conv net))) hi y1 y2.
Proof.
  intros Hwf [Hz1 Hzs] Hx H. unfold WaveNet_head in *. inv_bind H.
  destruct (agree_window_Conv_causal _ _ _ _ _ _ (wf_final _ _ Hwf)
              (wf_final_causal _ _ Hwf) (agree_window_tmap frelu _ _ _ _ Hx) Ha)
    as (o2 & -> & Ho). simpl.
  unfold ZeroConv1d_forward in *. inv_bind H.
  destruct (agree_window_Conv1D_1x1 _ _ _ _ _ _ Hz1
              (agree_window_tmap frelu _ _ _ _ Ho) Ha0) as (z2 & -> & Hzc).
  simpl. eapply agree_window_tbinop_scale; [exact Hzc | | exact H].
  unfold shape in Hzs. injection Hzs as _ Ht _. simpl. exact Ht.
Qed.

Lemma agree_window_WaveNet (net : WaveNet) (lo hi : nat)
    (x1 x2 : Tensor3D) (c : option Tensor3D) (y1 : Tensor3D) :
  WaveNet_wf true net -> ZeroConv1d_wf (WN_final_zero_conv net) ->
  agree_window lo hi x1 x2 -> aligned_with x1 c ->
  WaveNet_forward net x1 c = Some y1 ->
  exists y2, WaveNet_forward net x2 c = Some y2 /\
    agree_window (lo + WaveNet_reach net) hi y1 y2.
Proof.
  intros Hwf Hz Hx Hal H.
  unfold WaveNet_forward, WaveNet_blocks in *.
  inv_bind H. rename a into h1. inv_bind H. destruct a as [h1' sk1].
  destruct (agree_window_Conv_causal _ _ _ _ _ _ (wf_front _ _ Hwf)
              (wf_front_causal _ _ Hwf) Hx Ha) as (h2 & -> & Hh). simpl.
  destruct (Conv_forward_shape _ _ _ (wf_front _ _ Hwf)
              (causal_keeps_time _ (wf_front_causal _ _ Hwf)) Ha)
    as (Eb & Et & _).
  set (L := lo + conv_span (Conv_conv (WN_front_conv net))
            + list_sum (map ResBlock_reach (WN_res_blocks net))).
  destruct (agree_window_blocks (WN_skip net) x1 c hi L _ (wf_blocks _ _ Hwf)
              Hal _ (tmap frelu h1) (tmap frelu h2) [] [] h1' sk1 Eb Et
              (agree_window_tmap frelu _ _ _ _ Hh) (Nat.le_refl _)
              (Forall2_nil _) Ha0)
    as (h2' & sk2 & -> & Hh' & Hsk). simpl.
  assert (HR : lo + WaveNet_reach net
               = L + conv_span (Conv_conv (WN_final_conv net))).
  { unfold WaveNet_reach, L. lia. }
  rewrite HR.
  destruct (WN_skip net).
  - inv_bind H. destruct (agree_window_add_n _ _ _ _ _ Hsk Ha1)
      as (o2 & -> & Ho). simpl.
    eapply agree_window_head; eauto.
  - eapply agree_window_head; eauto.
Qed.

(** X7.  Receptive field.  A causal [Conv] looks back
    [dilation * (kernel_size - 1)] time steps, and a causal stack run with
    an aligned conditioning tensor looks back [WaveNet_reach] steps, the sum
    of the paddings of its dilated convolutions: if two inputs agree at the
    time indices from [lo] to [hi], so do the outputs from [lo + reach] to
    [hi].  The output at time [t] is therefore a function of the input
    samples [t - reach .. t] and of the conditioning tensor. *)
Theorem WaveNet_receptive_field (lo hi : nat) (x1 x2 : Tensor3D) :
  agree_window lo hi x1 x2 ->
  (forall cv y1, Conv_wf cv -> Conv_causal cv = true ->
     Conv_forward cv x1 = Some y1 ->
     exists y2, Conv_forward cv x2 = Some y2 /\
       agree_window (lo + conv_span (Conv_conv cv)) hi y1 y2) /\
  (forall net c y1, WaveNet_wf true net ->
     ZeroConv1d_wf (WN_final_zero_conv net) -> aligned_with x1 c ->
     WaveNet_forward net x1 c = Some y1 ->
     exists y2, WaveNet_forward net x2 c = Some y2 /\
       agree_window (lo + WaveNet_reach net) hi y1 y2).
Proof.
  intros Hx. split.
  - intros cv y1 Hwf Hc H. eapply agree_window_Conv_causal; eauto.
  - intros net c y1 Hwf Hz Hal H. eapply agree_window_WaveNet; eauto.
Qed.

(** ** The receptive field of a constructed stack *)






(** ** When the stack runs *)

Lemma tbinop_ok_same (f : F -> F -> F) (x y : Tensor3D) :
  shape x = shape y ->
  exists z, tbinop f x y = Some z /\ shape z = shape x.
Proof.
  unfold shape. intros [= Hb Ht Hc]. unfold tbinop.
  rewrite Hb, Ht, Hc, !bdim_same. simpl. eexists. split; reflexivity.
Qed.

Lemma Conv1D_call_1x1_ok (l : Conv1D) (x : Tensor3D) :
  is_1x1 l -> accepts_width l (chan x) = true -> 1 <= time x ->
  exists y, Conv1D_call l x = Some y /\
            shape y = (batch x, time x, filters l).
Proof.
  intros [Hk Hd] Hw Ht.
  pose proof (conv_span_1x1 l (conj Hk Hd)) as Hsp.
  rewrite Conv1D_call_ok by (try rewrite Hk; try rewrite Hd; try lia; auto).
  eexists. split; [reflexivity|]. unfold shape. simpl. rewrite Hsp.
  f_equal. f_equal. lia.
Qed.

Lemma Conv_forward_causal_ok (cv : Conv) (x : Tensor3D) :
  Conv_wf cv -> Conv_causal cv = true ->
  (1 <= kernel_size (Conv_conv cv))%Z -> (1 <= dilation_rate (Conv_conv cv))%Z ->
  accepts_width (Conv_conv cv) (chan x) = true -> 1 <= time x ->
  exists y, Conv_forward cv x = Some y /\
            shape y = (batch x, time x, filters (Conv_conv cv)).
Proof.
  intros Hwf Hc Hk Hd Hw Ht.
  destruct (Conv_forward_total cv x Hwf Hk Hd Hw Ht (or_introl Hc)) as [y Hy].
  exists y. split; [exact Hy|].
  destruct (Conv_forward_shape _ _ _ Hwf (causal_keeps_time _ Hc) Hy)
    as (Eb & Et & Ec).
  unfold shape. congruence.
Qed.

(** The layers of a freshly constructed block. *)
Lemma ResBlock_init_layers (i o : nat) (sk : option nat) (k d : Z)
    (cin : option nat) (lc causal : bool) (rb : ResBlock) :
  ResBlock_init i o sk k d cin lc causal = Some rb ->
  Conv_init i o k d causal = Some (RB_filter_conv rb) /\
  Conv_init i o k d causal = Some (RB_gate_conv rb) /\
  input_channels (RB_res_conv rb) = None /\
  match sk, RB_skip_conv rb with
  | Some sc, Some l => input_channels l = None /\ filters l = sc
  | None, None => True
  | _, _ => False
  end /\
  (lc = true ->
   exists lf lg, RB_filter_conv_c rb = Some lf /\ RB_gate_conv_c rb = Some lg /\
     input_channels lf = None /\ input_channels lg = None /\
     filters lf = o /\ filters lg = o).
Proof.
  unfold ResBlock_init. intros H.
  inv_bind H. rename a into fc. inv_bind H. rename a into gc.
  inv_bind H. rename a into rc. inv_bind H. rename a into sc.
  inv_bind H. rename a into fcc. inv_bind H. rename a into gcc.
  injection H as <-. simpl.
  split; [exact Ha|]. split; [exact Ha0|].
  apply Conv1D_init_1x1 in Ha1. destruct Ha1 as (_ & _ & Hri & _).
  split; [exact Hri|]. split.
  - destruct sk as [n|].
    + inv_bind Ha2. injection Ha2 as <-.
      apply Conv1D_init_1x1 in Ha1. destruct Ha1 as (_ & Hf & Hi & _). auto.
    + injection Ha2 as <-. exact I.
  - intros ->. inv_bind Ha3. injection Ha3 as <-.
    inv_bind Ha4. injection Ha4 as <-.
    apply Conv1D_init_1x1 in Ha1, Ha3.
    destruct Ha1 as (_ & Hf1 & Hi1 & _). destruct Ha3 as (_ & Hf2 & Hi2 & _).
    eexists _, _. repeat split; assumption.
Qed.

(** A freshly constructed causal block with conditioning runs on every
    non-empty stream of its output width with an aligned conditioning
    tensor. *)
Lemma ResBlock_forward_ok (i w : nat) (sk : option nat) (k d : Z)
    (cin : option nat) (rb : ResBlock) (s cx : Tensor3D) :
  ResBlock_init i w sk k d cin true true = Some rb ->
  (1 <= k)%Z -> (1 <= d)%Z ->
  chan s = w -> 1 <= time s ->
  batch cx = batch s -> time cx = time s ->
  exists ns sko,
    ResBlock_forward rb s (Some cx) = Some (ns, sko) /\
    shape ns = shape s /\
    match sk with
    | Some sc => exists t, sko = Some t /\ shape t = (batch s, time s, sc)
    | None => sko = None
    end.
Proof.
  intros Hinit Hk Hd Hs Ht Hcb Hct.
  pose proof (ResBlock_init_Some _ _ _ _ _ _ _ _ _ Hinit)
    as (Hwf & Hcs & Hlc & Hskip & _).
  destruct (ResBlock_init_layers _ _ _ _ _ _ _ _ _ Hinit)
    as (Hf & Hg & Hri & Hsc & Hcond).
  destruct (Hcond eq_refl) as (lf & lg & Elf & Elg & Ilf & Ilg & Flf & Flg).
  apply Conv_init_Some in Hf, Hg.
  destruct Hf as (_ & Hfw & Hfc & Hfk & Hfd & Hff & Hfi).
  destruct Hg as (_ & Hgw & Hgc & Hgk & Hgd & Hgf & Hgi).
  assert (Haf : accepts_width (Conv_conv (RB_filter_conv rb)) (chan s) = true)
    by (unfold accepts_width; rewrite Hfi; reflexivity).
  assert (Hag : accepts_width (Conv_conv (RB_gate_conv rb)) (chan s) = true)
    by (unfold accepts_width; rewrite Hgi; reflexivity).
  destruct (Conv_forward_causal_ok _ s Hfw Hfc ltac:(lia) ltac:(lia) Haf Ht)
    as (f & Ef & Sf).
  destruct (Conv_forward_causal_ok _ s Hgw Hgc ltac:(lia) ltac:(lia) Hag Ht)
    as (g & Eg & Sg).
  rewrite Hff in Sf. rewrite Hgf in Sg.
  pose proof (wf_filter_c _ Hwf) as H1f. pose proof (wf_gate_c _ Hwf) as H1g.
  rewrite Elf in H1f. rewrite Elg in H1g. simpl in H1f, H1g.
  assert (Hwf' : accepts_width lf (chan cx) = true)
    by (unfold accepts_width; rewrite Ilf; reflexivity).
  assert (Hwg' : accepts_width lg (chan cx) = true)
    by (unfold accepts_width; rewrite Ilg; reflexivity).
  destruct (Conv1D_call_1x1_ok lf cx H1f Hwf' ltac:(lia)) as (fc & Efc & Sfc).
  destruct (Conv1D_call_1x1_ok lg cx H1g Hwg' ltac:(lia)) as (gc & Egc & Sgc).
  rewrite Flf, Hcb, Hct in Sfc. rewrite Flg, Hcb, Hct in Sgc.
  destruct (tbinop_ok_same fadd f fc ltac:(congruence)) as (hf & Ehf & Shf).
  destruct (tbinop_ok_same fadd g gc ltac:(congruence)) as (hg & Ehg & Shg).
  assert (Sth : shape (tmap ftanh hf) = shape (tmap fsigmoid hg)).
  { unfold shape in *. simpl. congruence. }
  destruct (tbinop_ok_same fmul _ _ Sth) as (a & Ea & Sa).
  assert (Sa' : shape a = (batch s, time s, w)).
  { rewrite Sa. unfold shape in *. simpl. congruence. }
  assert (Hta : 1 <= time a).
  { unfold shape in Sa'. injection Sa' as _ E _. lia. }
  assert (Har : accepts_width (RB_res_conv rb) (chan a) = true)
    by (unfold accepts_width; rewrite Hri; reflexivity).
  destruct (Conv1D_call_1x1_ok _ a (wf_res _ Hwf) Har Hta) as (r & Er & Sr).
  assert (Hro : filters (RB_res_conv rb) = w).
  { apply ResBlock_init_Some in Hinit. unfold ResBlock_out_channels in Hinit.
    tauto. }
  assert (Ssr : shape s = shape r).
  { rewrite Sr, Hro. unfold shape in *. congruence. }
  destruct (tbinop_ok_same fadd s r Ssr) as (sum & Esum & Ssum).
  assert (Hsko : exists sko, ResBlock_skip_of rb a = Some sko /\
            match sk with
            | Some sc => exists t, sko = Some t /\
                                   shape t = (batch s, time s, sc)
            | None => sko = None
            end).
  { unfold ResBlock_skip_of. rewrite Hskip.
    pose proof (wf_skip_conv _ Hwf) as H1s.
    destruct sk as [sc|]; destruct (RB_skip_conv rb) as [l|];
      try contradiction; simpl in *.
    - destruct Hsc as [Hli Hlf].
      assert (Hal : accepts_width l (chan a) = true)
        by (unfold accepts_width; rewrite Hli; reflexivity).
      destruct (Conv1D_call_1x1_ok l a H1s Hal Hta) as (t & Et & St).
      rewrite Et. simpl. eexists. split; [reflexivity|].
      exists t. split; [reflexivity|]. rewrite St, Hlf.
      unfold shape in *. congruence.
    - eexists. split; reflexivity. }
  destruct Hsko as (sko & Esk & Hsk).
  unfold ResBlock_forward, ResBlock_activated, ResBlock_condition.
  rewrite Ef, Eg, Hlc, Elf, Elg. simpl. rewrite Efc. simpl.
  unfold tadd, tmul. rewrite Ehf. simpl. rewrite Egc. simpl.
  rewrite Ehg. simpl. rewrite Ea. simpl. rewrite Er. simpl.
  rewrite Esk. simpl. rewrite Esum. simpl.
  eexists _, _. split; [reflexivity|]. split; [|exact Hsk].
  unfold shape in *. simpl. congruence.
Qed.

Lemma Forall2_Forall_r_in {A B : Type} (R : A -> B -> Prop) (Q : B -> Prop)
    (l : list A) (l' : list B) :
  Forall2 R l l' -> (forall a b, In a l -> R a b -> Q b) -> Forall Q l'.
Proof.
  induction 1 as [|a b l l' Hab _ IH]; intros HQ; constructor.
  - apply (HQ a b); [left; reflexivity|exact Hab].
  - apply IH. intros a' b' Hin. apply HQ. right. exact Hin.
Qed.

(** Every block of the list built by [WaveNet.__init__] has a dilation
    [kernel_size ^ n] with [0 <= n]. *)
Lemma build_res_blocks_pow (nb nl : Z) (rc gc : nat) (sk : option nat)
    (k : Z) (cin : option nat) (causal : bool) (blocks : list ResBlock) :
  build_res_blocks nb nl rc gc sk k cin causal = Some blocks ->
  Forall (fun rb => exists n, (0 <= n)%Z /\
            ResBlock_init rc gc sk k (k ^ n) cin true causal = Some rb) blocks.
Proof.
  unfold build_res_blocks. intros H.
  apply (for_each_rows
           (fun n => ResBlock_init rc gc sk k (k ^ n) cin true causal)) in H.
  destruct H as (rows & -> & _ & Hrows). simpl.
  apply Forall_concat. eapply Forall_impl; [|exact Hrows].
  intros row Hrow. simpl in Hrow.
  eapply Forall2_Forall_r_in; [exact Hrow|]. intros n rb Hin Hn.
  exists n. split; [|exact Hn].
  unfold py_range in Hin. apply in_map_iff in Hin.
  destruct Hin as (j & <- & _). lia.
Qed.

Lemma add_n_from_ok (l : list (option Tensor3D)) :
  forall acc,
    Forall (fun s => exists t, s = Some t /\ shape t = shape acc) l ->
    exists y, add_n_from acc l = Some y /\ shape y = shape acc.
Proof.
  induction l as [|s l IH]; intros acc Hall; simpl.
  - eauto.
  - inversion Hall as [|? ? (t & -> & St) Hl]; subst.
    assert (Hss : same_shape acc t = true).
    { unfold shape in St. injection St as Eb Et Ec. unfold same_shape.
      rewrite Eb, Et, Ec, !Nat.eqb_refl. reflexivity. }
    rewrite Hss.
    destruct (IH (tsum acc t)) as (y & Ey & Sy).
    + eapply Forall_impl; [|exact Hl]. intros s' (t' & -> & St').
      exists t'. split; [reflexivity|]. rewrite St'. reflexivity.
    + exists y. split; [exact Ey|]. rewrite Sy. reflexivity.
Qed.

(** The loop over freshly constructed blocks of equal input and output
    width runs to its end on a non-empty stream. *)
Lemma WaveNet_blocks_ok (w : nat) (sk : option nat) (k : Z)
    (cin : option nat) (x cx : Tensor3D) (blocks : list ResBlock) :
  Forall (fun rb => exists d, (1 <= d)%Z /\
            ResBlock_init w w sk k d cin true true = Some rb) blocks ->
  (1 <= k)%Z -> 1 <= time x ->
  batch cx = batch x -> time cx = time x ->
  forall h acc,
    shape h = (batch x, time x, w) ->
    exists h' acc',
      for_each (WaveNet_step (is_not_None sk) (Some cx)) blocks (h, acc)
        = Some (h', acc') /\
      shape h' = (batch x, time x, w) /\
      match sk with
      | Some sc =>
          exists new, acc' = acc ++ new /\ length new = length blocks /\
            Forall (fun s => exists t, s = Some t /\
                               shape t = (batch x, time x, sc)) new
      | None => acc' = acc
      end.
Proof.
  intros Hall Hk Ht Hcb Hct.
  induction Hall as [|rb blocks (d & Hd & Hinit) _ IH]; intros h acc Sh.
  - simpl. exists h, acc. split; [reflexivity|]. split; [exact Sh|].
    destruct sk; [|reflexivity].
    exists []. rewrite app_nil_r. auto.
  - assert (Hh : chan h = w /\ batch h = batch x /\ time h = time x).
    { unfold shape in Sh. injection Sh as -> -> ->. auto. }
    destruct Hh as (Hhc & Hhb & Hht).
    destruct (ResBlock_forward_ok w w sk k d cin rb h cx Hinit Hk Hd Hhc
                ltac:(lia) ltac:(congruence) ltac:(congruence))
      as (ns & sko & Ef & Sns & Hsko).
    assert (Sns' : shape ns = (batch x, time x, w)) by congruence.
    cbn [for_each]. unfold WaveNet_step at 1.
    destruct sk as [sc|]; cbn [is_not_None]; rewrite Ef; cbn [bind].
    + destruct Hsko as (t & -> & St).
      destruct (IH ns (acc ++ [Some t]) Sns') as (h' & acc' & E & Sh' & Hacc).
      destruct Hacc as (new & -> & Hlen & Hnew).
      exists h', ((acc ++ [Some t]) ++ new).
      split; [exact E|]. split; [exact Sh'|].
      exists (Some t :: new). rewrite <- app_assoc. simpl.
      split; [reflexivity|]. split; [lia|].
      constructor; [|exact Hnew].
      exists t. split; [reflexivity|]. rewrite St. congruence.
    + destruct (IH ns acc Sns') as (h' & acc' & E & Sh' & ->).
      exists h', acc. auto.
Qed.

Lemma ZeroConv1d_forward_ok (i o : nat) (z : ZeroConv1d) (x : Tensor3D) :
  ZeroConv1d_init i o = Some z -> 1 <= time x ->
  exists y, ZeroConv1d_forward z x = Some y /\
            shape y = (batch x, time x, o).
Proof.
  intros Hz Ht. apply ZeroConv1d_init_Some in Hz. subst z.
  unfold ZeroConv1d_forward. cbn [Zero_conv Zero_scale].
  set (l := {| filters := o; kernel_size := 1; dilation_rate := 1;
               input_channels := None; kernel := zeros3; bias := zeros1 |}).
  assert (H1 : is_1x1 l) by (split; reflexivity).
  assert (Hw : accepts_width l (chan x) = true) by reflexivity.
  destruct (Conv1D_call_1x1_ok l x H1 Hw Ht) as (out & Eo & So).
  rewrite Eo. cbn [bind]. unfold tmul, tbinop. simpl.
  unfold shape in So. injection So as Eb Et Ec. simpl in Ec.
  rewrite !bdim_one_r, Ec, bdim_same. simpl.
  eexists. split; [reflexivity|]. unfold shape. simpl. congruence.
Qed.

(** X13.  A freshly constructed causal stack whose [residual_channels] and
    [gate_channels] are equal, with a kernel size of at least 1 and, when it
    has a skip path, at least one block, runs on every non-empty input
    together with a conditioning tensor of the input's batch size and
    time-length, whatever their numbers of channels; the result has the
    shape (batch, time, out_channels). *)
Theorem WaveNet_forward_runs (i o : nat) (nb nl : Z) (w : nat)
    (sk : option nat) (k : Z) (cin : option nat) (net : WaveNet)
    (x cx : Tensor3D) :
  WaveNet_init i o nb nl w w sk k cin true = Some net ->
  (1 <= k)%Z ->
  (sk <> None -> (1 <= nb)%Z /\ (1 <= nl)%Z) ->
  1 <= time x ->
  batch cx = batch x -> time cx = time x ->
  exists y, WaveNet_forward net x (Some cx) = Some y /\
            shape y = (batch x, time x, o).
Proof.
  intros Hinit Hk Hsk Hxt Hcb Hct.
  pose proof (WaveNet_init_Some _ _ _ _ _ _ _ _ _ _ _ Hinit)
    as (_ & Hskip & Hblocks).
  pose proof (build_res_blocks_Some _ _ _ _ _ _ _ _ _ Hblocks) as (Hlen & _).
  apply build_res_blocks_pow in Hblocks.
  unfold WaveNet_init in Hinit.
  inv_bind Hinit. rename a into fc. inv_bind Hinit. rename a into blocks.
  inv_bind Hinit. rename a into lc. inv_bind Hinit. rename a into z.
  injection Hinit as <-. cbn [WN_skip WN_res_blocks] in *.
  apply Conv_init_Some in Ha, Ha1.
  destruct Ha as (_ & Hfw & Hfc & Hfk & Hfd & Hff & Hfi).
  destruct Ha1 as (_ & Hlw & Hlc & Hlk & Hld & Hlf & Hli).
  set (last := match sk with Some sc => sc | None => w end) in *.
  (* the entry convolution *)
  assert (Haf : accepts_width (Conv_conv fc) (chan x) = true)
    by (unfold accepts_width; rewrite Hfi; reflexivity).
  destruct (Conv_forward_causal_ok fc x Hfw Hfc ltac:(lia) ltac:(lia) Haf Hxt)
    as (h0 & Eh0 & Sh0).
  rewrite Hff in Sh0.
  (* the blocks *)
  assert (Hall : Forall (fun rb => exists d, (1 <= d)%Z /\
            ResBlock_init w w sk k d cin true true = Some rb) blocks).
  { eapply Forall_impl; [|exact Hblocks]. intros rb (n & Hn & E).
    exists (k ^ n)%Z. split; [|exact E].
    pose proof (Z.pow_le_mono_l 1 k n ltac:(lia)) as Hp.
    rewrite Z.pow_1_l in Hp by exact Hn. exact Hp. }
  destruct (WaveNet_blocks_ok w sk k cin x cx blocks Hall Hk Hxt Hcb Hct
              (tmap frelu h0) [] Sh0) as (h' & acc' & Eb & Sh' & Hacc).
  (* the output projection *)
  assert (Hhead : forall out, shape out = (batch x, time x, last) ->
            exists y, WaveNet_head
                        {| WN_skip := is_not_None sk; WN_front_conv := fc;
                           WN_res_blocks := blocks; WN_final_conv := lc;
                           WN_final_zero_conv := z |} out = Some y /\
                      shape y = (batch x, time x, o)).
  { intros out So. unfold shape in So. injection So as Ob Ot Oc.
    unfold WaveNet_head. cbn [WN_final_conv WN_final_zero_conv].
    assert (Hal : accepts_width (Conv_conv lc) (chan (tmap frelu out)) = true)
      by (unfold accepts_width; rewrite Hli; reflexivity).
    destruct (Conv_forward_causal_ok lc (tmap frelu out) Hlw Hlc
                ltac:(lia) ltac:(lia) Hal ltac:(simpl; lia))
      as (m & Em & Sm).
    rewrite Em. cbn [bind].
    unfold shape in Sm. injection Sm as Mb Mt Mc. simpl in Mb, Mt.
    destruct (ZeroConv1d_forward_ok last o z (tmap frelu m) Ha2
                ltac:(simpl; lia)) as (y & Ey & Sy).
    exists y. split; [exact Ey|]. rewrite Sy. simpl. congruence. }
  unfold WaveNet_forward, WaveNet_blocks.
  cbn [WN_skip WN_front_conv WN_res_blocks].
  rewrite Eh0. cbn [bind]. rewrite Eb. cbn [bind].
  destruct sk as [sc|]; cbn [is_not_None].
  - destruct (Hsk ltac:(discriminate)) as [Hnb Hnl].
    destruct Hacc as (new & -> & Hnew & Hfor). simpl.
    destruct new as [|s new].
    { simpl in Hnew. rewrite <- Hnew in Hlen. nia. }
    inversion Hfor as [|? ? (t & -> & St) Hrest]; subst.
    unfold tf_add_n.
    destruct (add_n_from_ok new t) as (out & Eout & Sout).
    { eapply Forall_impl; [|exact Hrest]. intros s' (t' & -> & St').
      exists t'. split; [reflexivity|]. congruence. }
    rewrite Eout. cbn [bind]. apply Hhead. rewrite Sout. exact St.
  - apply Hhead. exact Sh'.
Qed.

Lemma Conv_forward_chan (cv : Conv) (x y : Tensor3D) :
  Conv_wf cv -> Conv_forward cv x = Some y ->
  chan y = filters (Conv_conv cv).
Proof.
  intros Hwf H. rewrite (Conv_forward_is_spec _ _ Hwf) in H.
  unfold Conv_forward_spec in H. inv_bind H. inv_bind H.
  destruct (Conv1D_call_Some _ _ _ Ha0) as (_ & _ & _ & _ & ->).
  injection H as <-.
  destruct (Conv_causal cv && negb (Conv_padding_amount cv =? 0)%Z);
    reflexivity.
Qed.

Lemma ResBlock_forward_widths (rb : ResBlock) (s : Tensor3D)
    (c : option Tensor3D) (ns : Tensor3D) (sk : option Tensor3D) :
  ResBlock_wf rb -> ResBlock_forward rb s c = Some (ns, sk) ->
  chan s = ResBlock_out_channels rb \/ chan s = 1 \/
  ResBlock_out_channels rb = 1.
Proof.
  intros Hwf H.
  destruct (ResBlock_forward_inv _ _ _ _ _ H)
    as (a & res & sum & _ & Hres & _ & Hsum & _).
  destruct (Conv1D_call_shape _ _ _ (wf_res _ Hwf) Hres) as (_ & _ & Hc).
  destruct (tbinop_Some _ _ _ _ Hsum) as (_ & _ & Hb & _).
  rewrite Hc in Hb. apply bdim_Some in Hb.
  unfold ResBlock_out_channels. lia.
Qed.

(** X14.  A constructed stack with at least one block whose
    [residual_channels] and [gate_channels] differ, neither being 1, never
    runs: the first block receives a stream of [residual_channels] channels
    and adds to it a tensor of [gate_channels] channels. *)
Theorem WaveNet_unequal_widths_fail (i o : nat) (nb nl : Z) (rc gc : nat)
    (sk : option nat) (k : Z) (cin : option nat) (causal : bool)
    (net : WaveNet) (x : Tensor3D) (c : option Tensor3D) :
  WaveNet_init i o nb nl rc gc sk k cin causal = Some net ->
  (1 <= nb)%Z -> (1 <= nl)%Z ->
  rc <> gc -> rc <> 1 -> gc <> 1 ->
  WaveNet_forward net x c = None.
Proof.
  intros Hinit Hnb Hnl Hne Hr1 Hg1.
  pose proof (WaveNet_init_Some _ _ _ _ _ _ _ _ _ _ _ Hinit)
    as (Hwf & _ & Hblocks).
  apply build_res_blocks_Some in Hblocks.
  destruct Hblocks as (Hlen & _ & Hall).
  assert (Hfront : filters (Conv_conv (WN_front_conv net)) = rc).
  { unfold WaveNet_init in Hinit. inv_bind Hinit. inv_bind Hinit.
    inv_bind Hinit. inv_bind Hinit. injection Hinit as <-. simpl.
    apply Conv_init_Some in Ha. tauto. }
  unfold WaveNet_forward, WaveNet_blocks.
  destruct (Conv_forward (WN_front_conv net) x) as [h|] eqn:Eh;
    [|reflexivity].
  apply (Conv_forward_chan _ _ _ (wf_front _ _ Hwf)) in Eh.
  cbn [bind].
  destruct (WN_res_blocks net) as [|rb blocks].
  { simpl in Hlen. nia. }
  pose proof (Forall_inv Hall) as [d Hd].
  apply ResBlock_init_Some in Hd.
  destruct Hd as (Hrwf & _ & _ & _ & _ & _ & _ & Ho & _).
  assert (Hfail : ResBlock_forward rb (tmap frelu h) c = None).
  { destruct (ResBlock_forward rb (tmap frelu h) c) as [[ns s]|] eqn:E;
      [|reflexivity].
    apply (ResBlock_forward_widths _ _ _ _ _ Hrwf) in E.
    rewrite Ho in E. simpl in E. rewrite Eh, Hfront in E. lia. }
  cbn [for_each]. unfold WaveNet_step at 1.
  destruct (WN_skip net); rewrite Hfail; reflexivity.
Qed.

(** X15.  A non-causal [Conv] computes the centred dilated convolution:
    with [span = dilation * (kernel_size - 1)] and [half] its integer half,
    tap [k] multiplies the input sample at [t + k * dilation - half], so the
    output at [t] reads the input up to [span - half] steps after [t]; the
    result has [time + 2 * half - span] time steps. *)
Theorem Conv_forward_is_centered_convolution (cv : Conv) (x y : Tensor3D) :
  Conv_wf cv -> Conv_causal cv = false -> Conv_forward cv x = Some y ->
  let span := conv_span (Conv_conv cv) in
  shape y = (batch x, time x + 2 * (span / 2) - span, filters (Conv_conv cv)) /\
  forall b t co, val y b t co = centered_conv_at (Conv_conv cv) x b t co.
Proof.
  intros Hwf Hc Hy span.
  rewrite (Conv_forward_is_spec _ _ Hwf) in Hy.
  unfold Conv_forward_spec, Conv_padding_amount in Hy. rewrite Hc in Hy.
  cbv zeta in Hy. inv_bind Hy. rename a into padded.
  inv_bind Hy. rename a into out. cbn [andb] in Hy. injection Hy as <-.
  destruct (tf_pad_time_Some _ _ _ Ha) as (Hp0 & Hpb & Hpc & Hpt & Hpv).
  destruct (Conv1D_call_Some _ _ _ Ha0) as (Hk & Hd & _ & _ & ->).
  assert (Hhalf : Z.to_nat (dilation_rate (Conv_conv cv)
                            * (kernel_size (Conv_conv cv) - 1) / 2)
                  = span / 2).
  { unfold span, conv_span. rewrite Z2Nat.inj_div by nia. reflexivity. }
  rewrite Hhalf in Hpt, Hpv.
  split.
  - unfold shape. cbn [batch time chan]. rewrite Hpb, Hpt.
    fold span. f_equal. f_equal. lia.
  - intros b t co. cbn [val]. unfold conv_at, centered_conv_at.
    rewrite Hpc. f_equal.
    apply sum_upto_ext. intros k _. apply sum_upto_ext. intros ci _.
    cbv zeta. rewrite Hpv. fold span. reflexivity.
Qed.

End Further.

(** * Properties of the training schedule and of the preprocessing *)

(** X9.  The learning rate of [get_optimizer] is 0.001 before step 200000,
    a half of it up to step 400000, a quarter up to step 600000 and a sixth
    from then on; it never increases with the step. *)
Theorem learning_rate_schedule (s1 s2 : Z) :
  ((s1 < 200000)%Z -> get_optimizer_learning_rate s1 = (1 # 1000)%Q) /\
  ((200000 <= s1 < 400000)%Z ->
     get_optimizer_learning_rate s1 = (1 # 2000)%Q) /\
  ((400000 <= s1 < 600000)%Z ->
     get_optimizer_learning_rate s1 = (1 # 4000)%Q) /\
  ((600000 <= s1)%Z -> get_optimizer_learning_rate s1 = (1 # 6000)%Q) /\
  ((s1 <= s2)%Z ->
     (get_optimizer_learning_rate s2 <= get_optimizer_learning_rate s1)%Q).
Proof.
  unfold get_optimizer_learning_rate.
  repeat split; intros H;
    repeat match goal with
           | |- context [(?a <? ?b)%Z] => destruct (Z.ltb_spec a b)
           end; try lia; try reflexivity; cbv; discriminate.
Qed.

(** X10.  For a positive hop size, the padding step of
    [_process_utterance] succeeds and returns the waveform between [pad_l]
    and [pad_r] zeros, with [pad_l <= pad_r <= pad_l + 1]; the padded length
    is the smallest multiple of the hop size strictly above the original
    length, so a waveform whose length is already a multiple gets a whole
    extra hop.  A hop size of 0 is a division error. *)
Theorem pad_utterance_next_multiple {A : Type} (zero : A) (out : list A)
    (hop_size : Z) :
  (0 < hop_size)%Z ->
  let n := Z.of_nat (length out) in
  exists pad padded,
    utterance_pad n hop_size = Some pad /\
    pad_utterance zero out hop_size = Some padded /\
    padded = repeat zero (Z.to_nat (utterance_pad_l pad)) ++ out
             ++ repeat zero (Z.to_nat (utterance_pad_r pad)) /\
    (0 <= utterance_pad_l pad <= utterance_pad_r pad)%Z /\
    (utterance_pad_r pad <= utterance_pad_l pad + 1)%Z /\
    (utterance_pad_l pad + utterance_pad_r pad = pad)%Z /\
    (1 <= pad <= hop_size)%Z /\
    Z.of_nat (length padded) = ((n / hop_size + 1) * hop_size)%Z /\
    (Z.of_nat (length padded) mod hop_size = 0)%Z /\
    (n mod hop_size = 0 -> pad = hop_size)%Z /\
    pad_utterance zero out 0 = None.
Proof.
  intros Hhop n.
  unfold pad_utterance, utterance_pad, py_floordiv. fold n.
  destruct (Z.eqb_spec hop_size 0) as [E|_]; [lia|]. simpl.
  set (pad := ((n / hop_size + 1) * hop_size - n)%Z).
  pose proof (Z.div_mod n hop_size ltac:(lia)) as Hdm.
  pose proof (Z.mod_pos_bound n hop_size Hhop) as Hmod.
  assert (Hpad : (1 <= pad <= hop_size)%Z) by (unfold pad; nia).
  pose proof (Z.div_mod pad 2 ltac:(lia)) as Hdm2.
  pose proof (Z.mod_pos_bound pad 2 ltac:(lia)) as Hmod2.
  assert (Hl : (0 <= pad / 2)%Z) by (apply Z.div_pos; lia).
  unfold np_pad_constant, utterance_pad_l, utterance_pad_r.
  destruct (Z.ltb_spec (pad / 2) 0); [lia|].
  destruct (Z.ltb_spec (pad / 2 + pad mod 2) 0); [lia|]. simpl.
  exists pad. eexists. split; [reflexivity|]. split; [reflexivity|].
  split; [reflexivity|].
  assert (Hlen : Z.of_nat (length (repeat zero (Z.to_nat (pad / 2)) ++ out
                    ++ repeat zero (Z.to_nat (pad / 2 + pad mod 2))))
                 = ((n / hop_size + 1) * hop_size)%Z).
  { rewrite !length_app, !repeat_length. unfold pad in *. lia. }
  split; [lia|]. split; [lia|]. split; [lia|]. split; [exact Hpad|].
  split; [exact Hlen|]. split; [rewrite Hlen; apply Z.mod_mul; lia|].
  split; [intros Hz; unfold pad; nia | reflexivity].
Qed.

Section BuildFromPathFacts.

Variables Book Line Path : Type.
Variable fields : Line -> list String.string.
Variable wav_path : Book -> String.string -> Path.

Lemma for_each_app {A St : Type} (body : St -> A -> option St)
    (l1 l2 : list A) (st : St) :
  for_each body (l1 ++ l2) st = (st' <- for_each body l1 st ;; for_each body l2 st').
Proof.
  revert st. induction l1 as [|a l1 IH]; intros st; simpl; [reflexivity|].
  destruct (body st a); simpl; [apply IH | reflexivity].
Qed.

Lemma for_each_inner_map {A B St : Type} (body : St -> B -> option St)
    (g : A -> B) (l : list A) (st : St) :
  for_each (fun st a => body st (g a)) l st = for_each body (map g l) st.
Proof.
  revert st. induction l as [|a l IH]; intros st; simpl; [reflexivity|].
  destruct (body st (g a)); simpl; [apply IH | reflexivity].
Qed.

(** The two nested loops are one loop over all lines. *)
Lemma build_books_flat (books : list (Book * list Line))
    (st : BuildState Path) :
  for_each (build_book fields wav_path) books st
  = for_each (build_step fields wav_path) (all_lines books) st.
Proof.
  revert st. induction books as [|[b ls] books IH]; intros st; [reflexivity|].
  unfold all_lines. simpl. rewrite for_each_app.
  unfold build_book at 1. simpl.
  rewrite <- (for_each_inner_map (build_step fields wav_path)
                (fun l => (b, l)) ls st).
  unfold build_step at 1. simpl.
  destruct (for_each _ ls st); simpl; [apply IH | reflexivity].
Qed.

Lemma build_step_Some (st st' : BuildState Path) (bl : Book * Line) :
  build_step fields wav_path st bl = Some st' ->
  exists p0 t,
    nth_error (fields (snd bl)) 0 = Some p0 /\
    match nth_error (fields (snd bl)) 2 with
    | Some t' => t = t'
    | None => bs_text st = Some t
    end /\
    st' = {| bs_index := bs_index st + 1; bs_text := Some t;
             bs_futures := bs_futures st
               ++ [mkUtterance (bs_index st) (wav_path (fst bl) p0) t] |}.
Proof.
  unfold build_step, build_line. cbv zeta. intros H.
  destruct (nth_error (fields (snd bl)) 0) as [p0|] eqn:E0; cbn [bind] in H;
    [|discriminate].
  destruct (nth_error (fields (snd bl)) 2) as [t2|] eqn:E2; cbn [bind] in H.
  - injection H as <-. exists p0, t2. repeat split.
  - destruct (bs_text st) as [t|] eqn:Et; cbn [bind] in H; [|discriminate].
    injection H as <-. exists p0, t. repeat split.
Qed.

(** What the loop appends to [futures], starting from any state. *)
Lemma build_loop_spec (lines : list (Book * Line)) :
  forall st st',
    for_each (build_step fields wav_path) lines st = Some st' ->
    exists new,
      bs_futures st' = bs_futures st ++ new /\
      length new = length lines /\
      forall i bl, nth_error lines i = Some bl ->
        exists c p0,
          nth_error new i = Some c /\
          utt_index c = (bs_index st + Z.of_nat i)%Z /\
          nth_error (fields (snd bl)) 0 = Some p0 /\
          utt_wav_path c = wav_path (fst bl) p0 /\
          match nth_error (fields (snd bl)) 2 with
          | Some t => utt_text c = t
          | None =>
              match i with
              | 0 => bs_text st = Some (utt_text c)
              | Datatypes.S j =>
                  exists c', nth_error new j = Some c' /\
                             utt_text c = utt_text c'
              end
          end.
Proof.
  induction lines as [|bl0 lines IH]; intros st st' H; simpl in H.
  - injection H as <-. exists []. rewrite app_nil_r.
    split; [reflexivity|]. split; [reflexivity|].
    intros [|i] bl Hbl; discriminate Hbl.
  - inv_bind H. rename a into st1.
    destruct (build_step_Some _ _ _ Ha) as (p0 & t0 & Hp0 & Ht0 & ->).
    destruct (IH _ _ H) as (new & Hnew & Hlen & Hspec).
    cbn [bs_index bs_text bs_futures] in Hnew, Hspec.
    set (c0 := mkUtterance (bs_index st) (wav_path (fst bl0) p0) t0) in *.
    exists (c0 :: new). rewrite Hnew, <- app_assoc.
    split; [reflexivity|]. split; [simpl; congruence|].
    intros [|i] bl Hbl; simpl in Hbl.
    + injection Hbl as <-. exists c0, p0.
      split; [reflexivity|]. split; [simpl; lia|]. split; [exact Hp0|].
      split; [reflexivity|].
      destruct (nth_error (fields (snd bl0)) 2); exact Ht0.
    + destruct (Hspec i bl Hbl) as (c & q0 & Hc & Hidx & Hq0 & Hpath & Htext).
      exists c, q0.
      split; [exact Hc|]. split; [lia|]. split; [exact Hq0|].
      split; [exact Hpath|].
      destruct (nth_error (fields (snd bl)) 2); [exact Htext|].
      destruct i as [|j].
      * exists c0. split; [reflexivity|]. injection Htext as <-. reflexivity.
      * exact Htext.
Qed.

Lemma build_loop_ok (lines : list (Book * Line)) :
  forall st,
    (forall bl, In bl lines -> fields (snd bl) <> []) ->
    bs_text st <> None ->
    exists st', for_each (build_step fields wav_path) lines st = Some st'.
Proof.
  induction lines as [|bl lines IH]; intros st Hne Ht; [simpl; eauto|].
  cbn [for_each].
  assert (Hstep : exists st1, build_step fields wav_path st bl = Some st1 /\
                              bs_text st1 <> None).
  { unfold build_step, build_line. cbv zeta.
    destruct (fields (snd bl)) as [|p0 ps] eqn:E.
    - exfalso. apply (Hne bl); [left; reflexivity | exact E].
    - destruct (bs_text st) as [t|]; [|contradiction].
      destruct ps as [|p1 [|p2 ps]]; cbn; eexists;
        (split; [reflexivity | cbn; discriminate]). }
  destruct Hstep as (st1 & -> & Hst1). cbn [bind].
  apply IH; [|exact Hst1]. intros b Hb. apply Hne. right. exact Hb.
Qed.

(** X11.  When [build_from_path] gets through the metadata, it submits one
    call per line, in the order of the books and of their lines, numbered
    from 1; the wav path comes from the first field of the line.  The text
    is the third field of the line, and for a line with fewer than three
    fields it is the text of the call before it, even across books. *)
Theorem build_from_path_calls_spec (books : list (Book * list Line))
    (calls : list (Utterance Path)) :
  build_from_path_calls fields wav_path books = Some calls ->
  length calls = length (all_lines books) /\
  forall i bl, nth_error (all_lines books) i = Some bl ->
    exists c p0,
      nth_error calls i = Some c /\
      utt_index c = (1 + Z.of_nat i)%Z /\
      nth_error (fields (snd bl)) 0 = Some p0 /\
      utt_wav_path c = wav_path (fst bl) p0 /\
      match nth_error (fields (snd bl)) 2 with
      | Some t => utt_text c = t
      | None =>
          exists j c', i = Datatypes.S j /\ nth_error calls j = Some c' /\
                       utt_text c = utt_text c'
      end.
Proof.
  unfold build_from_path_calls. intros H. inv_bind H. injection H as <-.
  rewrite build_books_flat in Ha.
  destruct (build_loop_spec _ _ _ Ha) as (new & Hnew & Hlen & Hspec).
  cbn [bs_index bs_text bs_futures app] in Hnew, Hspec.
  rewrite Hnew. split; [exact Hlen|].
  intros i bl Hbl.
  destruct (Hspec i bl Hbl) as (c & p0 & Hc & Hidx & Hp0 & Hpath & Htext).
  exists c, p0. repeat (split; [assumption|]).
  destruct (nth_error (fields (snd bl)) 2); [exact Htext|].
  destruct i as [|j]; [discriminate Htext|].
  destruct Htext as (c' & Hc' & Ht). exists j, c'. auto.
Qed.

(** X12.  [build_from_path] cannot submit anything when the first line of
    the metadata has fewer than three fields: [text] is read before any
    assignment.  When the first line has three fields (and every line has
    a field, as [split] guarantees), all calls are submitted, whatever the
    number of fields of the later lines. *)
Theorem build_from_path_calls_fails (books : list (Book * list Line)) :
  (forall bl rest, all_lines books = bl :: rest ->
     nth_error (fields (snd bl)) 2 = None ->
     build_from_path_calls fields wav_path books = None) /\
  ((forall bl, In bl (all_lines books) -> fields (snd bl) <> []) ->
   (forall bl rest, all_lines books = bl :: rest ->
      nth_error (fields (snd bl)) 2 <> None) ->
   exists calls, build_from_path_calls fields wav_path books = Some calls).
Proof.
  unfold build_from_path_calls. split.
  - intros bl rest E Hno. rewrite build_books_flat, E. cbn [for_each].
    unfold build_step at 1, build_line. cbv zeta. rewrite Hno.
    destruct (nth_error (fields (snd bl)) 0); reflexivity.
  - intros Hne Hfirst. rewrite build_books_flat.
    destruct (all_lines books) as [|bl rest] eqn:E; [simpl; eauto|].
    cbn [for_each].
    assert (Hstep : exists st1,
              build_step fields wav_path
                {| bs_index := 1; bs_text := None; bs_futures := [] |} bl
              = Some st1 /\ bs_text st1 <> None).
    { unfold build_step, build_line. cbv zeta.
      specialize (Hfirst bl rest eq_refl).
      destruct (fields (snd bl)) as [|p0 [|p1 [|p2 ps]]] eqn:Ef;
        try (exfalso; apply Hfirst; reflexivity).
      cbn. eexists. split; [reflexivity | cbn; discriminate]. }
    destruct Hstep as (st1 & -> & Hst1). cbn [bind].
    destruct (build_loop_ok rest st1) as [st' Hst'].
    + intros b Hb. apply Hne. right. exact Hb.
    + exact Hst1.
    + rewrite Hst'. simpl. eauto.
Qed.

End BuildFromPathFacts.

(** * Concrete runs over the real numbers *)

Lemma R_zero_laws : @ZeroLaws RScalar (fun _ => True).
Proof.
  constructor; simpl.
  - intros x _. apply Rmult_0_r.
  - apply Rplus_0_l.
  - apply Rmult_0_l.
  - apply exp_0.
  - apply Rmult_0_l.
Qed.


Lemma demo_agree : agree_upto 1 demo_x demo_x'.
Proof.
  unfold agree_upto. simpl. repeat split.
  intros b t' c Hb Ht _ Hc.
  destruct b as [|b]; [|lia]. destruct c as [|c]; [|lia].
  destruct t' as [|[|t']]; [reflexivity | reflexivity | lia].
Qed.

(** Running the model: a causal convolution with two taps of weight 1
    sums each sample with its predecessor. *)
Example Conv_forward_runs :
  exists cv y, Conv_init 1 1 2 1 true = Some cv /\
    Conv_forward cv demo_x = Some y /\
    shape y = (1, 3, 1) /\
    val y 0 0 0 = 1%R /\ val y 0 1 0 = 3%R /\ val y 0 2 0 = 5%R.
Proof.
  eexists. eexists. split; [reflexivity|]. split; [reflexivity|].
  split; [reflexivity|]. cbv -[Rplus Rmult IZR]. repeat split; ring.
Qed.

(** The end-to-end scenario of the specification: one group of three
    layers, 4 residual and skip channels, kernel size 3, causal, on a batch
    of 2 sequences of length 16 with a conditioning tensor of width 5. *)
Example WaveNet_forward_shape :
  exists net,
    WaveNet_init 1 2 1 3 4 4 (Some 4) 3 (Some 5) true = Some net /\
    option_map shape
      (WaveNet_forward net
         {| batch := 2; time := 16; chan := 1; val := fun _ _ _ => 1%R |}
         (Some {| batch := 2; time := 16; chan := 5;
                  val := fun _ _ _ => 1%R |}))
    = Some (2, 16, 2).
Proof. eexists. split; reflexivity. Qed.

(** Counterexamples to C8 as first stated, where the skip tensor has not
    the time-length of the call.  A non-causal block with kernel size 2
    pads by [1 // 2 = 0], so on a stream of length 2 its activated value
    has length 1: the residual sum broadcasts it back to length 2, while
    the skip output keeps length 1.  A causal block given a stream of
    length 1 and a conditioning tensor of length 3 returns a skip tensor of
    length 3. *)
Lemma ResBlock_skip_shape_counterexample :
  (exists rb,
     ResBlock_init 1 1 (Some 2) 2 1 None false false = Some rb /\
     option_map (fun r => (shape (fst r), option_map shape (snd r)))
       (ResBlock_forward rb
          {| batch := 1; time := 2; chan := 1; val := fun _ _ _ => 1%R |} None)
     = Some ((1, 2, 1), Some (1, 1, 2))) /\
  (exists rb,
     ResBlock_init 1 1 (Some 2) 3 1 (Some 1) true true = Some rb /\
     option_map (fun r => (shape (fst r), option_map shape (snd r)))
       (ResBlock_forward rb
          {| batch := 1; time := 1; chan := 1; val := fun _ _ _ => 1%R |}
          demo_c)
     = Some ((1, 3, 1), Some (1, 3, 2))).
Proof. split; eexists; split; reflexivity. Qed.

Lemma is_not_None_Some {A : Type} (o : option A) :
  is_not_None o = true -> exists a, o = Some a.
Proof. destruct o; [eauto | discriminate]. Qed.

(** Witness of C1: a causal stack of two blocks run on [demo_x] and on
    [demo_x'], which differ at time 2 only; the outputs agree up to time 1. *)
Lemma causal_forward_ignores_future_witness :
  agree_upto 1 demo_x demo_x' /\ agree_opt 1 demo_c demo_c /\
  exists net y1 y2,
    WaveNet_init 1 2 1 2 2 2 (Some 2) 3 (Some 1) true
      = Some net /\
    WaveNet_forward net demo_x demo_c = Some y1 /\
    WaveNet_forward net demo_x' demo_c = Some y2 /\
    agree_upto 1 y1 y2.
Proof.
  split; [exact demo_agree|]. split; [exact (agree_opt_refl 1 demo_c)|].
  evar (net : WaveNet).
  assert (Hinit : WaveNet_init 1 2 1 2 2 2 (Some 2) 3
                    (Some 1) true = Some net) by (subst net; reflexivity).
  assert (Hwf : WaveNet_wf true net)
    by exact (proj1 (WaveNet_init_Some _ _ _ _ _ _ _ _ _ _ _ Hinit)).
  assert (Hs : is_not_None (WaveNet_forward net demo_x demo_c) = true)
    by (subst net; reflexivity).
  destruct (is_not_None_Some _ Hs) as [y1 Hy1].
  destruct (causal_forward_ignores_future 1 demo_x demo_x' demo_c demo_c
              demo_agree (agree_opt_refl 1 demo_c)) as (_ & _ & Hnet).
  destruct (Hnet _ _ Hwf Hy1) as (y2 & Hy2 & Hag).
  exists net, y1, y2. auto.
Defined.




(** Counterexample to C4: a non-causal [Conv] with kernel size 2 and
    dilation 1 (so [dilation * (kernel_size - 1) = 1], padding [1 // 2 = 0])
    returns 2 time steps for an input of 3. *)
Lemma Conv_noncausal_length_counterexample :
  exists cv y,
    Conv_init 1 1 2 1 false = Some cv /\
    Conv_forward cv demo_x = Some y /\
    time demo_x = 3 /\ time y = 2 /\ time y <> time demo_x.
Proof.
  evar (cv : Conv).
  assert (Hinit : Conv_init 1 1 2 1 false = Some cv)
    by (subst cv; reflexivity).
  assert (Hs : is_not_None (Conv_forward cv demo_x) = true)
    by (subst cv; reflexivity).
  destruct (is_not_None_Some _ Hs) as [y Hy].
  assert (Ht : option_map time (Conv_forward cv demo_x) = Some 2)
    by (subst cv; reflexivity).
  rewrite Hy in Ht. simpl in Ht. injection Ht as Ht.
  exists cv, y. rewrite Ht. repeat split; auto; simpl; lia.
Qed.

(** Witness of C4 as amended, on the same layer. *)
Lemma Conv_noncausal_forward_length_witness :
  exists cv y,
    Conv_init 1 1 2 1 false = Some cv /\
    Conv_wf cv /\ Conv_causal cv = false /\
    Conv_forward cv demo_x = Some y /\ time y + 1 = time demo_x.
Proof.
  evar (cv : Conv).
  assert (Hinit : Conv_init 1 1 2 1 false = Some cv)
    by (subst cv; reflexivity).
  assert (Hwf : Conv_wf cv)
    by exact (proj1 (proj2 (Conv_init_Some _ _ _ _ _ _ Hinit))).
  destruct (Conv_noncausal_forward_length cv demo_x Hwf eq_refl) as [Hlen Hruns].
  assert (Hlong : Z.even (dilation_rate (Conv_conv cv) *
                            (kernel_size (Conv_conv cv) - 1)) = true \/
                  2 <= time demo_x) by (right; simpl; lia).
  destruct (Hruns ltac:(simpl; lia) ltac:(simpl; lia) eq_refl
              ltac:(simpl; lia) Hlong) as [y Hy].
  destruct (Hlen y Hy) as [_ Hodd].
  exists cv, y. repeat split; auto.
Defined.

(** Witness of C9: kernel size 1, so [P = 0] and nothing is dropped. *)
Lemma Conv_truncation_iff_nonzero_witness :
  exists cv y,
    Conv_init 1 1 1 1 true = Some cv /\
    Conv_wf cv /\ Conv_causal cv = true /\
    py_is_not_zero (Conv_padding cv) = false /\
    Conv_forward cv demo_x = Some y /\ time y = 3 /\
    time (slice_time_to (- 0) y) = 0.
Proof.
  evar (cv : Conv).
  assert (Hinit : Conv_init 1 1 1 1 true = Some cv)
    by (subst cv; reflexivity).
  assert (Hwf : Conv_wf cv)
    by exact (proj1 (proj2 (Conv_init_Some _ _ _ _ _ _ Hinit))).
  destruct (Conv_truncation_iff_nonzero cv demo_x Hwf eq_refl)
    as (_ & _ & _ & Hk1).
  assert (Hs : is_not_None (Conv_forward cv demo_x) = true)
    by (subst cv; reflexivity).
  destruct (is_not_None_Some _ Hs) as [y Hy].
  destruct (Hk1 eq_refl y Hy) as (_ & Ht & Hempty).
  exists cv, y. repeat split; auto.
Defined.

(** Witness of C5: a causal block with conditioning and skip channels on
    [demo_x] and [demo_c]. *)
Lemma ResBlock_forward_gated_residual_witness :
  exists rb ns sk activated activated_val,
    ResBlock_init 1 1 (Some 2) 3 1 (Some 1) true true
      = Some rb /\
    ResBlock_wf rb /\
    ResBlock_forward rb demo_x demo_c = Some (ns, sk) /\
    ResBlock_activated rb demo_x demo_c = Some activated /\
    (exists filter gate,
       gated_activation_spec rb filter gate demo_c = Some activated_val) /\
    (forall i j k, val activated i j k = activated_val i j k) /\
    (forall i j k, val ns i j k = residual_spec rb demo_x activated i j k).
Proof.
  evar (rb : ResBlock).
  assert (Hinit : ResBlock_init 1 1 (Some 2) 3 1 (Some 1)
                    true true = Some rb) by (subst rb; reflexivity).
  assert (Hwf : ResBlock_wf rb)
    by exact (proj1 (ResBlock_init_Some _ _ _ _ _ _ _ _ _ Hinit)).
  assert (Hs : is_not_None (ResBlock_forward rb demo_x demo_c) = true)
    by (subst rb; reflexivity).
  destruct (is_not_None_Some _ Hs) as [[ns sk] Hy].
  destruct (ResBlock_forward_gated_residual rb demo_x demo_c ns sk Hwf Hy)
    as (f & g & a & av & _ & _ & Ha & Hspec & Hav & Hns).
  exists rb, ns, sk, a, av. repeat split; eauto.
Defined.

(** Witness of C6: two groups of three layers with kernel size 3; the last
    block (group 1, position 2) has dilation 9. *)
Lemma WaveNet_init_dilation_schedule_witness :
  exists net rb,
    WaveNet_init 1 2 2 3 4 4 (Some 4) 3 (Some 1) true
      = Some net /\
    length (WN_res_blocks net) = 6 /\
    nth_error (WN_res_blocks net) 5 = Some rb /\
    ResBlock_dilation rb = 9%Z.
Proof.
  evar (net : WaveNet).
  assert (Hinit : WaveNet_init 1 2 2 3 4 4 (Some 4) 3
                    (Some 1) true = Some net) by (subst net; reflexivity).
  destruct (WaveNet_init_dilation_schedule _ _ _ _ _ _ _ _ _ _ _ Hinit
              ltac:(lia) ltac:(lia)) as [Hlen Hnth].
  destruct (Hnth 1%Z 2%Z ltac:(lia) ltac:(lia)) as (rb & Hrb & Hd & _).
  exists net, rb. split; [exact Hinit|]. split; [lia|].
  split; [exact Hrb | exact Hd].
Defined.

(** Counterexample to C7: with a layer constructor that rejects every
    non-positive kernel size and dilation, [WaveNet(num_blocks=0)] and
    [WaveNet(num_layers=0)] are still constructed; they have no block. *)
Lemma WaveNet_init_zero_groups_counterexample :
  (exists net,
     WaveNet_init 1 2 0 6 4 4 (Some 4) 3 (Some 80) true
       = Some net /\ WN_res_blocks net = []) /\
  (exists net,
     WaveNet_init 1 2 1 0 4 4 (Some 4) 3 (Some 80) true
       = Some net /\ WN_res_blocks net = []).
Proof. split; eexists; split; reflexivity. Qed.

(** Witness of C7 as amended. *)
Lemma construction_without_validation_witness :
  Conv_init 1 1 0 1 true = None /\
  Conv_init (Fw := permissive_framework) 1 1 0 1 true <> None /\
  exists net,
    WaveNet_init 1 2 (-1) 6 4 4 None 3 (Some 80) true
      = Some net /\ WN_res_blocks net = [].
Proof.
  destruct (@construction_without_validation RScalar strict_framework)
    as [Hconv Hnet].
  destruct (@construction_without_validation RScalar permissive_framework)
    as [Hconv' _].
  split; [apply Hconv; reflexivity|]. split.
  - intros H. apply Hconv' in H. discriminate H.
  - apply Hnet; [left; lia | reflexivity | reflexivity].
Defined.

(** Witness of C8: the same block with and without skip channels. *)
Lemma ResBlock_skip_toggle_witness :
  (exists rb ns,
     ResBlock_init 1 1 None 3 1 (Some 1) true true
       = Some rb /\
     ResBlock_forward rb demo_x demo_c = Some (ns, None)) /\
  (exists rb ns t,
     ResBlock_init 1 1 (Some 2) 3 1 (Some 1) true true
       = Some rb /\
     ResBlock_forward rb demo_x demo_c = Some (ns, Some t) /\
     shape t = (1, 3, 2)).
Proof.
  split.
  - evar (rb : ResBlock).
    assert (Hinit : ResBlock_init 1 1 None 3 1 (Some 1)
                      true true = Some rb) by (subst rb; reflexivity).
    assert (Hwf : ResBlock_wf rb)
      by exact (proj1 (ResBlock_init_Some _ _ _ _ _ _ _ _ _ Hinit)).
    assert (Hs : is_not_None (ResBlock_forward rb demo_x demo_c) = true)
      by (subst rb; reflexivity).
    destruct (is_not_None_Some _ Hs) as [[ns sk] Hy].
    destruct (ResBlock_skip_toggle rb demo_x demo_c Hwf) as (Hnone & _ & _).
    rewrite (Hnone eq_refl ns sk Hy) in Hy. exists rb, ns. auto.
  - evar (rb : ResBlock).
    assert (Hinit : ResBlock_init 1 1 (Some 2) 3 1 (Some 1)
                      true true = Some rb) by (subst rb; reflexivity).
    assert (Hwf : ResBlock_wf rb)
      by exact (proj1 (ResBlock_init_Some _ _ _ _ _ _ _ _ _ Hinit)).
    assert (Hs : is_not_None (ResBlock_forward rb demo_x demo_c) = true)
      by (subst rb; reflexivity).
    destruct (is_not_None_Some _ Hs) as [[ns sk] Hy].
    destruct (ResBlock_skip_toggle rb demo_x demo_c Hwf) as (_ & _ & Hsome).
    destruct (Hsome 2 eq_refl ns sk Hy)
      as (l & a & t & _ & _ & _ & _ & -> & _ & Hshape).
    exists rb, ns, t. split; [exact Hinit|]. split; [exact Hy|].
    apply Hshape.
    + left. reflexivity.
    + left. reflexivity.
    + intros _. eexists. split; [reflexivity|]. split; reflexivity.
Defined.

(** Counterexamples to C10 as first stated: a block constructed with
    [in_channels = 5] and [out_channels = 2] runs on a stream of width 2,
    and a block with [out_channels = 2] runs on a stream of width 1, which
    the addition broadcasts to width 2. *)
Lemma ResBlock_widths_counterexample :
  (exists rb ns sk,
     ResBlock_init 5 2 None 3 1 None false true = Some rb /\
     ResBlock_out_channels rb = 2 /\ chan demo_x2 = 2 /\
     ResBlock_forward rb demo_x2 None = Some (ns, sk) /\
     chan ns = 2) /\
  (exists rb ns sk,
     ResBlock_init 1 2 None 3 1 None false true = Some rb /\
     ResBlock_out_channels rb = 2 /\ chan demo_x = 1 /\
     ResBlock_forward rb demo_x None = Some (ns, sk) /\
     chan ns = 2).
Proof.
  split.
  - evar (rb : ResBlock).
    assert (Hinit : ResBlock_init 5 2 None 3 1 None false true
                    = Some rb) by (subst rb; reflexivity).
    assert (Hs : is_not_None (ResBlock_forward rb demo_x2 None) = true)
      by (subst rb; reflexivity).
    destruct (is_not_None_Some _ Hs) as [[ns sk] Hy].
    assert (Hc : option_map (fun r => chan (fst r))
                   (ResBlock_forward rb demo_x2 None) = Some 2)
      by (subst rb; reflexivity).
    rewrite Hy in Hc. simpl in Hc. injection Hc as Hc.
    exists rb, ns, sk. repeat split; auto.
  - evar (rb : ResBlock).
    assert (Hinit : ResBlock_init 1 2 None 3 1 None false true
                    = Some rb) by (subst rb; reflexivity).
    assert (Hs : is_not_None (ResBlock_forward rb demo_x None) = true)
      by (subst rb; reflexivity).
    destruct (is_not_None_Some _ Hs) as [[ns sk] Hy].
    assert (Hc : option_map (fun r => chan (fst r))
                   (ResBlock_forward rb demo_x None) = Some 2)
      by (subst rb; reflexivity).
    rewrite Hy in Hc. simpl in Hc. injection Hc as Hc.
    exists rb, ns, sk. repeat split; auto.
Qed.

(** Witness of C10 as amended, on the same block. *)
Lemma ResBlock_residual_widths_witness :
  exists rb ns sk,
    ResBlock_init 1 2 None 3 1 None false true = Some rb /\
    ResBlock_wf rb /\
    ResBlock_forward rb demo_x None = Some (ns, sk) /\
    (chan demo_x = 2 \/ chan demo_x = 1 \/ 2 = 1) /\
    bdim (chan demo_x) 2 = Some (chan ns).
Proof.
  evar (rb : ResBlock).
  assert (Hinit : ResBlock_init 1 2 None 3 1 None false true
                  = Some rb) by (subst rb; reflexivity).
  assert (Hwf : ResBlock_wf rb)
    by exact (proj1 (ResBlock_init_Some _ _ _ _ _ _ _ _ _ Hinit)).
  assert (Hs : is_not_None (ResBlock_forward rb demo_x None) = true)
    by (subst rb; reflexivity).
  destruct (is_not_None_Some _ Hs) as [[ns sk] Hy].
  destruct (@ResBlock_residual_widths RScalar strict_framework rb demo_x None
              Hwf)
    as (Hfw & _ & _ & _).
  destruct (Hfw ns sk Hy) as (Hor & Hb).
  exists rb, ns, sk. auto.
Defined.

(** ** Runs for the further properties *)

(** Witness of X1: two taps of weight 1 on [demo_x]. *)
Lemma Conv_forward_is_causal_convolution_witness :
  exists cv y,
    Conv_init 1 1 2 1 true = Some cv /\
    Conv_forward cv demo_x = Some y /\
    shape y = (1, 3, 1) /\
    val y 0 2 0 = causal_conv_at (Conv_conv cv) demo_x 0 2 0.
Proof.
  evar (cv : Conv).
  assert (Hinit : Conv_init 1 1 2 1 true = Some cv) by (subst cv; reflexivity).
  assert (Hwf : Conv_wf cv)
    by exact (proj1 (proj2 (Conv_init_Some _ _ _ _ _ _ Hinit))).
  assert (Hs : is_not_None (Conv_forward cv demo_x) = true)
    by (subst cv; reflexivity).
  destruct (is_not_None_Some _ Hs) as [y Hy].
  destruct (Conv_forward_is_causal_convolution cv demo_x y Hwf eq_refl Hy)
    as [Hshape Hval].
  exists cv, y. split; [exact Hinit|]. split; [exact Hy|].
  split; [exact Hshape|]. apply Hval. simpl. lia.
Defined.

(** Witness of X2: a causal block with conditioning and skip output. *)
Lemma ResBlock_forward_keeps_stream_shape_witness :
  exists rb ns sk,
    ResBlock_init 1 1 (Some 2) 3 1 (Some 1) true true = Some rb /\
    ResBlock_forward rb demo_x demo_c = Some (ns, sk) /\
    shape ns = shape demo_x.
Proof.
  evar (rb : ResBlock).
  assert (Hinit : ResBlock_init 1 1 (Some 2) 3 1 (Some 1) true true = Some rb)
    by (subst rb; reflexivity).
  assert (Hwf : ResBlock_wf rb)
    by exact (proj1 (ResBlock_init_Some _ _ _ _ _ _ _ _ _ Hinit)).
  assert (Hs : is_not_None (ResBlock_forward rb demo_x demo_c) = true)
    by (subst rb; reflexivity).
  destruct (is_not_None_Some _ Hs) as [[ns sk] Hy].
  assert (Hal : conditioning_aligned rb demo_x demo_c).
  { intros _. eexists. split; [reflexivity|]. split; reflexivity. }
  destruct (ResBlock_forward_keeps_stream_shape rb demo_x demo_c ns sk Hwf
              (or_introl eq_refl) (or_introl eq_refl) Hal Hy)
    as (_ & _ & _ & Hsame & _).
  exists rb, ns, sk. split; [exact Hinit|]. split; [exact Hy|].
  apply Hsame. reflexivity.
Defined.

(** Witness of X3: kernel size 2, dilation 1, not causal, three steps. *)
Lemma ResBlock_noncausal_odd_fails_witness :
  exists rb,
    ResBlock_init 1 1 None 2 1 None false false = Some rb /\
    time demo_x = 3 /\
    ResBlock_forward rb demo_x None = None.
Proof.
  evar (rb : ResBlock).
  assert (Hinit : ResBlock_init 1 1 None 2 1 None false false = Some rb)
    by (subst rb; reflexivity).
  assert (Hwf : ResBlock_wf rb)
    by exact (proj1 (ResBlock_init_Some _ _ _ _ _ _ _ _ _ Hinit)).
  exists rb. split; [exact Hinit|]. split; [reflexivity|].
  apply (ResBlock_noncausal_odd_fails rb demo_x None Hwf eq_refl eq_refl).
  simpl. lia.
Defined.

(** Witness of X4: the stack of the causality run. *)
Lemma WaveNet_forward_keeps_shape_witness :
  exists net y,
    WaveNet_init 1 2 1 2 2 2 (Some 2) 3 (Some 1) true = Some net /\
    WaveNet_forward net demo_x demo_c = Some y /\
    shape y = (1, 3, 2).
Proof.
  evar (net : WaveNet).
  assert (Hinit : WaveNet_init 1 2 1 2 2 2 (Some 2) 3 (Some 1) true = Some net)
    by (subst net; reflexivity).
  assert (Hwf : WaveNet_wf true net)
    by exact (proj1 (WaveNet_init_Some _ _ _ _ _ _ _ _ _ _ _ Hinit)).
  destruct (WaveNet_init_zero_wf _ _ _ _ _ _ _ _ _ _ _ Hinit) as [Hz Ho].
  assert (Hs : is_not_None (WaveNet_forward net demo_x demo_c) = true)
    by (subst net; reflexivity).
  destruct (is_not_None_Some _ Hs) as [y Hy].
  assert (Hal : aligned_with demo_x demo_c).
  { eexists. split; [reflexivity|]. split; reflexivity. }
  exists net, y. split; [exact Hinit|]. split; [exact Hy|].
  rewrite (WaveNet_forward_keeps_shape net demo_x demo_c y Hwf Hz Hal Hy).
  rewrite Ho. reflexivity.
Defined.

(** Witness of X5: the same stack called without conditioning. *)
Lemma WaveNet_forward_needs_conditioning_witness :
  exists net,
    WaveNet_init 1 2 1 2 2 2 (Some 2) 3 (Some 1) true = Some net /\
    WaveNet_forward net demo_x None = None.
Proof.
  evar (net : WaveNet).
  assert (Hinit : WaveNet_init 1 2 1 2 2 2 (Some 2) 3 (Some 1) true = Some net)
    by (subst net; reflexivity).
  exists net. split; [exact Hinit|].
  apply (WaveNet_forward_needs_conditioning _ _ _ _ _ _ _ _ _ _ _ Hinit);
    lia.
Defined.

(** Witness of X6: [num_blocks = 0] with skip channels. *)
Lemma WaveNet_empty_stack_with_skip_fails_witness :
  exists net,
    WaveNet_init 1 2 0 6 4 4 (Some 4) 3 (Some 80) true = Some net /\
    WaveNet_forward net demo_x demo_c = None.
Proof.
  evar (net : WaveNet).
  assert (Hinit : WaveNet_init 1 2 0 6 4 4 (Some 4) 3 (Some 80) true = Some net)
    by (subst net; reflexivity).
  exists net. split; [exact Hinit|].
  apply (WaveNet_empty_stack_with_skip_fails _ _ _ _ _ _ _ _ _ _ _ Hinit).
  left. lia.
Defined.


(** Witness of X9. *)
Lemma learning_rate_schedule_witness :
  get_optimizer_learning_rate 250000 = (1 # 2000)%Q /\
  (get_optimizer_learning_rate 700000 <= get_optimizer_learning_rate 250000)%Q.
Proof.
  destruct (learning_rate_schedule 250000 700000) as (_ & H2 & _ & _ & Hle).
  split; [apply H2; lia | apply Hle; lia].
Defined.

(** Witness of X10: five samples and a hop size of 4. *)
Lemma pad_utterance_next_multiple_witness :
  pad_utterance 0%Z [1; 2; 3; 4; 5]%Z 4 = Some [0; 1; 2; 3; 4; 5; 0; 0]%Z.
Proof.
  destruct (pad_utterance_next_multiple 0%Z [1; 2; 3; 4; 5]%Z 4 ltac:(lia))
    as (pad & padded & Hpad & Hrun & -> & _).
  injection Hpad as <-. exact Hrun.
Defined.

(** Witness of X7: an impulse at time 0 against silence, through a stack
    with one group of one layer and kernel size 2 (reach 3): the outputs
    agree from time 4 on. *)
Lemma WaveNet_receptive_field_witness :
  let x1 := {| batch := 1; time := 8; chan := 1;
               val := fun _ t _ => if t =? 0 then 1%R else 0%R |} in
  let x2 := {| batch := 1; time := 8; chan := 1; val := fun _ _ _ => 0%R |} in
  let c := Some {| batch := 1; time := 8; chan := 1;
                   val := fun _ _ _ => 1%R |} in
  agree_window 1 7 x1 x2 /\
  exists net y1 y2,
    WaveNet_init 1 2 1 1 2 2 (Some 2) 2 (Some 1) true = Some net /\
    WaveNet_reach net = 3 /\
    WaveNet_forward net x1 c = Some y1 /\
    WaveNet_forward net x2 c = Some y2 /\
    agree_window 4 7 y1 y2.
Proof.
  intros x1 x2 c.
  assert (Hx : agree_window 1 7 x1 x2).
  { unfold agree_window. simpl. repeat split.
    intros b t ch _ Hlo _ _ _. destruct t; [lia | reflexivity]. }
  split; [exact Hx|].
  evar (net : WaveNet).
  assert (Hinit : WaveNet_init 1 2 1 1 2 2 (Some 2) 2 (Some 1) true = Some net)
    by (subst net; reflexivity).
  assert (Hwf : WaveNet_wf true net)
    by exact (proj1 (WaveNet_init_Some _ _ _ _ _ _ _ _ _ _ _ Hinit)).
  destruct (WaveNet_init_zero_wf _ _ _ _ _ _ _ _ _ _ _ Hinit) as [Hz _].
  assert (Hs : is_not_None (WaveNet_forward net x1 c) = true)
    by (subst net; reflexivity).
  destruct (is_not_None_Some _ Hs) as [y1 Hy1].
  assert (Hal : aligned_with x1 c).
  { eexists. split; [reflexivity|]. split; reflexivity. }
  destruct (WaveNet_receptive_field 1 7 x1 x2 Hx) as [_ Hnet].
  destruct (Hnet net c y1 Hwf Hz Hal Hy1) as (y2 & Hy2 & Hag).
  exists net, y1, y2. split; [exact Hinit|]. split; [reflexivity|].
  split; [exact Hy1|]. split; [exact Hy2|]. exact Hag.
Defined.

Lemma WaveNet_forward_runs_witness :
  exists net y,
    WaveNet_init 1 2 1 2 2 2 (Some 2) 3 (Some 1) true = Some net /\
    WaveNet_forward net demo_x demo_c = Some y /\
    shape y = (1, 3, 2).
Proof.
  evar (net : WaveNet).
  assert (Hinit : WaveNet_init 1 2 1 2 2 2 (Some 2) 3 (Some 1) true = Some net)
    by (subst net; reflexivity).
  assert (Hk : (1 <= 3)%Z) by lia.
  assert (Hsk : Some 2 <> None -> (1 <= 1)%Z /\ (1 <= 2)%Z)
    by (intros _; split; lia).
  assert (Ht : 1 <= time demo_x) by (simpl; lia).
  destruct (WaveNet_forward_runs 1 2 1 2 2 (Some 2) 3 (Some 1) net demo_x
              (@of_lists RScalar [[[1%R]; [1%R]; [1%R]]]) Hinit Hk Hsk
              Ht eq_refl eq_refl) as (y & Hy & Sy).
  exists net, y. split; [exact Hinit|]. split; [exact Hy|exact Sy].
Defined.

Lemma WaveNet_unequal_widths_fail_witness :
  exists net,
    WaveNet_init 1 2 1 2 2 3 (Some 2) 3 (Some 1) true = Some net /\
    WaveNet_forward net demo_x demo_c = None.
Proof.
  evar (net : WaveNet).
  assert (Hinit : WaveNet_init 1 2 1 2 2 3 (Some 2) 3 (Some 1) true = Some net)
    by (subst net; reflexivity).
  assert (Hnb : (1 <= 1)%Z) by lia.
  assert (Hnl : (1 <= 2)%Z) by lia.
  assert (H23 : 2 <> 3) by lia.
  assert (H21 : 2 <> 1) by lia.
  assert (H31 : 3 <> 1) by lia.
  exists net. split; [exact Hinit|].
  exact (WaveNet_unequal_widths_fail 1 2 1 2 2 3 (Some 2) 3 (Some 1) true net
           demo_x demo_c Hinit Hnb Hnl H23 H21 H31).
Defined.

Lemma Conv_forward_is_centered_convolution_witness :
  exists cv y,
    Conv_init 1 1 3 1 false = Some cv /\
    Conv_forward cv demo_x = Some y /\
    shape y = (1, 3, 1) /\
    val y 0 0 0 = centered_conv_at (Conv_conv cv) demo_x 0 0 0.
Proof.
  evar (cv : Conv).
  assert (Hinit : Conv_init 1 1 3 1 false = Some cv) by (subst cv; reflexivity).
  assert (Hwf : Conv_wf cv)
    by exact (proj1 (proj2 (Conv_init_Some _ _ _ _ _ _ Hinit))).
  assert (Hs : is_not_None (Conv_forward cv demo_x) = true)
    by (subst cv; reflexivity).
  destruct (is_not_None_Some _ Hs) as [y Hy].
  destruct (Conv_forward_is_centered_convolution cv demo_x y Hwf eq_refl Hy)
    as [Hshape Hval].
  exists cv, y. split; [exact Hinit|]. split; [exact Hy|].
  split; [exact Hshape|]. apply Hval.
Defined.

Import String.StringSyntax.
Local Open Scope string_scope.

(** Witness of X11: two books; the second line of the first book and the
    line of the second book have no third field and inherit "hello". *)
Lemma build_from_path_calls_spec_witness :
  let books := [(0, [["a"; "x"; "hello"]; ["b"]]); (1, [["c"; "y"]])] in
  build_from_path_calls (fun l : list String.string => l)
    (fun (b : nat) (p : String.string) => (b, p)) books
  = Some [mkUtterance 1 (0, "a") "hello"; mkUtterance 2 (0, "b") "hello";
          mkUtterance 3 (1, "c") "hello"] /\
  exists c c',
    nth_error [mkUtterance 1 (0, "a") "hello"; mkUtterance 2 (0, "b") "hello";
               mkUtterance 3 (1, "c") "hello"] 2 = Some c /\
    nth_error [mkUtterance 1 (0, "a") "hello"; mkUtterance 2 (0, "b") "hello";
               mkUtterance 3 (1, "c") "hello"] 1 = Some c' /\
    utt_index c = 3%Z /\ utt_text c = utt_text c'.
Proof.
  intros books.
  assert (Hrun : build_from_path_calls (fun l : list String.string => l)
                   (fun (b : nat) (p : String.string) => (b, p)) books
                 = Some [mkUtterance 1 (0, "a") "hello";
                         mkUtterance 2 (0, "b") "hello";
                         mkUtterance 3 (1, "c") "hello"])
    by reflexivity.
  split; [exact Hrun|].
  destruct (build_from_path_calls_spec _ _ _ _ _ books _ Hrun) as [_ Hspec].
  destruct (Hspec 2 (1, ["c"; "y"]) eq_refl)
    as (c & p0 & Hc & Hidx & _ & _ & Htext).
  simpl in Htext. destruct Htext as (j & c' & Hj & Hc' & Ht).
  injection Hj as <-. exists c, c'. auto.
Defined.

(** Witness of X12: a first line with two fields, and a good file. *)
Lemma build_from_path_calls_fails_witness :
  build_from_path_calls (fun l : list String.string => l)
    (fun (b : nat) (p : String.string) => (b, p))
    [(0, [["a"; "x"]; ["b"; "y"; "text"]])] = None /\
  exists calls,
    build_from_path_calls (fun l : list String.string => l)
      (fun (b : nat) (p : String.string) => (b, p))
      [(0, [["a"; "x"; "text"]; ["b"]])] = Some calls.
Proof.
  split.
  - destruct (build_from_path_calls_fails nat (list String.string)
                (nat * String.string) (fun l => l) (fun b p => (b, p))
                [(0, [["a"; "x"]; ["b"; "y"; "text"]])])
      as (Hfirst & _).
    exact (Hfirst _ _ eq_refl eq_refl).
  - destruct (build_from_path_calls_fails nat (list String.string)
                (nat * String.string) (fun l => l) (fun b p => (b, p))
                [(0, [["a"; "x"; "text"]; ["b"]])])
      as (_ & Hok).
    apply Hok.
    + intros bl [<-|[<-|[]]]; discriminate.
    + intros bl rest [= <- _]. discriminate.
Defined.

Local Close Scope string_scope.
